(** * Beta-reader access and feedback workflow (routes/readers.js)

    A shallow embedding of the reader routes of the backend and of the
    tables they work on (migrations 015, 016 and the reader-circles
    migration), with the properties of the invitation life cycle, the
    content filter, the session tracker and the marker store. The read
    routes, the notification gateway (services/emailService.js) and, in
    module [Auth], the sign-in handlers with the token service follow the
    reader routes.

    Conventions of the embedding.
    - A table is the list of its rows, in storage order; [rows[0]] of a
      query result is the head of the list the query returns.
    - Timestamps are integers (milliseconds); one request sees one value of
      the clock, used both for [new Date()] and for SQL [NOW()].
    - UUID keys are opaque numbers; [gen_random_uuid()] gives a key that no
      row of the table carries yet.
    - The request body is typed: tokens are strings, [chapters] and
      [readers] are arrays, [expiresAt] is a time, a percentage is an
      integer, the archive flag is a boolean and a marker type is one of
      the names that the column admits; a property that the request may
      leave out, and that the route does not test, is an [option] whose
      [None] reaches the database as NULL. An identifier that a route
      looks a row up by (a project, an invitation, a marker row), in the
      path or in the body, like the one the authentication middleware
      supplies, is a well-formed UUID.
    - A JSONB column holding an array of chapter ids is the list of those
      ids; [JSON.stringify] followed by the [::jsonb] cast is the identity
      on such a value.
    - A string is the list of its characters, none of them the NUL that
      no text value of the database holds, so that [String.length] is
      the length that [VARCHAR(n)] limits. The columns of the migrations
      keep their types: a value written to a [VARCHAR(255)], [UUID] or
      [INTEGER] column passes through the conversion of module [Pg], and
      the statement throws when the conversion fails. *)

From stdpp Require Import base numbers option list strings pretty sorting.

Local Open Scope string_scope.
Local Open Scope Z_scope.
Local Open Scope list_scope.

(** ** JavaScript helpers *)

Module Js.

(** Truthiness of a value that is a string, [null] or [undefined]. *)
Definition truthy (v : option string) : bool :=
  match v with
  | Some s => bool_decide (s ≠ "")
  | None => false
  end.

(** [v || d] for such a value. *)
Definition or_else (v : option string) (d : string) : string :=
  match v with
  | Some s => if bool_decide (s ≠ "") then s else d
  | None => d
  end.

(** [${v}] inside a template literal, for a column that may be NULL. *)
Definition template (v : option string) : string :=
  match v with
  | Some s => s
  | None => "null"
  end.

(** The escape [\n] of a string literal: the line feed, code 10. *)
Definition newline : string :=
  String (Ascii.Ascii false true false true false false false false) "".

(** [`${n}`] for a non-negative integer. *)
Definition number (n : nat) : string := pretty n.

End Js.

(** ** PostgreSQL column types

    What the database does with a parameter on its way into a column of
    the migrations; [None] stands for the error that aborts the
    statement. *)

Module Pg.

(** The double quote around a name or a value in an error message. *)
Definition dquote : string :=
  String (Ascii.Ascii false true false false false true false false) "".

Definition quoted (s : string) : string := dquote +:+ s +:+ dquote.

(** The characters that the conversions look for. *)
Definition space : Ascii.ascii := Ascii.ascii_of_nat 32.
Definition hyphen : Ascii.ascii := Ascii.ascii_of_nat 45.
Definition left_brace : Ascii.ascii := Ascii.ascii_of_nat 123.
Definition right_brace : Ascii.ascii := Ascii.ascii_of_nat 125.

Fixpoint all_spaces (s : string) : bool :=
  match s with
  | EmptyString => true
  | String c rest => bool_decide (c = space) && all_spaces rest
  end.

(** Assignment to [character varying(n)]: a longer value is an error
    unless the excess characters are all spaces, which are cut off. *)
Definition varchar (n : nat) (s : string) : option string :=
  if (String.length s <=? n)%nat then Some s
  else if all_spaces (String.substring n (String.length s - n) s)
  then Some (String.substring 0 n s)
  else None.

(** The same for a column that may be NULL. *)
Definition varchar_null (n : nat) (v : option string) : option (option string) :=
  match v with
  | None => Some None
  | Some s => Some <$> varchar n s
  end.

Definition too_long (n : nat) : string :=
  "value too long for type character varying(" +:+ pretty n +:+ ")".

Definition is_xdigit (c : Ascii.ascii) : bool :=
  let n := Ascii.nat_of_ascii c in
  ((48 <=? n) && (n <=? 57) || (65 <=? n) && (n <=? 70)
   || (97 <=? n) && (n <=? 102))%nat.

Definition to_lower (c : Ascii.ascii) : Ascii.ascii :=
  let n := Ascii.nat_of_ascii c in
  if ((65 <=? n) && (n <=? 90))%nat then Ascii.ascii_of_nat (n + 32) else c.

(** The loop of the input function of type [uuid]: sixteen pairs of
    hexadecimal digits, with an optional hyphen after a pair of odd index
    other than the last. It gives the digits in lower case and the rest
    of the input. *)
Fixpoint uuid_digits (pairs i : nat) (src : list Ascii.ascii)
  : option (list Ascii.ascii * list Ascii.ascii) :=
  match pairs with
  | O => Some ([], src)
  | S pairs' =>
      match src with
      | a :: b :: rest =>
          if is_xdigit a && is_xdigit b
          then
            let rest' :=
              match rest with
              | c :: rest'' =>
                  if bool_decide (c = hyphen) && Nat.odd i && (i <? 15)%nat
                  then rest'' else rest
              | [] => rest
              end in
            match uuid_digits pairs' (S i) rest' with
            | Some (digits, tail) => Some (to_lower a :: to_lower b :: digits, tail)
            | None => None
            end
          else None
      | _ => None
      end
  end.

(** The output of type [uuid]: the digits in groups of 8, 4, 4, 4 and 12. *)
Definition uuid_out (digits : list Ascii.ascii) : string :=
  String.string_of_list_ascii
    (take 8 digits ++ hyphen :: take 4 (drop 8 digits)
       ++ hyphen :: take 4 (drop 12 digits)
       ++ hyphen :: take 4 (drop 16 digits)
       ++ hyphen :: drop 20 digits).

(** A text parameter read as a [uuid], in the form in which the column
    gives it back; braces around the whole are accepted. *)
Definition uuid (s : string) : option string :=
  let src := String.list_ascii_of_string s in
  let braces := bool_decide (head src = Some left_brace) in
  match uuid_digits 16 0 (if braces then drop 1 src else src) with
  | Some (digits, tail) =>
      if bool_decide (tail = if braces then [right_brace] else [])
      then Some (uuid_out digits) else None
  | None => None
  end.

Definition uuid_null (v : option string) : option (option string) :=
  match v with
  | None => Some None
  | Some s => Some <$> uuid s
  end.

Definition invalid_uuid (s : string) : string :=
  "invalid input syntax for type uuid: " +:+ quoted s.

(** A number read as an [integer] (four bytes). *)
Definition integer (z : Z) : option Z :=
  if bool_decide (-2147483648 <= z <= 2147483647) then Some z else None.

(** The same for a column that may be NULL. *)
Definition integer_null (v : option Z) : option (option Z) :=
  match v with
  | None => Some None
  | Some z => Some <$> integer z
  end.

Definition integer_out_of_range (z : Z) : string :=
  "value " +:+ quoted (pretty z) +:+ " is out of range for type integer".

(** The violation of a unique constraint. *)
Definition unique_violation (constraint : string) : string :=
  "duplicate key value violates unique constraint " +:+ quoted constraint.

(** NULL on its way into a [NOT NULL] column. *)
Definition not_null (column table : string) : string :=
  "null value in column " +:+ quoted column +:+ " of relation "
  +:+ quoted table +:+ " violates not-null constraint".

End Pg.

(** ** Data model *)

Definition uuid := N.
Definition timestamp := Z.

(** [status VARCHAR(50)] under [CONSTRAINT valid_status]. *)
Inductive Status := pending | accepted | expired | revoked.

#[global] Instance Status_eq_dec : EqDecision Status.
Proof. solve_decision. Defined.

(** [marker_type] under [CONSTRAINT valid_marker_type]. *)
Inductive MarkerType := note | question | suggestion | highlight | revision.

#[global] Instance MarkerType_eq_dec : EqDecision MarkerType.
Proof. solve_decision. Defined.

(** One element of [project_data.chapters]. *)
Record Chapter := {
  ch_id : string;
  ch_name : option string;
  ch_scenes : list string
}.

(** [project_data]: [pd_chapters] (the property [chapters]) is [None] when the document has no such
    property. *)
Record ProjectData := {
  pd_chapters : option (list Chapter)
}.

Record User := {
  u_user_id : uuid;
  first_name : option string;
  last_name : option string;
  username : option string
}.

Record Project := {
  p_project_id : uuid;
  p_user_id : uuid;
  title : string;
  project_data : ProjectData
}.

Record Invitation := {
  ri_id : uuid;
  project_id : uuid;
  user_id : uuid;
  access_token : string;
  chapters_accessible : list string;
  invitation_message : option string;
  reader_name : option string;
  reader_email : option string;
  status : Status;
  accepted_at : option timestamp;
  expires_at : timestamp;
  created_at : timestamp;
  updated_at : timestamp;
  last_activity_at : option timestamp;
  circle_name : string;
  archived : bool;
  sort_order : Z
}.

Record Session := {
  rs_id : uuid;
  rs_invitation_id : uuid;
  chapters_read : list string;
  last_chapter_id : option string;
  completion_percentage : option Z;
  rs_created_at : timestamp;
  rs_last_activity_at : timestamp;
  notes : option string
}.

Record Marker := {
  rm_id : uuid;
  rm_invitation_id : uuid;
  rm_project_id : uuid;
  chapter_id : string;
  scene_id : string;
  marker_id : string;
  marker_type : option MarkerType;
  marker_text : option string;
  highlighted_text : option string;
  position_data : string;
  rm_created_at : timestamp;
  rm_updated_at : timestamp;
  imported_to_project : bool;
  imported_at : option timestamp
}.

(** The argument of [sendReaderInvitation]. *)
Record EmailRequest := {
  readerEmail : option string;
  readerName : option string;
  projectTitle : string;
  authorName : option string;
  accessToken : string;
  expiresAt : timestamp;
  invitationMessage : option string;
  chapterNames : list string
}.

(** The store, and the log of the calls made to the notification gateway
    (each with [None] when the mail went out, or the message of the error
    it threw). *)
Record World := {
  users : list User;
  projects : list Project;
  reader_invitations : list Invitation;
  reader_sessions : list Session;
  reader_markers : list Marker;
  mail_log : list (EmailRequest * option string)
}.

(** What a request gets from outside the store: the clock, the bytes of
    [crypto.randomBytes(32).toString('hex')] (indexed by the number of
    the draw within the request), the outcome of a delivery attempt and
    the rendering of [toLocaleDateString]. *)
Record Env := {
  now : timestamp;
  randomBytes : nat -> string;
  deliver : EmailRequest -> option string;
  toLocaleDateString : timestamp -> string
}.

(** ** Row updates (SQL [SET] clauses) *)

Definition set_status (s : Status) (r : Invitation) : Invitation :=
  {| ri_id := ri_id r; project_id := project_id r; user_id := user_id r;
     access_token := access_token r; chapters_accessible := chapters_accessible r;
     invitation_message := invitation_message r; reader_name := reader_name r;
     reader_email := reader_email r; status := s; accepted_at := accepted_at r;
     expires_at := expires_at r; created_at := created_at r;
     updated_at := updated_at r; last_activity_at := last_activity_at r;
     circle_name := circle_name r; archived := archived r;
     sort_order := sort_order r |}.

Definition set_accepted_at (t : option timestamp) (r : Invitation) : Invitation :=
  {| ri_id := ri_id r; project_id := project_id r; user_id := user_id r;
     access_token := access_token r; chapters_accessible := chapters_accessible r;
     invitation_message := invitation_message r; reader_name := reader_name r;
     reader_email := reader_email r; status := status r; accepted_at := t;
     expires_at := expires_at r; created_at := created_at r;
     updated_at := updated_at r; last_activity_at := last_activity_at r;
     circle_name := circle_name r; archived := archived r;
     sort_order := sort_order r |}.

Definition set_updated_at (t : timestamp) (r : Invitation) : Invitation :=
  {| ri_id := ri_id r; project_id := project_id r; user_id := user_id r;
     access_token := access_token r; chapters_accessible := chapters_accessible r;
     invitation_message := invitation_message r; reader_name := reader_name r;
     reader_email := reader_email r; status := status r; accepted_at := accepted_at r;
     expires_at := expires_at r; created_at := created_at r;
     updated_at := t; last_activity_at := last_activity_at r;
     circle_name := circle_name r; archived := archived r;
     sort_order := sort_order r |}.

Definition set_last_activity_at (t : option timestamp) (r : Invitation) : Invitation :=
  {| ri_id := ri_id r; project_id := project_id r; user_id := user_id r;
     access_token := access_token r; chapters_accessible := chapters_accessible r;
     invitation_message := invitation_message r; reader_name := reader_name r;
     reader_email := reader_email r; status := status r; accepted_at := accepted_at r;
     expires_at := expires_at r; created_at := created_at r;
     updated_at := updated_at r; last_activity_at := t;
     circle_name := circle_name r; archived := archived r;
     sort_order := sort_order r |}.

Definition set_circle_name (n : string) (r : Invitation) : Invitation :=
  {| ri_id := ri_id r; project_id := project_id r; user_id := user_id r;
     access_token := access_token r; chapters_accessible := chapters_accessible r;
     invitation_message := invitation_message r; reader_name := reader_name r;
     reader_email := reader_email r; status := status r; accepted_at := accepted_at r;
     expires_at := expires_at r; created_at := created_at r;
     updated_at := updated_at r; last_activity_at := last_activity_at r;
     circle_name := n; archived := archived r;
     sort_order := sort_order r |}.

Definition set_archived (b : bool) (r : Invitation) : Invitation :=
  {| ri_id := ri_id r; project_id := project_id r; user_id := user_id r;
     access_token := access_token r; chapters_accessible := chapters_accessible r;
     invitation_message := invitation_message r; reader_name := reader_name r;
     reader_email := reader_email r; status := status r; accepted_at := accepted_at r;
     expires_at := expires_at r; created_at := created_at r;
     updated_at := updated_at r; last_activity_at := last_activity_at r;
     circle_name := circle_name r; archived := b;
     sort_order := sort_order r |}.

Definition set_progress (c : option string) (pct : option Z) (s : Session)
  : Session :=
  {| rs_id := rs_id s; rs_invitation_id := rs_invitation_id s;
     chapters_read := chapters_read s; last_chapter_id := c;
     completion_percentage := pct; rs_created_at := rs_created_at s;
     rs_last_activity_at := rs_last_activity_at s; notes := notes s |}.

Definition set_notes (n : option string) (s : Session) : Session :=
  {| rs_id := rs_id s; rs_invitation_id := rs_invitation_id s;
     chapters_read := chapters_read s; last_chapter_id := last_chapter_id s;
     completion_percentage := completion_percentage s;
     rs_created_at := rs_created_at s;
     rs_last_activity_at := rs_last_activity_at s; notes := n |}.

Definition set_s_last_activity_at (t : timestamp) (s : Session) : Session :=
  {| rs_id := rs_id s; rs_invitation_id := rs_invitation_id s;
     chapters_read := chapters_read s; last_chapter_id := last_chapter_id s;
     completion_percentage := completion_percentage s;
     rs_created_at := rs_created_at s;
     rs_last_activity_at := t; notes := notes s |}.

Definition set_imported (b : bool) (t : option timestamp) (m : Marker) : Marker :=
  {| rm_id := rm_id m; rm_invitation_id := rm_invitation_id m;
     rm_project_id := rm_project_id m; chapter_id := chapter_id m;
     scene_id := scene_id m; marker_id := marker_id m;
     marker_type := marker_type m; marker_text := marker_text m;
     highlighted_text := highlighted_text m; position_data := position_data m;
     rm_created_at := rm_created_at m; rm_updated_at := rm_updated_at m;
     imported_to_project := b; imported_at := t |}.

Definition set_marker_text (x : option string) (m : Marker) : Marker :=
  {| rm_id := rm_id m; rm_invitation_id := rm_invitation_id m;
     rm_project_id := rm_project_id m; chapter_id := chapter_id m;
     scene_id := scene_id m; marker_id := marker_id m;
     marker_type := marker_type m; marker_text := x;
     highlighted_text := highlighted_text m; position_data := position_data m;
     rm_created_at := rm_created_at m; rm_updated_at := rm_updated_at m;
     imported_to_project := imported_to_project m; imported_at := imported_at m |}.

Definition set_m_updated_at (t : timestamp) (m : Marker) : Marker :=
  {| rm_id := rm_id m; rm_invitation_id := rm_invitation_id m;
     rm_project_id := rm_project_id m; chapter_id := chapter_id m;
     scene_id := scene_id m; marker_id := marker_id m;
     marker_type := marker_type m; marker_text := marker_text m;
     highlighted_text := highlighted_text m; position_data := position_data m;
     rm_created_at := rm_created_at m; rm_updated_at := t;
     imported_to_project := imported_to_project m; imported_at := imported_at m |}.

Definition with_invitations (l : list Invitation) (w : World) : World :=
  {| users := users w; projects := projects w; reader_invitations := l;
     reader_sessions := reader_sessions w; reader_markers := reader_markers w;
     mail_log := mail_log w |}.

Definition with_sessions (l : list Session) (w : World) : World :=
  {| users := users w; projects := projects w;
     reader_invitations := reader_invitations w;
     reader_sessions := l; reader_markers := reader_markers w;
     mail_log := mail_log w |}.

Definition with_markers (l : list Marker) (w : World) : World :=
  {| users := users w; projects := projects w;
     reader_invitations := reader_invitations w;
     reader_sessions := reader_sessions w; reader_markers := l;
     mail_log := mail_log w |}.

Definition with_mail_log (l : list (EmailRequest * option string)) (w : World) : World :=
  {| users := users w; projects := projects w;
     reader_invitations := reader_invitations w;
     reader_sessions := reader_sessions w; reader_markers := reader_markers w;
     mail_log := l |}.

(** ** Responses *)

(** The columns of [RETURNING id, access_token, reader_name, reader_email,
    status, created_at, expires_at]. *)
Record CreatedInvitation := {
  ci_id : uuid;
  ci_access_token : string;
  ci_reader_name : option string;
  ci_reader_email : option string;
  ci_status : Status;
  ci_created_at : timestamp;
  ci_expires_at : timestamp
}.

Record EmailError := {
  reader : option string;
  error : string
}.

(** [{ ...ch, chapterNumber: index + 1 }] *)
Record ChapterView := {
  chapter : Chapter;
  chapterNumber : nat
}.

Record InvitationView := {
  v_id : uuid;
  v_projectTitle : string;
  v_readerName : option string;
  v_message : option string;
  v_expiresAt : timestamp;
  v_status : Status
}.

(** The annotation object handed back by the import route. *)
Record Annotation := {
  a_id : string;
  a_type : option MarkerType;
  a_text : string;
  a_highlightedText : option string;
  a_positionData : string;
  a_chapterId : string;
  a_sceneId : string;
  a_isReaderFeedback : bool;
  a_readerName : option string;
  a_createdAt : timestamp
}.

Inductive Body :=
| BError (err : string) (details : option string)
| BMessage (message : string) (updated : option nat)
| BCreated (invitations : list CreatedInvitation)
    (emailErrors : option (list EmailError)) (message : string)
| BAccess (invitation : InvitationView) (content : list ChapterView)
    (session : option Session)
| BMarker (marker : option Marker)
| BImported (marker : Annotation)
| BNotes (n : string).

Record Response := {
  code : nat;
  body : Body
}.

(** [res.json(b)] and [res.status(c).json(b)]. *)
Definition json (b : Body) : Response := {| code := 200; body := b |}.
Definition status_json (c : nat) (b : Body) : Response := {| code := c; body := b |}.

(** ** Request handlers as state transformers

    A handler runs against the store. It ends with a value, with an early
    [return res...json(...)], or with a thrown error; the rows it has
    written stay written in all three cases (no statement runs inside a
    transaction). *)

Inductive Outcome (A : Type) :=
| Value (a : A)
| Reply (r : Response)
| Thrown (msg : string).

Arguments Value {A} a.
Arguments Reply {A} r.
Arguments Thrown {A} msg.

Definition Handler (A : Type) := World -> World * Outcome A.

Definition ret {A} (a : A) : Handler A := fun w => (w, Value a).

Definition bind {A B} (h : Handler A) (k : A -> Handler B) : Handler B :=
  fun w =>
    match h w with
    | (w', Value a) => k a w'
    | (w', Reply r) => (w', Reply r)
    | (w', Thrown e) => (w', Thrown e)
    end.

Definition reply {A} (r : Response) : Handler A := fun w => (w, Reply r).

Definition throw {A} (e : string) : Handler A := fun w => (w, Thrown e).

(** [try { h } catch (e) { k e }] *)
Definition catch {A} (h : Handler A) (k : string -> Handler A) : Handler A :=
  fun w =>
    match h w with
    | (w', Thrown e) => k e w'
    | other => other
    end.

(** [if (b) { h }] as a statement. *)
Definition when (b : bool) (h : Handler unit) : Handler unit :=
  if b then h else ret tt.

(** A read-only statement and a writing statement. *)
Definition query {A} (q : World -> A) : Handler A := fun w => (w, Value (q w)).
Definition exec (u : World -> World) : Handler unit := fun w => (u w, Value tt).

(** A parameter on its way into a column: the converted value, or the
    error of the conversion, thrown by the statement. *)
Definition convert {A} (converted : option A) (err : string) : Handler A :=
  match converted with
  | Some v => ret v
  | None => throw err
  end.

Notation "'let!' x ':=' h 'in' k" := (bind h (fun x => k))
  (at level 10, x name, h at level 100, k at level 200).
Notation "'do!' h 'in' k" := (bind h (fun _ => k))
  (at level 10, h at level 100, k at level 200).

(** A route: the handler's body inside its outer [try], and the response
    of the [catch] block. *)
Definition route (h : Handler Response) (on_error : string -> Response)
  : World -> World * Response :=
  fun w =>
    match h w with
    | (w', Value r) => (w', r)
    | (w', Reply r) => (w', r)
    | (w', Thrown e) => (w', on_error e)
    end.

(** ** SQL building blocks *)

(** [UPDATE t SET ... WHERE P]: every row that satisfies [P] is rewritten,
    the others are kept, and the order of the table is unchanged. *)
Definition update_where {A} (P : A -> Prop) `{!forall r, Decision (P r)}
    (f : A -> A) (l : list A) : list A :=
  (fun r => if decide (P r) then f r else r) <$> l.

(** The rows of [RETURNING] for that statement. *)
Definition returning {A} (P : A -> Prop) `{!forall r, Decision (P r)}
    (f : A -> A) (l : list A) : list A :=
  f <$> filter P l.

(** [gen_random_uuid()] against the keys already in the table. *)
Definition gen_random_uuid (keys : list uuid) : uuid :=
  N.succ (foldr N.max 0%N keys).

(** Triggers of migration 015: [update_reader_invitations_updated_at],
    [update_reader_markers_updated_at], [update_reader_sessions_activity]. *)
Definition update_reader_updated_at (env : Env) (r : Invitation) : Invitation :=
  set_updated_at (now env) r.
Definition update_marker_updated_at (env : Env) (m : Marker) : Marker :=
  set_m_updated_at (now env) m.
Definition update_session_activity (env : Env) (s : Session) : Session :=
  set_s_last_activity_at (now env) s.

Definition UPDATE_reader_invitations (env : Env) (P : Invitation -> Prop)
    `{!forall r, Decision (P r)} (f : Invitation -> Invitation)
  : Handler (list Invitation) :=
  fun w =>
    let g := fun r => update_reader_updated_at env (f r) in
    (with_invitations (update_where P g (reader_invitations w)) w,
     Value (returning P g (reader_invitations w))).

Definition UPDATE_reader_sessions (env : Env) (P : Session -> Prop)
    `{!forall r, Decision (P r)} (f : Session -> Session)
  : Handler (list Session) :=
  fun w =>
    let g := fun r => update_session_activity env (f r) in
    (with_sessions (update_where P g (reader_sessions w)) w,
     Value (returning P g (reader_sessions w))).

Definition UPDATE_reader_markers (env : Env) (P : Marker -> Prop)
    `{!forall r, Decision (P r)} (f : Marker -> Marker)
  : Handler (list Marker) :=
  fun w =>
    let g := fun r => update_marker_updated_at env (f r) in
    (with_markers (update_where P g (reader_markers w)) w,
     Value (returning P g (reader_markers w))).

(** [reader_invitations ri JOIN projects p ON p.project_id = ri.project_id] *)
Definition join_projects (ris : list Invitation) (ps : list Project)
  : list (Invitation * Project) :=
  ri ← ris;
  p ← filter (fun p => p_project_id p = project_id ri) ps;
  [(ri, p)].

(** [projects p JOIN users u ON u.user_id = p.user_id] *)
Definition join_users (ps : list Project) (us : list User)
  : list (Project * User) :=
  p ← ps;
  u ← filter (fun u => u_user_id u = p_user_id p) us;
  [(p, u)].

(** [new Date(inv.expires_at) < new Date()] *)
Definition is_expired (env : Env) (inv : Invitation) : bool :=
  bool_decide (expires_at inv < now env).

(** ** Author-side routes *)

Record Reader := {
  name : option string;
  email : option string
}.

(** [first_name && last_name ? `${first_name} ${last_name}` : username] *)
Definition author_name (u : User) : option string :=
  if Js.truthy (first_name u) && Js.truthy (last_name u)
  then Some (Js.template (first_name u) +:+ " " +:+ Js.template (last_name u))
  else username u.

(** [allChapters.filter(ch => chapters.includes(ch.id))
                .map(ch => ch.name || 'Untitled Chapter')] *)
Definition chapter_names (allChapters : list Chapter) (ids : list string)
  : list string :=
  (fun ch => Js.or_else (ch_name ch) "Untitled Chapter")
    <$> filter (fun ch => ch_id ch ∈ ids) allChapters.

(** The gateway: the attempt is logged, and a failed delivery throws. *)
Definition sendReaderInvitation (env : Env) (req : EmailRequest) : Handler unit :=
  fun w =>
    let w' := with_mail_log (mail_log w ++ [(req, deliver env req)]) w in
    match deliver env req with
    | None => (w', Value tt)
    | Some e => (w', Thrown e)
    end.

(** [INSERT INTO reader_invitations (...) VALUES (...) RETURNING ...]:
    [access_token], [reader_name], [reader_email] and [circle_name] are
    [VARCHAR(255)]; the unique constraint on [access_token] rejects a
    token that a row already carries; the other columns take their
    defaults. *)
Definition new_invitation_row (env : Env) (projectId user : uuid)
    (accessToken : string) (chapterIds : list string)
    (message : option string) (r : Reader) (expires : timestamp)
    (circle : string) (table : list Invitation) : Invitation :=
  {| ri_id := gen_random_uuid (ri_id <$> table);
     project_id := projectId; user_id := user;
     access_token := accessToken; chapters_accessible := chapterIds;
     invitation_message := message; reader_name := name r;
     reader_email := email r; status := pending; accepted_at := None;
     expires_at := expires; created_at := now env;
     updated_at := now env; last_activity_at := None;
     circle_name := circle; archived := false; sort_order := 0 |}.

(** [RETURNING id, access_token, reader_name, reader_email, status,
    created_at, expires_at] *)
Definition returning_columns (row : Invitation) : CreatedInvitation :=
  {| ci_id := ri_id row; ci_access_token := access_token row;
     ci_reader_name := reader_name row; ci_reader_email := reader_email row;
     ci_status := status row; ci_created_at := created_at row;
     ci_expires_at := expires_at row |}.

Definition INSERT_reader_invitation (env : Env) (projectId user : uuid)
    (accessToken : string) (chapterIds : list string)
    (message : option string) (r : Reader) (expires : timestamp)
    (circle : string) : Handler CreatedInvitation :=
  let! accessToken := convert (Pg.varchar 255 accessToken) (Pg.too_long 255) in
  let! readerName := convert (Pg.varchar_null 255 (name r)) (Pg.too_long 255) in
  let! readerEmail := convert (Pg.varchar_null 255 (email r)) (Pg.too_long 255) in
  let! circle := convert (Pg.varchar 255 circle) (Pg.too_long 255) in
  fun w =>
    if bool_decide (accessToken ∈ access_token <$> reader_invitations w)
    then (w, Thrown (Pg.unique_violation "reader_invitations_access_token_key"))
    else
      let row :=
        new_invitation_row env projectId user accessToken chapterIds message
          {| name := readerName; email := readerEmail |} expires circle
          (reader_invitations w) in
      (with_invitations (reader_invitations w ++ [row]) w,
       Value (returning_columns row)).

(** [circleName || `Draft Review - ${new Date().toLocaleDateString(...)}`] *)
Definition circle_or_default (env : Env) (circleName : option string) : string :=
  Js.or_else circleName ("Draft Review - " +:+ toLocaleDateString env (now env)).

(** The argument of the gateway for one reader of a new invitation. *)
Definition invitation_email (r : Reader) (project : Project)
    (author : option string) (token : string) (expires : timestamp)
    (message : option string) (names : list string) : EmailRequest :=
  {| readerEmail := email r; readerName := name r;
     projectTitle := title project; authorName := author;
     accessToken := token; expiresAt := expires;
     invitationMessage := message; chapterNames := names |}.

(** The body of [for (const reader of readers)]; [k] counts the tokens
    drawn so far. *)
Fixpoint invite_readers (env : Env) (user projectId : uuid)
    (chapterIds : list string) (message : option string)
    (expires : timestamp) (circleName : option string)
    (project : Project) (author : option string) (names : list string)
    (readers : list Reader) (k : nat)
    (invitations : list CreatedInvitation) (emailErrors : list EmailError)
  : Handler (list CreatedInvitation * list EmailError) :=
  match readers with
  | [] => ret (invitations, emailErrors)
  | r :: rest =>
      let accessToken := randomBytes env k in
      let! step :=
        catch
          (let! invitation :=
             INSERT_reader_invitation env projectId user accessToken
               chapterIds message r expires
               (circle_or_default env circleName) in
           let invitations := invitations ++ [invitation] in
           let! emailErrors :=
             catch
               (do! sendReaderInvitation env
                      (invitation_email r project author accessToken expires
                         message names) in
                ret emailErrors)
               (fun emailError =>
                  ret (emailErrors ++ [{| reader := email r; error := emailError |}])) in
           ret (invitations, emailErrors))
          (fun dbError => throw dbError) in
      invite_readers env user projectId chapterIds message expires circleName
        project author names rest (S k) (fst step) (snd step)
  end.

(** The three [SELECT]s of [POST /invitations]. *)
Definition SELECT_project_check (user projectId : uuid) (w : World) : list Project :=
  filter (fun p => p_project_id p = projectId /\ p_user_id p = user) (projects w).

Definition SELECT_active_count (env : Env) (projectId : uuid) (w : World) : nat :=
  length (filter (fun ri => project_id ri = projectId
                            /\ (status ri = pending \/ status ri = accepted)
                            /\ now env < expires_at ri)
            (reader_invitations w)).

Definition SELECT_project_details (projectId : uuid) (w : World)
  : list (Project * User) :=
  join_users (filter (fun p => p_project_id p = projectId) (projects w)) (users w).

(** The [message] of the 201 response. *)
Definition created_message (invitations emailErrors : nat) : string :=
  if (0 <? emailErrors)%nat
  then Js.number invitations +:+ " invitation(s) created, but "
       +:+ Js.number emailErrors +:+ " email(s) failed to send"
  else Js.number invitations +:+ " invitation(s) created and sent successfully".

(** [POST /invitations] *)
Definition createInvitations (env : Env) (user projectId : uuid)
    (chapterIds : list string) (message : option string)
    (readers : list Reader) (expires : timestamp) (circleName : option string)
  : World -> World * Response :=
  route
    (let! projectCheck := query (SELECT_project_check user projectId) in
     do! when (bool_decide (length projectCheck = 0%nat))
           (reply (status_json 404
                     (BError "Project not found or unauthorized" None))) in
     let! currentActive := query (SELECT_active_count env projectId) in
     do! when (15 <? currentActive + length readers)%nat
           (reply (status_json 400
                     (BError ("Maximum 15 active readers per project. Currently: "
                              +:+ Js.number currentActive) None))) in
     let! projectDetails := query (SELECT_project_details projectId) in
     match projectDetails with
     | [] => throw "Cannot read properties of undefined (reading 'first_name')"
     | (project, u) :: _ =>
         let author := author_name u in
         let allChapters := default [] (pd_chapters (project_data project)) in
         let names := chapter_names allChapters chapterIds in
         let! created :=
           invite_readers env user projectId chapterIds message expires
             circleName project author names readers 0 [] [] in
         let invitations := fst created in
         let emailErrors := snd created in
         ret (status_json 201
                (BCreated invitations
                   (if (0 <? length emailErrors)%nat then Some emailErrors else None)
                   (created_message (length invitations) (length emailErrors))))
     end)
    (fun err => status_json 500 (BError "Failed to create invitations" (Some err))).

(** The marker of [POST /markers/:markerId/import], joined with its
    invitation and with the project of the caller. *)
Definition SELECT_import (user markerId : uuid) (w : World)
  : list (Marker * Invitation) :=
  rm ← filter (fun rm => rm_id rm = markerId) (reader_markers w);
  ri ← filter (fun ri => ri_id ri = rm_invitation_id rm) (reader_invitations w);
  p ← filter (fun p => p_project_id p = project_id ri /\ p_user_id p = user)
        (projects w);
  [(rm, ri)].

(** The annotation built from the selected row. *)
Definition annotation (markerData : Marker) (ri : Invitation) : Annotation :=
  {| a_id := marker_id markerData;
     a_type := marker_type markerData;
     a_text := "[" +:+ Js.template (reader_name ri) +:+ "]" +:+ Js.newline
               +:+ Js.template (marker_text markerData);
     a_highlightedText := highlighted_text markerData;
     a_positionData := position_data markerData;
     a_chapterId := chapter_id markerData;
     a_sceneId := scene_id markerData;
     a_isReaderFeedback := true;
     a_readerName := reader_name ri;
     a_createdAt := rm_created_at markerData |}.

(** [POST /markers/:markerId/import] *)
Definition importMarker (env : Env) (user markerId : uuid)
  : World -> World * Response :=
  route
    (let! marker := query (SELECT_import user markerId) in
     match marker with
     | [] => reply (status_json 404 (BError "Marker not found or unauthorized" None))
     | (markerData, ri) :: _ =>
         do! UPDATE_reader_markers env (fun rm => rm_id rm = markerId)
               (set_imported true (Some (now env))) in
         ret (json (BImported (annotation markerData ri)))
     end)
    (fun _ => status_json 500 (BError "Failed to import marker" None)).

(** The invitation of [POST /invitations/:invitationId/resend], joined
    with its project and the project's owner. *)
Definition SELECT_resend (user invitationId : uuid) (w : World)
  : list (Invitation * (Project * User)) :=
  ri ← filter (fun ri => ri_id ri = invitationId /\ user_id ri = user)
        (reader_invitations w);
  pu ← join_users (filter (fun p => p_project_id p = project_id ri) (projects w))
         (users w);
  [(ri, pu)].

(** The argument of the gateway when an invitation is sent again. *)
Definition resend_email (inv : Invitation) (p : Project) (u : User) : EmailRequest :=
  {| readerEmail := reader_email inv; readerName := reader_name inv;
     projectTitle := title p; authorName := author_name u;
     accessToken := access_token inv; expiresAt := expires_at inv;
     invitationMessage := invitation_message inv;
     chapterNames :=
       chapter_names (default [] (pd_chapters (project_data p)))
         (chapters_accessible inv) |}.

(** The two 400 responses of the resend route. *)
Definition resend_expired : Response :=
  status_json 400
    (BError "Cannot resend expired invitation. Please create a new one." None).
Definition resend_revoked : Response :=
  status_json 400 (BError "Cannot resend revoked invitation" None).

(** [POST /invitations/:invitationId/resend] *)
Definition resendInvitation (env : Env) (user invitationId : uuid)
  : World -> World * Response :=
  route
    (let! invitation := query (SELECT_resend user invitationId) in
     match invitation with
     | [] => reply (status_json 404 (BError "Invitation not found or unauthorized" None))
     | (inv, (p, u)) :: _ =>
         do! when (is_expired env inv) (reply resend_expired) in
         do! when (bool_decide (status inv = revoked)) (reply resend_revoked) in
         catch
           (do! sendReaderInvitation env (resend_email inv p u) in
            ret (json (BMessage "Invitation resent successfully" None)))
           (fun emailError =>
              ret (status_json 500 (BError "Failed to send email" (Some emailError))))
     end)
    (fun _ => status_json 500 (BError "Failed to resend invitation" None)).

(** [DELETE /invitations/:invitationId] *)
Definition revokeInvitation (env : Env) (user invitationId : uuid)
  : World -> World * Response :=
  route
    (let! result :=
       UPDATE_reader_invitations env
         (fun ri => ri_id ri = invitationId /\ user_id ri = user)
         (set_status revoked) in
     do! when (bool_decide (length result = 0%nat))
           (reply (status_json 404 (BError "Invitation not found or unauthorized" None))) in
     ret (json (BMessage "Invitation revoked successfully" None)))
    (fun _ => status_json 500 (BError "Failed to revoke invitation" None)).

(** [ri.chapters_accessible::jsonb = $4::jsonb]: two JSON arrays are equal
    when they have the same elements at the same positions. *)
Definition jsonb_eq (a b : list string) : Prop := a = b.

#[global] Instance jsonb_eq_dec a b : Decision (jsonb_eq a b).
Proof. unfold jsonb_eq. apply _. Defined.

(** The [WHERE] clause shared by the two circle routes; it joins the
    [projects] table, which the handlers below read from the store before
    the update. *)
Definition in_circle (w : World) (user projectId : uuid)
    (chaptersAccessible : list string) (ri : Invitation) : Prop :=
  project_id ri = projectId
  /\ user_id ri = user
  /\ Exists (fun p => p_project_id p = project_id ri /\ p_user_id p = user) (projects w)
  /\ jsonb_eq (chapters_accessible ri) chaptersAccessible.

#[global] Instance in_circle_dec w user projectId cs ri :
  Decision (in_circle w user projectId cs ri).
Proof. unfold in_circle. apply _. Defined.

(** [PATCH /circles/:projectId/name]; [circle_name] is
    [VARCHAR(255) NOT NULL]: the parameter is converted when the statement
    is bound, and NULL is refused when a row is rewritten. *)
Definition renameCircle (env : Env) (user projectId : uuid)
    (chaptersAccessible : list string) (circleName : option string)
  : World -> World * Response :=
  route
    (let! w := query (fun w => w) in
     let! circleName :=
       convert (Pg.varchar_null 255 circleName) (Pg.too_long 255) in
     let hit := in_circle w user projectId chaptersAccessible in
     let! result :=
       match circleName with
       | Some stored =>
           UPDATE_reader_invitations env hit (set_circle_name stored)
       | None =>
           let! rows := query (fun w => filter hit (reader_invitations w)) in
           match rows with
           | [] => ret []
           | _ :: _ => throw (Pg.not_null "circle_name" "reader_invitations")
           end
       end in
     do! when (bool_decide (length result = 0%nat))
           (reply (status_json 404 (BError "Circle not found or unauthorized" None))) in
     ret (json (BMessage "Circle name updated successfully" (Some (length result)))))
    (fun _ => status_json 500 (BError "Failed to update circle name" None)).

(** [PATCH /circles/:projectId/archive] *)
Definition archiveCircle (env : Env) (user projectId : uuid)
    (chaptersAccessible : list string) (flag : bool)
  : World -> World * Response :=
  route
    (let! w := query (fun w => w) in
     let! result :=
       UPDATE_reader_invitations env
         (in_circle w user projectId chaptersAccessible)
         (set_archived flag) in
     do! when (bool_decide (length result = 0%nat))
           (reply (status_json 404 (BError "Circle not found or unauthorized" None))) in
     let action := if flag then "archived" else "restored" in
     ret (json (BMessage ("Circle " +:+ action +:+ " successfully") (Some (length result)))))
    (fun _ => status_json 500 (BError "Failed to archive/restore circle" None)).

(** ** Reader-side routes (token only) *)

(** [projectData.chapters?.map((ch, index) => ({ ...ch, chapterNumber: index + 1 }))
                          ?.filter(ch => accessibleChapters.includes(ch.id))] *)
Definition number_chapters (chs : list Chapter) : list ChapterView :=
  imap (fun index ch => {| chapter := ch; chapterNumber := index + 1 |}) chs.

Definition filteredChapters (projectData : ProjectData)
    (accessibleChapters : list string) : option (list ChapterView) :=
  (fun chs => filter (fun cv => ch_id (chapter cv) ∈ accessibleChapters)
                (number_chapters chs))
    <$> pd_chapters projectData.

(** [INSERT INTO reader_sessions (invitation_id) VALUES ($1) RETURNING *] *)
Definition INSERT_reader_session (env : Env) (invitationId : uuid)
  : Handler (list Session) :=
  fun w =>
    let row :=
      {| rs_id := gen_random_uuid (rs_id <$> reader_sessions w);
         rs_invitation_id := invitationId; chapters_read := [];
         last_chapter_id := None; completion_percentage := Some 0;
         rs_created_at := now env; rs_last_activity_at := now env;
         notes := Some "" |} in
    (with_sessions (reader_sessions w ++ [row]) w, Value [row]).

(** The invitation of a token, joined with its project. *)
Definition SELECT_access (token : string) (w : World) : list (Invitation * Project) :=
  join_projects (filter (fun ri => access_token ri = token) (reader_invitations w))
    (projects w).

(** The invitation of a token, for the routes that do not read the project. *)
Definition SELECT_invitation (token : string) (w : World) : list Invitation :=
  filter (fun ri => access_token ri = token) (reader_invitations w).

(** The two 403 responses of [GET /access/:token]. *)
Definition Expired : Response :=
  status_json 403 (BError "Access token has expired" None).
Definition Forbidden : Response :=
  status_json 403 (BError "Access has been revoked" None).

(** [GET /access/:token] *)
Definition resolveAccess (env : Env) (token : string)
  : World -> World * Response :=
  route
    (let! invitation := query (SELECT_access token) in
     match invitation with
     | [] => reply (status_json 404 (BError "Invalid access token" None))
     | (inv, p) :: _ =>
         do! when (is_expired env inv)
               (do! UPDATE_reader_invitations env
                      (fun ri => ri_id ri = ri_id inv) (set_status expired) in
                reply Expired) in
         do! when (bool_decide (status inv = revoked))
               (reply Forbidden) in
         do! when (bool_decide (status inv = pending))
               (do! UPDATE_reader_invitations env
                      (fun ri => ri_id ri = ri_id inv)
                      (fun ri => set_accepted_at (Some (now env))
                                   (set_status accepted ri)) in
                ret tt) in
         let! found :=
           query (fun w => filter (fun rs => rs_invitation_id rs = ri_id inv)
                             (reader_sessions w)) in
         let! session :=
           (if bool_decide (length found = 0%nat)
            then INSERT_reader_session env (ri_id inv)
            else ret found) in
         let projectData := project_data p in
         let accessibleChapters := chapters_accessible inv in
         let filtered := filteredChapters projectData accessibleChapters in
         ret (json (BAccess
                {| v_id := ri_id inv; v_projectTitle := title p;
                   v_readerName := reader_name inv;
                   v_message := invitation_message inv;
                   v_expiresAt := expires_at inv; v_status := status inv |}
                (default [] filtered)
                (head session)))
     end)
    (fun _ => status_json 500 (BError "Failed to verify access" None)).

(** [INSERT INTO reader_markers (...) VALUES (...) RETURNING *];
    [chapter_id], [scene_id] and [marker_id] are [VARCHAR(255) NOT NULL]:
    the parameters are converted first, and the row is checked for NULL
    after that. *)
Definition INSERT_reader_marker (env : Env) (inv : Invitation)
    (chapterId sceneId markerId : option string)
    (markerType : option MarkerType)
    (markerText highlightedText : option string) (positionData : string)
  : Handler (list Marker) :=
  let! chapterId := convert (Pg.varchar_null 255 chapterId) (Pg.too_long 255) in
  let! sceneId := convert (Pg.varchar_null 255 sceneId) (Pg.too_long 255) in
  let! markerId := convert (Pg.varchar_null 255 markerId) (Pg.too_long 255) in
  let! chapterId := convert chapterId (Pg.not_null "chapter_id" "reader_markers") in
  let! sceneId := convert sceneId (Pg.not_null "scene_id" "reader_markers") in
  let! markerId := convert markerId (Pg.not_null "marker_id" "reader_markers") in
  fun w =>
    let row :=
      {| rm_id := gen_random_uuid (rm_id <$> reader_markers w);
         rm_invitation_id := ri_id inv; rm_project_id := project_id inv;
         chapter_id := chapterId; scene_id := sceneId; marker_id := markerId;
         marker_type := markerType; marker_text := markerText;
         highlighted_text := highlightedText; position_data := positionData;
         rm_created_at := now env; rm_updated_at := now env;
         imported_to_project := false; imported_at := None |} in
    (with_markers (reader_markers w ++ [row]) w, Value [row]).

(** The 403 response of [POST /markers]. *)
Definition marker_refused : Response :=
  status_json 403 (BError "Access expired or revoked" None).

(** [POST /markers] *)
Definition createMarker (env : Env) (token : string)
    (chapterId sceneId markerId : option string)
    (markerType : option MarkerType)
    (markerText highlightedText : option string) (positionData : string)
  : World -> World * Response :=
  route
    (let! invitation := query (SELECT_invitation token) in
     match invitation with
     | [] => reply (status_json 404 (BError "Invalid access token" None))
     | inv :: _ =>
         do! when (bool_decide (status inv = revoked) || is_expired env inv)
               (reply marker_refused) in
         let! marker :=
           INSERT_reader_marker env inv chapterId sceneId markerId markerType
             markerText highlightedText positionData in
         do! UPDATE_reader_invitations env (fun ri => ri_id ri = ri_id inv)
               (set_last_activity_at (Some (now env))) in
         ret (status_json 201 (BMarker (head marker)))
     end)
    (fun _ => status_json 500 (BError "Failed to create marker" None)).

(** The [WHERE] clause of the reader's update and delete of a marker:
    [rm.id = $2 AND rm.invitation_id = ri.id AND ri.access_token = $3]. *)
Definition own_marker (w : World) (markerId : uuid) (token : string)
    (rm : Marker) : Prop :=
  rm_id rm = markerId
  /\ Exists (fun ri => rm_invitation_id rm = ri_id ri /\ access_token ri = token)
       (reader_invitations w).

#[global] Instance own_marker_dec w markerId token rm :
  Decision (own_marker w markerId token rm).
Proof. unfold own_marker. apply _. Defined.

(** [PUT /markers/:markerId] *)
Definition updateMarker (env : Env) (markerId : uuid) (token : string)
    (markerText : option string) : World -> World * Response :=
  route
    (let! w := query (fun w => w) in
     let! result :=
       UPDATE_reader_markers env (own_marker w markerId token)
         (fun rm => set_m_updated_at (now env) (set_marker_text markerText rm)) in
     do! when (bool_decide (length result = 0%nat))
           (reply (status_json 404 (BError "Marker not found or unauthorized" None))) in
     ret (json (BMarker (head result))))
    (fun _ => status_json 500 (BError "Failed to update marker" None)).

(** [DELETE /markers/:markerId] *)
Definition deleteMarker (env : Env) (markerId : uuid) (token : string)
  : World -> World * Response :=
  route
    (let! w := query (fun w => w) in
     let result := filter (own_marker w markerId token) (reader_markers w) in
     do! exec (with_markers
                 (filter (fun rm => ~ own_marker w markerId token rm)
                    (reader_markers w))) in
     do! when (bool_decide (length result = 0%nat))
           (reply (status_json 404 (BError "Marker not found or unauthorized" None))) in
     ret (json (BMessage "Marker deleted successfully" None)))
    (fun _ => status_json 500 (BError "Failed to delete marker" None)).

(** [POST /progress]; [last_chapter_id] is [UUID] and
    [completion_percentage] is [INTEGER]: the two parameters are read as
    such when the statement is bound, whether a session matches or not. *)
Definition updateProgress (env : Env) (token : string)
    (chapterId : option string) (completionPercentage : option Z)
  : World -> World * Response :=
  route
    (let! invitation := query (SELECT_invitation token) in
     match invitation with
     | [] => reply (status_json 404 (BError "Invalid access token" None))
     | inv :: _ =>
         let invId := ri_id inv in
         let! chapterId :=
           convert (Pg.uuid_null chapterId)
             (Pg.invalid_uuid (default "" chapterId)) in
         let! completionPercentage :=
           convert (Pg.integer_null completionPercentage)
             (Pg.integer_out_of_range (default 0 completionPercentage)) in
         do! UPDATE_reader_sessions env (fun rs => rs_invitation_id rs = invId)
               (fun rs => set_s_last_activity_at (now env)
                            (set_progress chapterId completionPercentage rs)) in
         do! UPDATE_reader_invitations env (fun ri => ri_id ri = invId)
               (set_last_activity_at (Some (now env))) in
         ret (json (BMessage "Progress updated" None))
     end)
    (fun _ => status_json 500 (BError "Failed to update progress" None)).

(** [POST /notes] *)
Definition updateNotes (env : Env) (token : string) (text : option string)
  : World -> World * Response :=
  route
    (let! invitation := query (SELECT_invitation token) in
     match invitation with
     | [] => reply (status_json 404 (BError "Invalid access token" None))
     | inv :: _ =>
         let invId := ri_id inv in
         let! result :=
           UPDATE_reader_sessions env (fun rs => rs_invitation_id rs = invId)
             (fun rs => set_s_last_activity_at (now env) (set_notes text rs)) in
         do! UPDATE_reader_invitations env (fun ri => ri_id ri = invId)
               (set_last_activity_at (Some (now env))) in
         ret (json (BNotes (Js.or_else (head result ≫= notes) "")))
     end)
    (fun _ => status_json 500 (BError "Failed to update notes" None)).

(** ** The reader subsystem as a transition system

    Every route of the file that writes to the store (the remaining [GET]
    routes only read). *)
Inductive Op :=
| CreateInvitations (user projectId : uuid) (chapterIds : list string)
    (message : option string) (readers : list Reader) (expires : timestamp)
    (circleName : option string)
| ImportMarker (user markerId : uuid)
| ResendInvitation (user invitationId : uuid)
| RevokeInvitation (user invitationId : uuid)
| RenameCircle (user projectId : uuid) (chaptersAccessible : list string)
    (circleName : option string)
| ArchiveCircle (user projectId : uuid) (chaptersAccessible : list string)
    (flag : bool)
| ResolveAccess (token : string)
| CreateMarker (token : string) (chapterId sceneId markerId : option string)
    (markerType : option MarkerType) (markerText highlightedText : option string)
    (positionData : string)
| UpdateMarker (markerId : uuid) (token : string) (markerText : option string)
| DeleteMarker (markerId : uuid) (token : string)
| UpdateProgress (token : string) (chapterId : option string)
    (completionPercentage : option Z)
| UpdateNotes (token : string) (text : option string).

Definition step (env : Env) (op : Op) : World -> World * Response :=
  match op with
  | CreateInvitations user projectId chapterIds message readers expires circleName =>
      createInvitations env user projectId chapterIds message readers expires circleName
  | ImportMarker user markerId => importMarker env user markerId
  | ResendInvitation user invitationId => resendInvitation env user invitationId
  | RevokeInvitation user invitationId => revokeInvitation env user invitationId
  | RenameCircle user projectId cs circleName =>
      renameCircle env user projectId cs circleName
  | ArchiveCircle user projectId cs flag => archiveCircle env user projectId cs flag
  | ResolveAccess token => resolveAccess env token
  | CreateMarker token chapterId sceneId markerId markerType markerText
      highlightedText positionData =>
      createMarker env token chapterId sceneId markerId markerType markerText
        highlightedText positionData
  | UpdateMarker markerId token markerText => updateMarker env markerId token markerText
  | DeleteMarker markerId token => deleteMarker env markerId token
  | UpdateProgress token chapterId pct => updateProgress env token chapterId pct
  | UpdateNotes token text => updateNotes env token text
  end.

(** The store after a sequence of requests, each with what it gets from
    outside. *)
Definition run (requests : list (Env * Op)) (w : World) : World :=
  foldl (fun w request => (step request.1 request.2 w).1) w requests.

(** ** Notions used in the statements *)

(** The status a lookup by token reports. *)
Definition status_of (token : string) (w : World) : option Status :=
  (fun row => status row.1) <$> head (SELECT_access token w).

(** A route rewrites rows of [reader_invitations] in place and appends new
    rows with fresh keys; it never deletes or reorders them.  [extends R]
    says so for a relation [R] between the old and the new value of a row,
    and [preserves R] lifts it to handlers. *)
Definition extends (R : relation Invitation) (t t' : list Invitation) : Prop :=
  exists t1 t2,
    t' = t1 ++ t2
    /\ Forall2 R t t1
    /\ (NoDup (ri_id <$> t) -> NoDup (ri_id <$> t')).

Definition preserves (R : relation Invitation) {A} (h : Handler A) : Prop :=
  forall w, extends R (reader_invitations w) (reader_invitations (h w).1).

(** The frame relation of every route: a row keeps its key, its token, its
    project, its owner, its chapters and its expiration time. *)
Definition same_invitation (r r' : Invitation) : Prop :=
  ri_id r' = ri_id r
  /\ access_token r' = access_token r
  /\ project_id r' = project_id r
  /\ user_id r' = user_id r
  /\ chapters_accessible r' = chapters_accessible r
  /\ expires_at r' = expires_at r.

(** The same, for a route that also leaves a revoked row revoked. *)
Definition keeps_revoked (r r' : Invitation) : Prop :=
  same_invitation r r' /\ (status r = revoked -> status r' = revoked).

(** A value that a [VARCHAR(255)] column stores as it is: it has at most
    255 characters. *)
Definition fits (s : string) : Prop := (String.length s <= 255)%nat.

#[global] Instance fits_dec s : Decision (fits s).
Proof. unfold fits. apply _. Defined.

Definition fits_null (v : option string) : Prop :=
  match v with
  | Some s => fits s
  | None => True
  end.

#[global] Instance fits_null_dec v : Decision (fits_null v).
Proof. destruct v; apply _. Defined.

(** A value that a [VARCHAR(255)] column refuses: past its first 255
    characters it has a character that is not a space. *)
Definition overlong (v : option string) : Prop :=
  exists s i c,
    v = Some s /\ (255 <= i)%nat /\ String.get i s = Some c
    /\ c <> Ascii.ascii_of_nat 32.

(** A reader whose name and address fit their columns. *)
Definition reader_fits (r : Reader) : Prop :=
  fits_null (name r) /\ fits_null (email r).

#[global] Instance reader_fits_dec r : Decision (reader_fits r).
Proof. unfold reader_fits. apply _. Defined.

Section loop_results.
Context (env : Env) (user projectId : uuid) (chapterIds : list string)
  (message : option string) (expires : timestamp) (circleName : option string)
  (project : Project) (author : option string) (names : list string).

(** The rows a run of the loop of [POST /invitations] inserts, reader
    after reader, when the [k]-th draw is the first one and [table] is the
    table it starts from. *)
Fixpoint new_rows (readers : list Reader) (k : nat) (table : list Invitation)
  : list Invitation :=
  match readers with
  | [] => []
  | r :: rest =>
      let row :=
        new_invitation_row env projectId user (randomBytes env k) chapterIds
          message r expires (circle_or_default env circleName) table in
      row :: new_rows rest (S k) (table ++ [row])
  end.

(** The calls the loop makes to the gateway, each with its outcome. *)
Fixpoint mail_attempts (readers : list Reader) (k : nat)
  : list (EmailRequest * option string) :=
  match readers with
  | [] => []
  | r :: rest =>
      let req :=
        invitation_email r project author (randomBytes env k) expires
          message names in
      (req, deliver env req) :: mail_attempts rest (S k)
  end.

(** The tokens of the next [n] draws are pairwise distinct, none of
    them is the token of a stored invitation, and each has at most 255
    characters (a token of [generateAccessToken] has 64). *)
Definition fresh_tokens (k n : nat) (w : World) : Prop :=
  NoDup (randomBytes env <$> seq k n)
  /\ Forall (fun t => t ∉ access_token <$> reader_invitations w)
       (randomBytes env <$> seq k n)
  /\ Forall fits (randomBytes env <$> seq k n).

#[global] Instance fresh_tokens_dec k n w : Decision (fresh_tokens k n w).
Proof. unfold fresh_tokens. apply _. Defined.

End loop_results.

(** The entries of [emailErrors] for a list of delivery attempts. *)
Definition email_errors (attempts : list (EmailRequest * option string))
  : list EmailError :=
  omap (fun a => (fun e => {| reader := readerEmail a.1; error := e |}) <$> a.2)
    attempts.

(** The [SET] clause of the import together with the trigger of the
    table. *)
Definition mark_imported (env : Env) (m : Marker) : Marker :=
  update_marker_updated_at env (set_imported true (Some (now env)) m).

(** A marker row without its two time stamps [imported_at] and
    [updated_at]. *)
Definition forget_import_stamps (m : Marker) : Marker :=
  set_m_updated_at 0 (set_imported (imported_to_project m) None m).

(** ** A sample store

    One author with one project of four chapters, three invitations for
    the chapters B and D (pending, revoked, accepted), and one marker of
    the accepted reader. *)
Module Sample.

Definition chapter_A : Chapter :=
  {| ch_id := "A"; ch_name := Some "Arrival"; ch_scenes := ["a1"] |}.
Definition chapter_B : Chapter :=
  {| ch_id := "B"; ch_name := None; ch_scenes := ["b1"; "b2"] |}.
Definition chapter_C : Chapter :=
  {| ch_id := "C"; ch_name := Some ""; ch_scenes := [] |}.
Definition chapter_D : Chapter :=
  {| ch_id := "D"; ch_name := Some "Departure"; ch_scenes := ["d1"] |}.

Definition author : User :=
  {| u_user_id := 1%N; first_name := Some "Ann"; last_name := Some "Lee";
     username := Some "ann" |}.

Definition book : Project :=
  {| p_project_id := 10%N; p_user_id := 1%N; title := "Book";
     project_data :=
       {| pd_chapters := Some [chapter_A; chapter_B; chapter_C; chapter_D] |} |}.

Definition invitation (key : uuid) (token : string) (s : Status) : Invitation :=
  {| ri_id := key; project_id := 10%N; user_id := 1%N;
     access_token := token; chapters_accessible := ["B"; "D"];
     invitation_message := Some "Enjoy"; reader_name := Some "Bob";
     reader_email := Some "bob@example.org"; status := s;
     accepted_at := None; expires_at := 1000; created_at := 0;
     updated_at := 0; last_activity_at := None;
     circle_name := "First draft"; archived := false; sort_order := 0 |}.

Definition waiting : Invitation := invitation 100%N "tok-pending" pending.
Definition withdrawn : Invitation := invitation 101%N "tok-revoked" revoked.
Definition reading : Invitation := invitation 102%N "tok-accepted" accepted.

Definition session : Session :=
  {| rs_id := 300%N; rs_invitation_id := 101%N; chapters_read := [];
     last_chapter_id := None; completion_percentage := Some 0;
     rs_created_at := 1; rs_last_activity_at := 1; notes := Some "" |}.

Definition remark : Marker :=
  {| rm_id := 500%N; rm_invitation_id := 102%N; rm_project_id := 10%N;
     chapter_id := "B"; scene_id := "b1"; marker_id := "m-1";
     marker_type := Some question; marker_text := Some "Why here?";
     highlighted_text := Some "the door"; position_data := "{}";
     rm_created_at := 3; rm_updated_at := 3;
     imported_to_project := false; imported_at := None |}.

Definition store : World :=
  {| users := [author]; projects := [book];
     reader_invitations := [waiting; withdrawn; reading];
     reader_sessions := [session]; reader_markers := [remark];
     mail_log := [] |}.

(** The world outside at time [t]: the [k]-th token is ["r"] followed by
    [k], and the gateway fails for one address. *)
Definition at_time (t : timestamp) : Env :=
  {| now := t;
     randomBytes := fun k => "r" +:+ pretty k;
     deliver := fun req =>
       if bool_decide (readerEmail req = Some "bad@example.org")
       then Some "SMTP down" else None;
     toLocaleDateString := fun _ => "Nov 2, 2026" |}.

Arguments at_time t%_Z_scope.

Definition carol : Reader :=
  {| name := Some "Carol"; email := Some "bad@example.org" |}.
Definition dave : Reader :=
  {| name := Some "Dave"; email := Some "dave@example.org" |}.

End Sample.


(** ** Routes that only read

    A [GET] route of the file ends with the rows it found, with an early
    reply, or with the response of its [catch] block. *)

Definition read_route {A} (h : Handler A) (on_error : string -> Response)
  : World -> World * Outcome A :=
  catch h (fun e => reply (on_error e)).

(** [ORDER BY key ASC] and [ORDER BY key DESC]: the rows come out by
    increasing (decreasing) key; rows with one key stay in the order of
    the query, which PostgreSQL leaves open. *)
Definition key_le {A} (key : A -> Z) (a b : A) : Prop := key a <= key b.
Definition key_ge {A} (key : A -> Z) (a b : A) : Prop := key b <= key a.

#[global] Instance key_le_dec {A} (key : A -> Z) : RelDecision (key_le key).
Proof. intros a b. unfold key_le. apply _. Defined.

#[global] Instance key_ge_dec {A} (key : A -> Z) : RelDecision (key_ge key).
Proof. intros a b. unfold key_ge. apply _. Defined.

Definition ORDER_BY {A} (key : A -> Z) (rows : list A) : list A :=
  merge_sort (key_le key) rows.

Definition ORDER_BY_DESC {A} (key : A -> Z) (rows : list A) : list A :=
  merge_sort (key_ge key) rows.

(** The columns of the author's list of invitations; the access token is
    not among them. *)
Record ListedInvitation := {
  li_id : uuid;
  li_reader_name : option string;
  li_reader_email : option string;
  li_status : Status;
  li_accepted_at : option timestamp;
  li_expires_at : timestamp;
  li_created_at : timestamp;
  li_last_activity_at : option timestamp;
  li_project_id : uuid;
  li_chapters_accessible : list string;
  li_invitation_message : option string;
  li_circle_name : string;
  li_archived : bool;
  li_project_title : string;
  li_marker_count : nat
}.

(** [(SELECT COUNT( * ) FROM reader_markers WHERE invitation_id = ri.id)] *)
Definition marker_count (w : World) (ri : Invitation) : nat :=
  length (filter (fun rm => rm_invitation_id rm = ri_id ri) (reader_markers w)).

Definition listed (w : World) (row : Invitation * Project) : ListedInvitation :=
  {| li_id := ri_id row.1; li_reader_name := reader_name row.1;
     li_reader_email := reader_email row.1; li_status := status row.1;
     li_accepted_at := accepted_at row.1; li_expires_at := expires_at row.1;
     li_created_at := created_at row.1;
     li_last_activity_at := last_activity_at row.1;
     li_project_id := project_id row.1;
     li_chapters_accessible := chapters_accessible row.1;
     li_invitation_message := invitation_message row.1;
     li_circle_name := circle_name row.1; li_archived := archived row.1;
     li_project_title := title row.2;
     li_marker_count := marker_count w row.1 |}.

(** The route parameter [:projectId]: the word [all] or a project key. *)
Inductive ProjectParam :=
| all_projects
| one_project (projectId : uuid).

(** The [WHERE] clause of the list, for either form of the parameter. *)
Definition listed_for (user : uuid) (param : ProjectParam)
    (row : Invitation * Project) : Prop :=
  match param with
  | all_projects => p_user_id row.2 = user
  | one_project projectId =>
      project_id row.1 = projectId /\ p_user_id row.2 = user
  end.

#[global] Instance listed_for_dec user param row :
  Decision (listed_for user param row).
Proof. destruct param; unfold listed_for; apply _. Defined.

(** [GET /invitations/:projectId] *)
Definition getInvitations (user : uuid) (param : ProjectParam)
  : World -> World * Outcome (list ListedInvitation) :=
  read_route
    (let! invitations :=
       query (fun w =>
                ORDER_BY_DESC li_created_at
                  (listed w
                     <$> filter (listed_for user param)
                           (join_projects (reader_invitations w) (projects w)))) in
     ret invitations)
    (fun _ => status_json 500 (BError "Failed to fetch invitations" None)).

(** The markers of an invitation, each with the reader's name
    ([SELECT rm.*, ri.reader_name]). *)
Definition SELECT_markers_of (invitationId : uuid) (w : World)
  : list (Marker * option string) :=
  rm ← filter (fun rm => rm_invitation_id rm = invitationId) (reader_markers w);
  ri ← filter (fun ri => ri_id ri = rm_invitation_id rm) (reader_invitations w);
  [(rm, reader_name ri)].

(** [GET /markers/:invitationId] *)
Definition getMarkers (user invitationId : uuid)
  : World -> World * Outcome (list (Marker * option string)) :=
  read_route
    (let! invitationCheck :=
       query (fun w =>
                filter (fun row => ri_id row.1 = invitationId
                                   /\ p_user_id row.2 = user)
                  (join_projects (reader_invitations w) (projects w))) in
     do! when (bool_decide (length invitationCheck = 0%nat))
           (reply (status_json 404
                     (BError "Invitation not found or unauthorized" None))) in
     let! markers :=
       query (fun w => ORDER_BY (fun row => rm_created_at row.1)
                         (SELECT_markers_of invitationId w)) in
     ret markers)
    (fun _ => status_json 500 (BError "Failed to fetch markers" None)).

(** The markers of the invitations that carry a token. *)
Definition SELECT_my_markers (token : string) (w : World) : list Marker :=
  rm ← reader_markers w;
  ri ← filter (fun ri => ri_id ri = rm_invitation_id rm
                         /\ access_token ri = token) (reader_invitations w);
  [rm].

(** [GET /my-markers/:token] *)
Definition getMyMarkers (token : string)
  : World -> World * Outcome (list Marker) :=
  read_route
    (let! markers :=
       query (fun w => ORDER_BY rm_created_at (SELECT_my_markers token w)) in
     ret markers)
    (fun _ => status_json 500 (BError "Failed to fetch markers" None)).

(** The notes of the sessions of the invitations that carry a token. *)
Definition SELECT_notes (token : string) (w : World) : list (option string) :=
  rs ← reader_sessions w;
  ri ← filter (fun ri => ri_id ri = rs_invitation_id rs
                         /\ access_token ri = token) (reader_invitations w);
  [notes rs].

(** [GET /notes/:token] *)
Definition getNotes (token : string) : World -> World * Response :=
  route
    (let! result := query (SELECT_notes token) in
     match result with
     | [] => reply (status_json 404 (BError "Session not found" None))
     | n :: _ => ret (json (BNotes (Js.or_else n "")))
     end)
    (fun _ => status_json 500 (BError "Failed to fetch notes" None)).

(** ** The notification gateway (services/emailService.js)

    [sendReaderInvitation] first asks [getTransporter] for the stored SMTP
    settings, then renders the mail, then hands it to the transport.  The
    rendering of subject, text and HTML is not spelled out: [sendMail]
    stands for [transporter.sendMail] applied to the rendered mail, which
    is a function of the settings and of the request.  What is kept is
    where the function throws before the mail reaches the transport. *)

Record EmailSettings := {
  smtp_host : string;
  smtp_port : string;
  smtp_user : string;
  smtp_pass : string;
  from_email : string;
  from_name : string;
  use_tls : bool
}.

(** The error of [getTransporter] when [email_settings] has no row. *)
Definition not_configured : string :=
  "Email settings not configured. Please configure SMTP settings in the Admin panel.".

(** The [TypeError] of [invitationMessage.replace(...)] on a message that
    is absent; [absent] is how the value prints ([undefined] for a field
    missing from a request body, [null] for a NULL column). *)
Definition no_replace (absent : string) : string :=
  "Cannot read properties of " +:+ absent +:+ " (reading 'replace')".

(** The outcome of [sendReaderInvitation]: [None] when the mail went out,
    or the message of the error thrown. *)
Definition gateway (settings : list EmailSettings)
    (sendMail : EmailSettings -> EmailRequest -> option string)
    (absent : string) (req : EmailRequest) : option string :=
  match settings with
  | [] => Some not_configured
  | s :: _ =>
      match invitationMessage req with
      | None => Some (no_replace absent)
      | Some _ => sendMail s req
      end
  end.

(** The world outside, with the gateway in place of an arbitrary delivery
    outcome. *)
Definition with_gateway (settings : list EmailSettings)
    (sendMail : EmailSettings -> EmailRequest -> option string)
    (absent : string) (env : Env) : Env :=
  {| now := now env; randomBytes := randomBytes env;
     deliver := gateway settings sendMail absent;
     toLocaleDateString := toLocaleDateString env |}.

(** ** Notions used in the statements about access *)

(** The [SET] clause of the first access together with the trigger. *)
Definition accepted_now (env : Env) (ri : Invitation) : Invitation :=
  update_reader_updated_at env
    (set_accepted_at (Some (now env)) (set_status accepted ri)).

(** The sessions of an invitation. *)
Definition sessions_of (key : uuid) (w : World) : list Session :=
  filter (fun rs => rs_invitation_id rs = key) (reader_sessions w).

(** The [invitation], the [content.chapters] and the [session] of a 200
    response of [GET /access/:token]. *)
Definition view_of (r : Response) : option InvitationView :=
  match body r with
  | BAccess view _ _ => Some view
  | _ => None
  end.

Definition content_of (r : Response) : list ChapterView :=
  match body r with
  | BAccess _ content _ => content
  | _ => []
  end.

Definition session_of (r : Response) : option Session :=
  match body r with
  | BAccess _ _ session => session
  | _ => None
  end.

(** The store and the response of an access that is granted to [inv]. *)
Definition granted_store (env : Env) (inv : Invitation) (w : World) : World :=
  let w1 :=
    if bool_decide (status inv = pending)
    then with_invitations
           (update_where (fun ri => ri_id ri = ri_id inv)
              (fun ri => accepted_now env ri) (reader_invitations w)) w
    else w in
  if bool_decide (length (sessions_of (ri_id inv) w) = 0%nat)
  then with_sessions
         (reader_sessions w
            ++ [ {| rs_id := gen_random_uuid (rs_id <$> reader_sessions w);
                    rs_invitation_id := ri_id inv; chapters_read := [];
                    last_chapter_id := None; completion_percentage := Some 0;
                    rs_created_at := now env; rs_last_activity_at := now env;
                    notes := Some "" |} ]) w1
  else w1.

Definition granted_response (inv : Invitation) (p : Project) (w' : World)
  : Response :=
  json (BAccess
          {| v_id := ri_id inv; v_projectTitle := title p;
             v_readerName := reader_name inv;
             v_message := invitation_message inv;
             v_expiresAt := expires_at inv; v_status := status inv |}
          (default [] (filteredChapters (project_data p) (chapters_accessible inv)))
          (head (sessions_of (ri_id inv) w'))).

(** The sample store with one more pending invitation, stored under the
    token [tok]. *)
Definition sample_store_with (tok : string) : World :=
  with_invitations
    (reader_invitations Sample.store ++ [Sample.invitation 103%N tok pending])
    Sample.store.

(** A name of 300 letters, for a reader whose name does not fit its
    column. *)
Definition long_name : string :=
  String.string_of_list_ascii (replicate 300 (Ascii.ascii_of_nat 120)).

(** ** Sign-in tokens (controllers/authController.js, services/tokenService.js)

    The three handlers of the authentication controller and the token
    service they call, over the tables [users] and [refresh_tokens] of the
    initial schema. The password check ([bcrypt.compare]), the signature of
    the access token ([jwt.sign]) and the identifier source ([uuidv4]) are
    functions of the world outside; the first two may throw. Body
    properties are strings or [undefined]; a parameter that is [undefined]
    reaches the database as NULL, which no row equals. *)

Module Auth.

(** The columns of [users] that the handlers read. *)
Record Account := {
  user_id : uuid;
  email : string;
  username : option string;
  password_hash : string;
  role : option string
}.

Record RefreshToken := {
  token_id : uuid;
  rt_user_id : uuid;
  token : string;
  expires_at : timestamp;
  created_at : timestamp
}.

Record Store := {
  users : list Account;
  refresh_tokens : list RefreshToken
}.

Definition with_refresh_tokens (l : list RefreshToken) (s : Store) : Store :=
  {| users := users s; refresh_tokens := l |}.

(** The object under [user] in the payload of an access token. *)
Record Payload := {
  pl_user_id : uuid;
  pl_email : string;
  pl_username : option string;
  pl_role : string
}.

(** The result of a call that may throw. *)
Inductive Try (A : Type) :=
| Returns (a : A)
| Throws (msg : string).

Arguments Returns {A} a.
Arguments Throws {A} msg.

Record Env := {
  now : timestamp;
  (** [bcrypt.compare(password, hash)] *)
  compare : option string -> string -> Try bool;
  (** [jwt.sign(payload, process.env.ACCESS_TOKEN_SECRET, { expiresIn: '1d' })] *)
  sign : Payload -> Try string;
  uuidv4 : string;
  (** [d.setDate(d.getDate() + 7)] in the time zone of the server *)
  plus_seven_days : timestamp -> timestamp
}.

Inductive Body :=
| error (e : string)
| message (m : string)
| tokens (accessToken refreshToken : string)
| access (accessToken : string).

(** [res.status(c).json(b)] and [res.sendStatus(c)]; [res.json(b)] is
    [status_json 200 b]. *)
Inductive Response :=
| status_json (c : nat) (b : Body)
| sendStatus (c : nat).

Definition json (b : Body) : Response := status_json 200 b.

Inductive Outcome (A : Type) :=
| Value (a : A)
| Reply (r : Response)
| Thrown (msg : string).

Arguments Value {A} a.
Arguments Reply {A} r.
Arguments Thrown {A} msg.

Definition Handler (A : Type) := Store -> Store * Outcome A.

Definition ret {A} (a : A) : Handler A := fun s => (s, Value a).

Definition bind {A B} (h : Handler A) (k : A -> Handler B) : Handler B :=
  fun s =>
    match h s with
    | (s', Value a) => k a s'
    | (s', Reply r) => (s', Reply r)
    | (s', Thrown e) => (s', Thrown e)
    end.

Definition reply {A} (r : Response) : Handler A := fun s => (s, Reply r).

Definition throw {A} (e : string) : Handler A := fun s => (s, Thrown e).

Definition catch {A} (h : Handler A) (k : string -> Handler A) : Handler A :=
  fun s =>
    match h s with
    | (s', Thrown e) => k e s'
    | other => other
    end.

Definition call {A} (t : Try A) : Handler A :=
  match t with
  | Returns a => ret a
  | Throws e => throw e
  end.

Definition query {A} (q : Store -> A) : Handler A := fun s => (s, Value (q s)).
Definition exec (u : Store -> Store) : Handler unit := fun s => (u s, Value tt).

Notation "'let?' x ':=' h 'in' k" := (bind h (fun x => k))
  (at level 10, x name, h at level 100, k at level 200).
Notation "'do?' h 'in' k" := (bind h (fun _ => k))
  (at level 10, h at level 100, k at level 200).

Definition route (h : Handler Response) (on_error : string -> Response)
  : Store -> Store * Response :=
  fun s =>
    match h s with
    | (s', Value r) => (s', r)
    | (s', Reply r) => (s', r)
    | (s', Thrown e) => (s', on_error e)
    end.

(** *** services/tokenService.js *)

Definition generateAccessToken (env : Env) (user : Account) : Try string :=
  sign env
    {| pl_user_id := user_id user; pl_email := email user;
       pl_username := username user;
       pl_role := Js.or_else (role user) "user" |}.

(** [DELETE FROM refresh_tokens WHERE user_id = $1] *)
Definition DELETE_tokens_of (uid : uuid) (s : Store) : Store :=
  with_refresh_tokens
    (filter (fun r => rt_user_id r <> uid) (refresh_tokens s)) s.

(** [INSERT INTO refresh_tokens (user_id, token, expires_at)]: [token] is
    UNIQUE and [user_id] references [users]. *)
Definition INSERT_refresh_token (env : Env) (uid : uuid) (tok : string)
    (expiryDate : timestamp) : Handler unit :=
  fun s =>
    if bool_decide (uid ∉ user_id <$> users s)
    then (s, Thrown ("insert or update on table "
                     +:+ Pg.quoted "refresh_tokens"
                     +:+ " violates foreign key constraint "
                     +:+ Pg.quoted "refresh_tokens_user_id_fkey"))
    else if bool_decide (tok ∈ token <$> refresh_tokens s)
    then (s, Thrown (Pg.unique_violation "refresh_tokens_token_key"))
    else
      (with_refresh_tokens
         (refresh_tokens s
            ++ [ {| token_id := gen_random_uuid (token_id <$> refresh_tokens s);
                    rt_user_id := uid; token := tok;
                    expires_at := expiryDate; created_at := now env |} ]) s,
       Value tt).

Definition generateRefreshToken (env : Env) (user : Account) : Handler string :=
  let tok := uuidv4 env in
  let expiryDate := plus_seven_days env (now env) in
  catch
    (do? exec (DELETE_tokens_of (user_id user)) in
     do? INSERT_refresh_token env (user_id user) tok expiryDate in
     ret tok)
    (fun _ => throw "Could not generate refresh token.").

(** *** controllers/authController.js *)

(** [SELECT * FROM users WHERE email = $1] *)
Definition SELECT_users_by_email (e : option string) (s : Store) : list Account :=
  match e with
  | Some e => filter (fun u => email u = e) (users s)
  | None => []
  end.

(** [SELECT * FROM users WHERE user_id = $1] *)
Definition SELECT_users_by_id (uid : uuid) (s : Store) : list Account :=
  filter (fun u => user_id u = uid) (users s).

(** [SELECT * FROM refresh_tokens WHERE token = $1] *)
Definition SELECT_refresh_tokens (t : option string) (s : Store)
  : list RefreshToken :=
  match t with
  | Some t => filter (fun r => token r = t) (refresh_tokens s)
  | None => []
  end.

(** [DELETE FROM refresh_tokens WHERE token = $1] *)
Definition DELETE_refresh_token (t : option string) (s : Store) : Store :=
  match t with
  | Some t =>
      with_refresh_tokens (filter (fun r => token r <> t) (refresh_tokens s)) s
  | None => s
  end.

(** The read of a [const] of the enclosing block above its declaration. *)
Definition before_initialization {A} (x : string) : Handler A :=
  throw ("Cannot access '" +:+ x +:+ "' before initialization").

(** [exports.login]. The statement that builds [responsePayload] reads
    [accessToken] and [refreshToken], which the same block declares with
    [const] two statements further down. *)
Definition login (env : Env) (email password : option string)
  : Store -> Store * Response :=
  route
    (let? userResult := query (SELECT_users_by_email email) in
     match userResult with
     | [] => reply (status_json 400 (error "Invalid credentials"))
     | user :: _ =>
         let? isMatch := call (compare env password (password_hash user)) in
         if negb isMatch
         then reply (status_json 400 (error "Invalid credentials"))
         else
           do? before_initialization (A := unit) "accessToken" in
           let? accessToken := call (generateAccessToken env user) in
           let? refreshToken := generateRefreshToken env user in
           ret (json (tokens accessToken refreshToken))
     end)
    (fun _ => status_json 500 (error "Server error")).

(** [exports.refresh] *)
Definition refresh (env : Env) (refreshToken : option string)
  : Store -> Store * Response :=
  route
    (if negb (Js.truthy refreshToken)
     then reply (sendStatus 401)
     else
       let? rows := query (SELECT_refresh_tokens refreshToken) in
       match head rows with
       | None => reply (sendStatus 403)
       | Some storedToken =>
           if bool_decide (expires_at storedToken < now env)
           then reply (sendStatus 403)
           else
             let? userResult :=
               query (SELECT_users_by_id (rt_user_id storedToken)) in
             match head userResult with
             | None => reply (sendStatus 403)
             | Some user =>
                 let? newAccessToken := call (generateAccessToken env user) in
                 ret (json (access newAccessToken))
             end
       end)
    (fun _ => status_json 500 (message "Server error during token refresh")).

(** [exports.logout] *)
Definition logout (refreshToken : option string) : Store -> Store * Response :=
  route
    (do? exec (DELETE_refresh_token refreshToken) in
     ret (sendStatus 204))
    (fun _ => status_json 500 (message "Server error")).

(** The stored tokens of one user. *)
Definition tokens_of (uid : uuid) (s : Store) : list RefreshToken :=
  filter (fun r => rt_user_id r = uid) (refresh_tokens s).

(** A store for the examples. *)
Module Demo.

Definition ann : Account :=
  {| user_id := 1%N; email := "ann@example.org"; username := Some "ann";
     password_hash := "hash-of-ann"; role := None |}.

Definition bob : Account :=
  {| user_id := 2%N; email := "bob@example.org"; username := None;
     password_hash := "hash-of-bob"; role := Some "admin" |}.

Definition store : Store :=
  {| users := [ann; bob];
     refresh_tokens :=
       [ {| token_id := 1%N; rt_user_id := 1%N; token := "ann-old";
            expires_at := 900; created_at := 100 |};
         {| token_id := 2%N; rt_user_id := 2%N; token := "bob-token";
            expires_at := 2000; created_at := 200 |} ] |}.

(** The outside at time [t], drawing [id] as the next identifier: a
    password matches the hash made of it, and an access token spells the
    address and the role it is signed for. *)
Definition at_time (t : timestamp) (id : string) : Env :=
  {| now := t;
     compare := fun p h =>
       match p with
       | Some p => Returns (bool_decide (h = "hash-of-" +:+ p))
       | None => Throws "Illegal arguments: undefined, string"
       end;
     sign := fun pl => Returns ("jwt:" +:+ pl_email pl +:+ ":" +:+ pl_role pl);
     uuidv4 := id;
     plus_seven_days := fun d => d + 604800000 |}.

End Demo.

End Auth.
(** * Properties *)

(** ** Content filter *)

Section content_filter.
Context (accessible : list string).

Let granted (ch : Chapter) : Prop := ch_id ch ∈ accessible.

(** Numbering from an arbitrary first index, for the induction. *)
Lemma filter_numbered_from (k : nat) (chs : list Chapter) :
  chapter <$> filter (fun cv => ch_id (chapter cv) ∈ accessible)
                (imap (fun index ch =>
                         {| chapter := ch; chapterNumber := k + index + 1 |}) chs)
  = filter granted chs.
Proof.
  revert k. induction chs as [|ch chs IH]; intros k; [done|].
  rewrite imap_cons, !filter_cons. cbn [chapter].
  rewrite <- (IH (S k)).
  rewrite (imap_ext _ (fun index c =>
             {| chapter := c; chapterNumber := S k + index + 1 |}) chs)
    by (intros; cbn; f_equal; lia).
  unfold granted. destruct (decide (ch_id ch ∈ accessible)); done.
Qed.

Lemma number_chapters_chapters (chs : list Chapter) :
  chapter <$> filter (fun cv => ch_id (chapter cv) ∈ accessible)
                (number_chapters chs)
  = filter granted chs.
Proof. exact (filter_numbered_from 0 chs). Qed.

Lemma number_chapters_elem (chs : list Chapter) (cv : ChapterView) :
  cv ∈ filter (fun cv => ch_id (chapter cv) ∈ accessible) (number_chapters chs)
  <-> ch_id (chapter cv) ∈ accessible
      /\ exists index : nat,
           chs !! index = Some (chapter cv)
           /\ chapterNumber cv = (index + 1)%nat.
Proof.
  rewrite list_elem_of_filter. unfold number_chapters.
  rewrite elem_of_lookup_imap. split.
  - intros [Hin (index & ch & -> & Hlook)]. eauto.
  - intros [Hin (index & Hlook & Hnum)]. split; [done|].
    exists index, (chapter cv). split; [|done].
    destruct cv as [c n]; cbn in *. by subst.
Qed.

Lemma numbered_from_sorted (k : nat) (chs : list Chapter) :
  StronglySorted lt
    (chapterNumber <$>
       imap (fun index ch =>
               {| chapter := ch; chapterNumber := k + index + 1 |}) chs).
Proof.
  revert k. induction chs as [|ch chs IH]; intros k; [constructor|].
  rewrite imap_cons, fmap_cons. cbn [chapterNumber].
  rewrite (imap_ext _ (fun index c =>
             {| chapter := c; chapterNumber := S k + index + 1 |}) chs)
    by (intros; cbn; f_equal; lia).
  constructor; [apply IH|].
  apply Forall_forall. intros n Hn.
  apply list_elem_of_fmap in Hn as (cv & -> & Hcv).
  apply elem_of_lookup_imap in Hcv as (index & c & -> & _). cbn. lia.
Qed.

Lemma filtered_numbers_sorted (chs : list Chapter) :
  StronglySorted lt
    (chapterNumber <$>
       filter (fun cv => ch_id (chapter cv) ∈ accessible) (number_chapters chs)).
Proof.
  pose proof (numbered_from_sorted 0 chs) as Hs.
  unfold number_chapters.
  set (l := imap _ chs) in *. clearbody l.
  induction l as [|cv l IH]; [constructor|].
  rewrite fmap_cons in Hs. apply StronglySorted_inv in Hs as [Hs Hall].
  rewrite filter_cons. destruct (decide _); [|by apply IH].
  rewrite fmap_cons. constructor; [by apply IH|].
  apply Forall_forall. intros n Hn.
  apply list_elem_of_fmap in Hn as (cv' & -> & Hcv').
  apply list_elem_of_filter in Hcv' as [_ Hcv'].
  rewrite Forall_forall in Hall. apply Hall.
  apply list_elem_of_fmap. eauto.
Qed.

End content_filter.

(** ** SQL building blocks *)

Section update_where.
Context {A : Type} (P : A -> Prop) `{!forall r, Decision (P r)} (f : A -> A).

Lemma update_where_lookup (l : list A) (i : nat) :
  update_where P f l !! i
  = (fun r => if decide (P r) then f r else r) <$> l !! i.
Proof. unfold update_where. apply list_lookup_fmap. Qed.

Lemma update_where_length (l : list A) :
  length (update_where P f l) = length l.
Proof. unfold update_where. apply length_fmap. Qed.

Lemma filter_update_where (Q : A -> Prop) `{!forall r, Decision (Q r)}
    (l : list A) :
  (forall r, Q (f r) <-> Q r) ->
  filter Q (update_where P f l) = update_where P f (filter Q l).
Proof.
  intros HQ. unfold update_where.
  induction l as [|r l IH]; [done|].
  rewrite fmap_cons, !filter_cons.
  assert (Q (if decide (P r) then f r else r) <-> Q r) as Hr
    by (destruct (decide (P r)); [apply HQ|done]).
  destruct (decide (Q r)) as [Hq|Hq].
  - rewrite decide_True by (by apply Hr). by rewrite fmap_cons, IH.
  - rewrite decide_False by (by rewrite Hr). done.
Qed.

Lemma returning_length_zero (l : list A) :
  length (returning P f l) = 0%nat <-> Forall (fun r => ~ P r) l.
Proof.
  unfold returning. rewrite length_fmap.
  induction l as [|r l IH]; [by split; [constructor|]|].
  rewrite filter_cons, Forall_cons.
  destruct (decide (P r)); cbn; [|tauto].
  split; [lia|tauto].
Qed.

Lemma update_where_none (l : list A) :
  Forall (fun r => ~ P r) l -> update_where P f l = l.
Proof.
  unfold update_where. induction 1 as [|r l Hr _ IH]; [done|].
  rewrite fmap_cons, IH. by rewrite decide_False.
Qed.

End update_where.

Lemma join_projects_cons (ri : Invitation) (ris : list Invitation)
    (ps : list Project) :
  join_projects (ri :: ris) ps
  = (pair ri <$> filter (fun p => p_project_id p = project_id ri) ps)
      ++ join_projects ris ps.
Proof.
  unfold join_projects. cbn. f_equal.
Qed.

Lemma join_projects_update_where (P : Invitation -> Prop)
    `{!forall r, Decision (P r)} (f : Invitation -> Invitation)
    (ris : list Invitation) (ps : list Project) :
  (forall r, project_id (f r) = project_id r) ->
  join_projects (update_where P f ris) ps
  = prod_map (fun r => if decide (P r) then f r else r) id
      <$> join_projects ris ps.
Proof.
  intros Hf. induction ris as [|ri ris IH]; [done|].
  unfold update_where in *. rewrite fmap_cons, !join_projects_cons, IH.
  rewrite fmap_app. f_equal.
  assert (project_id (if decide (P ri) then f ri else ri) = project_id ri) as ->
    by (destruct (decide (P ri)); [apply Hf|done]).
  rewrite <- list_fmap_compose. done.
Qed.

(** What a later lookup by token sees once an [UPDATE] that keeps tokens
    and project references has run. *)
Lemma SELECT_access_update (P : Invitation -> Prop)
    `{!forall r, Decision (P r)} (f : Invitation -> Invitation)
    (token : string) (w : World) :
  (forall r, access_token (f r) = access_token r) ->
  (forall r, project_id (f r) = project_id r) ->
  SELECT_access token
    (with_invitations (update_where P f (reader_invitations w)) w)
  = prod_map (fun r => if decide (P r) then f r else r) id
      <$> SELECT_access token w.
Proof.
  intros Htok Hpid. unfold SELECT_access. cbn [reader_invitations projects with_invitations].
  rewrite (filter_update_where P f) by (intros r; by rewrite Htok).
  by apply join_projects_update_where.
Qed.

Lemma SELECT_invitation_update (P : Invitation -> Prop)
    `{!forall r, Decision (P r)} (f : Invitation -> Invitation)
    (token : string) (w : World) :
  (forall r, access_token (f r) = access_token r) ->
  SELECT_invitation token
    (with_invitations (update_where P f (reader_invitations w)) w)
  = update_where P f (SELECT_invitation token w).
Proof.
  intros Htok. unfold SELECT_invitation. cbn [reader_invitations with_invitations].
  by rewrite (filter_update_where P f) by (intros r; by rewrite Htok).
Qed.

(** A value that fits its column is stored as it is. *)
Lemma varchar_fits (s : string) : fits s -> Pg.varchar 255 s = Some s.
Proof.
  unfold fits, Pg.varchar. intros Hlen.
  by rewrite (proj2 (Nat.leb_le _ _)) by done.
Qed.

Lemma varchar_null_fits (v : option string) :
  fits_null v -> Pg.varchar_null 255 v = Some v.
Proof.
  destruct v as [s|]; [|done]. cbn. intros Hlen. by rewrite varchar_fits.
Qed.

(** The characters past position [n] are not all spaces. *)
Lemma all_spaces_from (n : nat) (s : string) :
  Pg.all_spaces (String.substring n (String.length s - n) s) = false
  <-> exists i c,
        (n <= i)%nat /\ String.get i s = Some c /\ c <> Ascii.ascii_of_nat 32.
Proof.
  revert s. induction n as [|n IH]; intros s.
  - rewrite Nat.sub_0_r. induction s as [|a s IHs]; cbn.
    + split; [done|]. by intros (i & c & _ & ? & _).
    + rewrite andb_false_iff, IHs. split.
      * intros [Ha|(i & c & _ & Hget & Hc)].
        -- exists 0%nat, a. split; [lia|]. split; [done|].
           by apply bool_decide_eq_false_1 in Ha.
        -- exists (S i), c. split; [lia|]. by split.
      * intros (i & c & _ & Hget & Hc). destruct i as [|i].
        -- left. injection Hget as ->. by apply bool_decide_eq_false_2.
        -- right. exists i, c. split; [lia|]. by split.
  - destruct s as [|a s]; cbn.
    + split; [done|]. by intros (i & c & _ & ? & _).
    + rewrite IH. split.
      * intros (i & c & Hi & Hget & Hc). exists (S i), c.
        split; [lia|]. by split.
      * intros (i & c & Hi & Hget & Hc). destruct i as [|i]; [lia|].
        exists i, c. split; [lia|]. by split.
Qed.

Lemma get_in_range (i : nat) (s : string) (c : Ascii.ascii) :
  String.get i s = Some c -> (i < String.length s)%nat.
Proof.
  revert i. induction s as [|a s IH]; intros i; [done|].
  destruct i as [|i]; cbn; [lia|]. intros Hget. apply IH in Hget. lia.
Qed.

(** The column refuses exactly the values that are [overlong]. *)
Lemma overlong_refused (v : option string) :
  overlong v <-> Pg.varchar_null 255 v = None.
Proof.
  unfold overlong. destruct v as [s|]; cbn [Pg.varchar_null].
  - unfold Pg.varchar. split.
    + intros (s' & i & c & [= <-] & Hi & Hget & Hc).
      pose proof (get_in_range i s c Hget) as Hlen.
      rewrite (proj2 (Nat.leb_gt _ _)) by lia.
      rewrite (proj2 (all_spaces_from 255 s)); [done|].
      by exists i, c.
    + destruct (String.length s <=? 255)%nat; [done|].
      destruct (Pg.all_spaces _) eqn:Hspaces; [done|]. intros _.
      apply all_spaces_from in Hspaces as (i & c & Hi & Hget & Hc).
      by exists s, i, c.
  - split; [|done]. by intros (s & i & c & ? & _).
Qed.

(** Unfolding of the handler combinators. *)
Ltac run_handler :=
  unfold INSERT_reader_marker, convert;
  unfold route, bind, query, exec, when, reply, ret, catch, throw,
    UPDATE_reader_invitations, UPDATE_reader_sessions, UPDATE_reader_markers,
    INSERT_reader_session;
  cbn beta iota zeta delta [fst snd].

(** ** The status machine of [GET /access/:token] *)

Lemma resolveAccess_expired (env : Env) (token : string) (w : World)
    (inv : Invitation) (p : Project) :
  head (SELECT_access token w) = Some (inv, p) ->
  expires_at inv < now env ->
  resolveAccess env token w
  = (with_invitations
       (update_where (fun ri => ri_id ri = ri_id inv)
          (fun ri => update_reader_updated_at env (set_status expired ri))
          (reader_invitations w)) w,
     Expired).
Proof.
  intros Hsel Hexp. unfold resolveAccess. run_handler.
  destruct (SELECT_access token w) as [|[inv' p'] rest]; [done|].
  injection Hsel as -> ->.
  unfold is_expired. rewrite bool_decide_eq_true_2 by done. done.
Qed.

Lemma resolveAccess_revoked (env : Env) (token : string) (w : World)
    (inv : Invitation) (p : Project) :
  head (SELECT_access token w) = Some (inv, p) ->
  now env <= expires_at inv ->
  status inv = revoked ->
  resolveAccess env token w = (w, Forbidden).
Proof.
  intros Hsel Hexp Hst. unfold resolveAccess. run_handler.
  destruct (SELECT_access token w) as [|[inv' p'] rest]; [done|].
  injection Hsel as -> ->.
  unfold is_expired. rewrite bool_decide_eq_false_2 by lia.
  rewrite bool_decide_eq_true_2 by done. done.
Qed.

Lemma status_of_after_expiry (env : Env) (token : string) (w : World)
    (inv : Invitation) (p : Project) :
  head (SELECT_access token w) = Some (inv, p) ->
  head (SELECT_access token
          (with_invitations
             (update_where (fun ri => ri_id ri = ri_id inv)
                (fun ri => update_reader_updated_at env (set_status expired ri))
                (reader_invitations w)) w))
  = Some (update_reader_updated_at env (set_status expired inv), p).
Proof.
  intros Hsel. rewrite SELECT_access_update by done.
  destruct (SELECT_access token w) as [|[inv' p'] rest]; [done|].
  injection Hsel as -> ->. cbn. by rewrite decide_True.
Qed.

(** C3: when the invitation of a token has its [expires_at] in the past,
    [GET /access/:token] answers 403 with the error "Access token has
    expired" and nothing else (no invitation, no content, no session), and
    the lookup by token then reports the status [expired]; a second call
    at the same or a later time gives the same response and the same
    status. *)
Theorem expired_access_is_idempotent (env1 env2 : Env) (token : string)
    (w : World) (inv : Invitation) (p : Project) :
  head (SELECT_access token w) = Some (inv, p) ->
  expires_at inv < now env1 ->
  now env1 <= now env2 ->
  let first := resolveAccess env1 token w in
  let second := resolveAccess env2 token first.1 in
  first.2 = status_json 403 (BError "Access token has expired" None)
  /\ status_of token first.1 = Some expired
  /\ second.2 = status_json 403 (BError "Access token has expired" None)
  /\ status_of token second.1 = Some expired.
Proof.
  intros Hsel Hexp Hlater first second. subst first second.
  rewrite (resolveAccess_expired env1 token w inv p) by done.
  cbn [fst snd].
  pose proof (status_of_after_expiry env1 token w inv p Hsel) as Hsel1.
  set (w1 := with_invitations _ w) in *.
  set (inv1 := update_reader_updated_at env1 (set_status expired inv)) in *.
  assert (expires_at inv1 < now env2) as Hexp1 by (cbn; lia).
  rewrite (resolveAccess_expired env2 token w1 inv1 p) by done.
  cbn [fst snd].
  pose proof (status_of_after_expiry env2 token w1 inv1 p Hsel1) as Hsel2.
  unfold status_of. rewrite Hsel1, Hsel2. done.
Qed.

(** C2: a successful [GET /access/:token] returns, in the order of the
    project document, exactly the chapters of the project whose id is in
    [chapters_accessible], and each of them carries as [chapterNumber] its
    1-based position in the unfiltered chapter list. *)
Theorem resolveAccess_keeps_chapter_numbers (env : Env) (token : string)
    (w : World) (inv : Invitation) (p : Project) :
  head (SELECT_access token w) = Some (inv, p) ->
  now env <= expires_at inv ->
  status inv <> revoked ->
  let all := default [] (pd_chapters (project_data p)) in
  exists view content session,
    (resolveAccess env token w).2 = json (BAccess view content session)
    /\ chapter <$> content
       = filter (fun ch => ch_id ch ∈ chapters_accessible inv) all
    /\ (forall cv,
          cv ∈ content
          <-> ch_id (chapter cv) ∈ chapters_accessible inv
              /\ exists index : nat,
                   all !! index = Some (chapter cv)
                   /\ chapterNumber cv = (index + 1)%nat)
    /\ StronglySorted lt (chapterNumber <$> content).
Proof.
  intros Hsel Hexp Hst all.
  assert (exists view session,
            (resolveAccess env token w).2
            = json (BAccess view
                      (default [] (filteredChapters (project_data p)
                                     (chapters_accessible inv)))
                      session)) as (view & session & Hresp).
  { unfold resolveAccess. run_handler.
    destruct (SELECT_access token w) as [|[inv' p'] rest]; [done|].
    injection Hsel as -> ->.
    unfold is_expired. rewrite bool_decide_eq_false_2 by lia.
    rewrite (bool_decide_eq_false_2 (status inv = revoked)) by done.
    destruct (bool_decide (status inv = pending));
      cbn beta iota zeta delta [fst snd reader_sessions with_invitations];
      destruct (bool_decide (length _ = 0%nat)); cbn; eauto. }
  eexists _, _, _. split; [exact Hresp|].
  subst all. unfold filteredChapters.
  destruct (pd_chapters (project_data p)) as [chs|]; cbn [default fmap option_fmap option_map].
  - split; [apply number_chapters_chapters|].
    split; [apply number_chapters_elem|apply filtered_numbers_sorted].
  - split; [done|]. split; [|constructor].
    intros cv. split; [by intros ?%elem_of_nil|].
    intros [_ (index & Hl & _)]. by rewrite lookup_nil in Hl.
Qed.

(** ** What the routes do to the invitation table

    [preserves R] is proved combinator by combinator. *)

Lemma gen_random_uuid_fresh (keys : list uuid) : gen_random_uuid keys ∉ keys.
Proof.
  assert (forall k, k ∈ keys -> (k <= foldr N.max 0 keys)%N) as Hmax.
  { induction keys as [|k' keys IH]; intros k Hk; [by apply elem_of_nil in Hk|].
    apply elem_of_cons in Hk as [->|Hk]; cbn; [lia|].
    specialize (IH k Hk). lia. }
  intros Hin. apply Hmax in Hin. unfold gen_random_uuid in Hin. lia.
Qed.

Lemma route_fst (h : Handler Response) (on_error : string -> Response)
    (w : World) :
  (route h on_error w).1 = (h w).1.
Proof. unfold route. by destruct (h w) as [w' [r|r|e]]. Qed.

Section frame.
Context (R : relation Invitation) `{!PreOrder R}.
Context (R_id : forall r r', R r r' -> ri_id r' = ri_id r).

Lemma Forall2_R_ids (t t1 : list Invitation) :
  Forall2 R t t1 -> ri_id <$> t1 = ri_id <$> t.
Proof.
  induction 1 as [|r r' t t1 Hr _ IH]; [done|].
  rewrite !fmap_cons, IH. f_equal. by apply R_id.
Qed.

Lemma extends_refl (t : list Invitation) : extends R t t.
Proof.
  exists t, []. rewrite app_nil_r. split; [done|]. split; [reflexivity|done].
Qed.

Lemma extends_trans (t t' t'' : list Invitation) :
  extends R t t' -> extends R t' t'' -> extends R t t''.
Proof.
  intros (t1 & t2 & -> & H1 & N1) (s1 & s2 & -> & H2 & N2).
  apply Forall2_app_inv_l in H2 as (a & b & Ha & Hb & ->).
  exists a, (b ++ s2). rewrite <- app_assoc in N2 |- *. split; [done|].
  split; [|by intros ?; apply N2, N1].
  by etrans.
Qed.

Lemma extends_lookup (t t' : list Invitation) (i : nat) (r : Invitation) :
  extends R t t' -> t !! i = Some r ->
  exists r', t' !! i = Some r' /\ R r r'.
Proof.
  intros (t1 & t2 & -> & H1 & _) Hr.
  destruct (Forall2_lookup_l _ _ _ _ _ H1 Hr) as (r' & Hr' & HR).
  exists r'. split; [|done]. by apply lookup_app_l_Some.
Qed.

Lemma extends_NoDup (t t' : list Invitation) :
  extends R t t' -> NoDup (ri_id <$> t) -> NoDup (ri_id <$> t').
Proof. intros (t1 & t2 & _ & _ & N). exact N. Qed.

Lemma extends_update (P : Invitation -> Prop) `{!forall r, Decision (P r)}
    (f : Invitation -> Invitation) (t : list Invitation) :
  (forall r, P r -> R r (f r)) ->
  extends R t (update_where P f t).
Proof.
  intros Hf.
  assert (Forall2 R t (update_where P f t)) as HF.
  { unfold update_where. apply Forall2_fmap_r, Forall2_same_length_lookup_2; [done|].
    intros i r r' Hr Hr'. assert (r = r') as <- by congruence.
    unfold compose. destruct (decide (P r)); [by apply Hf|reflexivity]. }
  exists (update_where P f t), []. rewrite app_nil_r.
  split; [done|]. split; [done|].
  by rewrite (Forall2_R_ids _ _ HF).
Qed.

Lemma extends_insert (row : Invitation) (t : list Invitation) :
  ri_id row = gen_random_uuid (ri_id <$> t) ->
  extends R t (t ++ [row]).
Proof.
  intros Hid. exists t, [row]. split; [done|]. split; [reflexivity|].
  intros N. rewrite fmap_app. apply NoDup_app. split; [done|].
  split; [|apply NoDup_singleton].
  intros k Hk Hk'. cbn in Hk'. apply list_elem_of_singleton in Hk' as ->.
  rewrite Hid in Hk. by apply gen_random_uuid_fresh in Hk.
Qed.

Context {A : Type}.

Lemma preserves_ret (a : A) : preserves R (ret a).
Proof. intros w. apply extends_refl. Qed.

Lemma preserves_reply (r : Response) : preserves R (reply (A := A) r).
Proof. intros w. apply extends_refl. Qed.

Lemma preserves_throw (e : string) : preserves R (throw (A := A) e).
Proof. intros w. apply extends_refl. Qed.

Lemma preserves_query (q : World -> A) : preserves R (query q).
Proof. intros w. apply extends_refl. Qed.

Lemma preserves_convert (converted : option A) (err : string) :
  preserves R (convert converted err).
Proof. intros w. destruct converted; apply extends_refl. Qed.

Lemma preserves_bind {B} (h : Handler B) (k : B -> Handler A) :
  preserves R h -> (forall b, preserves R (k b)) -> preserves R (bind h k).
Proof.
  intros Hh Hk w. unfold bind. specialize (Hh w).
  destruct (h w) as [w' [b|r|e]]; cbn in *; [|done..].
  eapply extends_trans; [exact Hh|apply Hk].
Qed.

Lemma preserves_catch (h : Handler A) (k : string -> Handler A) :
  preserves R h -> (forall e, preserves R (k e)) -> preserves R (catch h k).
Proof.
  intros Hh Hk w. unfold catch. specialize (Hh w).
  destruct (h w) as [w' [b|r|e]]; cbn in *; [done..|].
  eapply extends_trans; [exact Hh|apply Hk].
Qed.

End frame.

Section frame_statements.
Context (R : relation Invitation) `{!PreOrder R}.
Context (R_id : forall r r', R r r' -> ri_id r' = ri_id r).

Lemma preserves_when (b : bool) (h : Handler unit) :
  preserves R h -> preserves R (when b h).
Proof. intros Hh. destruct b; [done|]. by apply preserves_ret. Qed.

Lemma preserves_UPDATE_reader_invitations (env : Env) (P : Invitation -> Prop)
    `{!forall r, Decision (P r)} (f : Invitation -> Invitation) :
  (forall r, P r -> R r (update_reader_updated_at env (f r))) ->
  preserves R (UPDATE_reader_invitations env P f).
Proof. intros Hf w. cbn. by apply extends_update. Qed.

Lemma preserves_UPDATE_reader_sessions (env : Env) (P : Session -> Prop)
    `{!forall r, Decision (P r)} (f : Session -> Session) :
  preserves R (UPDATE_reader_sessions env P f).
Proof. intros w. cbn. by apply extends_refl. Qed.

Lemma preserves_UPDATE_reader_markers (env : Env) (P : Marker -> Prop)
    `{!forall r, Decision (P r)} (f : Marker -> Marker) :
  preserves R (UPDATE_reader_markers env P f).
Proof. intros w. cbn. by apply extends_refl. Qed.

Lemma preserves_exec_markers (u : World -> list Marker) :
  preserves R (exec (fun w => with_markers (u w) w)).
Proof. intros w. cbn. by apply extends_refl. Qed.

Lemma preserves_INSERT_reader_session (env : Env) (invitationId : uuid) :
  preserves R (INSERT_reader_session env invitationId).
Proof. intros w. cbn. by apply extends_refl. Qed.

Lemma preserves_INSERT_reader_marker (env : Env) (inv : Invitation)
    (chapterId sceneId markerId : option string) (markerType : option MarkerType)
    (markerText highlightedText : option string) (positionData : string) :
  preserves R (INSERT_reader_marker env inv chapterId sceneId markerId
                 markerType markerText highlightedText positionData).
Proof.
  unfold INSERT_reader_marker.
  do 6 (apply preserves_bind; [apply _|apply preserves_convert; apply _|intros ?]).
  intros w. cbn. by apply extends_refl.
Qed.

Lemma preserves_sendReaderInvitation (env : Env) (req : EmailRequest) :
  preserves R (sendReaderInvitation env req).
Proof.
  intros w. unfold sendReaderInvitation.
  destruct (deliver env req); cbn; by apply extends_refl.
Qed.

Lemma preserves_INSERT_reader_invitation (env : Env) (projectId user : uuid)
    (accessToken : string) (chapterIds : list string)
    (message : option string) (r : Reader) (expires : timestamp)
    (circle : string) :
  preserves R (INSERT_reader_invitation env projectId user accessToken
                 chapterIds message r expires circle).
Proof.
  unfold INSERT_reader_invitation.
  do 4 (apply preserves_bind; [apply _|apply preserves_convert; apply _|intros ?]).
  intros w. destruct (bool_decide _); cbn; [by apply extends_refl|].
  by apply extends_insert.
Qed.

End frame_statements.

#[local] Instance same_invitation_preorder : PreOrder same_invitation.
Proof.
  split.
  - by intros r.
  - intros x y z (?&?&?&?&?&?) (?&?&?&?&?&?). repeat split; congruence.
Qed.

#[local] Instance keeps_revoked_preorder : PreOrder keeps_revoked.
Proof.
  split.
  - intros r. split; [reflexivity|done].
  - intros x y z [Hxy Sxy] [Hyz Syz]. split; [by etrans|tauto].
Qed.

Lemma same_invitation_id r r' : same_invitation r r' -> ri_id r' = ri_id r.
Proof. by intros (?&_). Qed.

Lemma keeps_revoked_id r r' : keeps_revoked r r' -> ri_id r' = ri_id r.
Proof. by intros [(?&_) _]. Qed.

(** Splits a goal [preserves R h] along the structure of [h]; what is left
    are the conditions on the [SET] clauses of the updates. *)
Ltac frame R_id :=
  repeat first
    [ exact R_id
    | match goal with |- PreOrder _ => apply _ end
    | progress intros
    | apply preserves_ret
    | apply preserves_reply
    | apply preserves_throw
    | apply preserves_query
    | apply preserves_convert
    | apply preserves_UPDATE_reader_sessions
    | apply preserves_UPDATE_reader_markers
    | apply preserves_exec_markers
    | apply preserves_INSERT_reader_session
    | apply preserves_INSERT_reader_marker
    | apply preserves_sendReaderInvitation
    | apply preserves_INSERT_reader_invitation
    | apply preserves_UPDATE_reader_invitations
    | apply preserves_bind
    | apply preserves_catch
    | apply preserves_when
    | match goal with
      | |- preserves _ (match ?x with _ => _ end) => destruct x
      end ].

Section routes_frame.
Context (R : relation Invitation) `{!PreOrder R}.
Context (R_id : forall r r', R r r' -> ri_id r' = ri_id r).
(** The [SET] clauses that do not touch the status. *)
Context (R_touch : forall env r, R r (update_reader_updated_at env r)).
Context (R_activity : forall env t r,
           R r (update_reader_updated_at env (set_last_activity_at t r))).
Context (R_circle : forall env n r,
           R r (update_reader_updated_at env (set_circle_name n r))).
Context (R_archived : forall env b r,
           R r (update_reader_updated_at env (set_archived b r))).
Context (R_revoke : forall env r,
           R r (update_reader_updated_at env (set_status revoked r))).

Lemma preserves_invite_readers env user projectId chapterIds message expires
    circleName project author names readers k invitations emailErrors :
  preserves R
    (invite_readers env user projectId chapterIds message expires circleName
       project author names readers k invitations emailErrors).
Proof.
  revert k invitations emailErrors.
  induction readers as [|r rest IH]; intros k invitations emailErrors; cbn.
  - by apply preserves_ret.
  - apply preserves_bind; [done| |intros; apply IH].
    frame R_id.
Qed.

Lemma preserves_author_routes (env : Env) (op : Op) (w : World) :
  (forall token, op <> ResolveAccess token) ->
  extends R (reader_invitations w) (reader_invitations (step env op w).1).
Proof.
  intros Hop. destruct op; cbn [step];
    try (by exfalso; eapply Hop);
    unfold createInvitations, importMarker, resendInvitation,
      revokeInvitation, renameCircle, archiveCircle, createMarker,
      updateMarker, deleteMarker, updateProgress, updateNotes;
    match goal with
    | |- context [route ?h ?e w] => rewrite (route_fst h e w)
    end;
    match goal with
    | |- extends R _ (reader_invitations (?h w).1) =>
        revert w; change (preserves R h)
    end.
  - (* createInvitations *)
    frame R_id. by apply preserves_invite_readers.
  - (* importMarker *) frame R_id.
  - (* resendInvitation *) frame R_id.
  - (* revokeInvitation *) frame R_id. apply R_revoke.
  - (* renameCircle *) frame R_id. apply R_circle.
  - (* archiveCircle *) frame R_id. apply R_archived.
  - (* createMarker *) frame R_id. apply R_activity.
  - (* updateMarker *) frame R_id.
  - (* deleteMarker *) frame R_id.
  - (* updateProgress *) frame R_id. apply R_activity.
  - (* updateNotes *) frame R_id. apply R_activity.
Qed.

End routes_frame.

(** Every route other than [GET /access/:token] leaves a revoked row
    revoked. *)
Lemma step_keeps_revoked (env : Env) (op : Op) (w : World) :
  (forall token, op <> ResolveAccess token) ->
  extends keeps_revoked (reader_invitations w)
    (reader_invitations (step env op w).1).
Proof.
  apply preserves_author_routes; try apply _; try exact keeps_revoked_id;
    intros; by repeat split.
Qed.

(** [GET /access/:token] keeps keys, tokens and expiration times. *)
Lemma resolveAccess_same_invitation (env : Env) (token : string) (w : World) :
  extends same_invitation (reader_invitations w)
    (reader_invitations (resolveAccess env token w).1).
Proof.
  unfold resolveAccess.
  match goal with
  | |- context [route ?h ?e w] => rewrite (route_fst h e w)
  end.
  match goal with
  | |- extends _ _ (reader_invitations (?h w).1) =>
      revert w; change (preserves same_invitation h)
  end.
  frame same_invitation_id; by repeat split.
Qed.

(** Every route keeps keys, tokens and expiration times, and so the
    primary key of the table. *)
Lemma step_same_invitation (env : Env) (op : Op) (w : World) :
  extends same_invitation (reader_invitations w)
    (reader_invitations (step env op w).1).
Proof.
  assert ((exists token, op = ResolveAccess token)
          \/ forall token, op <> ResolveAccess token) as [[token ->]|Hno]
    by (destruct op; eauto).
  - apply resolveAccess_same_invitation.
  - apply preserves_author_routes; try apply _; try exact same_invitation_id;
      try done; intros; by repeat split.
Qed.

(** ** Revoked invitations *)

Lemma SELECT_access_elem (token : string) (w : World) (inv : Invitation)
    (p : Project) :
  (inv, p) ∈ SELECT_access token w ->
  inv ∈ reader_invitations w /\ access_token inv = token.
Proof.
  unfold SELECT_access, join_projects. intros Hin.
  apply list_elem_of_bind in Hin as (ri & Hin & Hri).
  apply list_elem_of_bind in Hin as (p' & Hin & _).
  apply list_elem_of_singleton in Hin. injection Hin as -> ->.
  apply list_elem_of_filter in Hri as [Htok Hri]. done.
Qed.

Lemma SELECT_access_head (token : string) (w : World) (inv : Invitation)
    (p : Project) :
  head (SELECT_access token w) = Some (inv, p) ->
  inv ∈ reader_invitations w /\ access_token inv = token.
Proof.
  intros Hhead. apply SELECT_access_elem with p.
  destruct (SELECT_access token w) as [|row rest]; [done|].
  injection Hhead as ->. by left.
Qed.

(** [id UUID PRIMARY KEY]: two rows with one key are one row. *)
Lemma primary_key_unique (t : list Invitation) (i : nat) (r r' : Invitation) :
  NoDup (ri_id <$> t) ->
  t !! i = Some r -> r' ∈ t -> ri_id r' = ri_id r -> r' = r.
Proof.
  intros Hkey Hr Hr' Hid.
  apply list_elem_of_lookup in Hr' as [j Hj].
  assert (j = i) as ->; [|congruence].
  apply (NoDup_lookup (ri_id <$> t) j i (ri_id r)); [done|..].
  - by rewrite list_lookup_fmap, Hj, <- Hid.
  - by rewrite list_lookup_fmap, Hr.
Qed.

(** What [GET /access/:token] does to a revoked row. *)
Lemma resolveAccess_revoked_row (env : Env) (token : string) (w : World)
    (i : nat) (r : Invitation) :
  NoDup (ri_id <$> reader_invitations w) ->
  reader_invitations w !! i = Some r ->
  status r = revoked ->
  exists r',
    reader_invitations (resolveAccess env token w).1 !! i = Some r'
    /\ same_invitation r r'
    /\ (status r' = revoked
        \/ (status r' = expired
            /\ expires_at r < now env
            /\ exists p, head (SELECT_access token w) = Some (r, p))).
Proof.
  intros Hkey Hr Hst. unfold resolveAccess. run_handler.
  destruct (SELECT_access token w) as [|[inv p] rest] eqn:Hsel.
  { exists r. by repeat split; auto. }
  assert (inv ∈ reader_invitations w) as Hinv
    by (eapply SELECT_access_head; by rewrite Hsel).
  assert (ri_id r = ri_id inv -> inv = r) as Hsame
    by (intros ?; by eapply primary_key_unique).
  unfold is_expired. case_bool_decide as Hexp.
  - (* past the expiration time *)
    cbn [fst reader_invitations with_invitations].
    rewrite update_where_lookup, Hr. cbn [fmap option_fmap option_map].
    destruct (decide (ri_id r = ri_id inv)) as [Hid|Hid].
    + eexists. split; [done|]. split; [by repeat split|].
      right. apply Hsame in Hid as ->. eauto.
    + exists r. by repeat split; auto.
  - (* not expired *)
    case_bool_decide as Hrev.
    { exists r. by repeat split; auto. }
    assert (ri_id r <> ri_id inv) as Hid by (intros ->%Hsame; done).
    case_bool_decide as Hpend;
      cbn beta iota zeta delta [fst snd reader_sessions with_invitations];
      case_bool_decide;
      cbn [fst reader_invitations with_invitations with_sessions];
      rewrite ?update_where_lookup, Hr; cbn [fmap option_fmap option_map];
      rewrite ?decide_False by done;
      exists r; by repeat split; auto.
Qed.

(** C1 (as amended): an invitation whose status is [revoked] keeps that
    status under every sequence of requests in which [GET /access/:token]
    is not called with its token after its [expires_at]; such a call on a
    revoked invitation that has not expired answers 403 "Access has been
    revoked" and leaves the store as it is, and on one that has expired it
    answers 403 "Access token has expired" and stores the status
    [expired]. *)
Theorem revoked_is_terminal_until_expired_access (w : World) (i : nat)
    (r : Invitation) :
  NoDup (ri_id <$> reader_invitations w) ->
  reader_invitations w !! i = Some r ->
  status r = revoked ->
  (forall requests,
     Forall (fun request =>
               request.2 = ResolveAccess (access_token r) ->
               now request.1 <= expires_at r) requests ->
     exists r',
       reader_invitations (run requests w) !! i = Some r'
       /\ ri_id r' = ri_id r
       /\ status r' = revoked)
  /\ (forall env p,
        head (SELECT_access (access_token r) w) = Some (r, p) ->
        now env <= expires_at r ->
        resolveAccess env (access_token r) w
        = (w, status_json 403 (BError "Access has been revoked" None)))
  /\ (forall env p,
        head (SELECT_access (access_token r) w) = Some (r, p) ->
        expires_at r < now env ->
        (resolveAccess env (access_token r) w).2
        = status_json 403 (BError "Access token has expired" None)
        /\ status_of (access_token r)
             (resolveAccess env (access_token r) w).1 = Some expired).
Proof.
  intros Hkey Hr Hst. split; [|split].
  - intros requests. revert w r Hkey Hr Hst.
    induction requests as [|[env op] requests IH]; intros w r Hkey Hr Hst Hok.
    { exists r. done. }
    apply Forall_cons in Hok as [Hop Hok]. cbn [fst snd] in Hop.
    assert (exists r1,
              reader_invitations (step env op w).1 !! i = Some r1
              /\ same_invitation r r1 /\ status r1 = revoked)
      as (r1 & Hr1 & Hsame & Hst1).
    { assert ((exists token, op = ResolveAccess token)
              \/ forall token, op <> ResolveAccess token)
        as [[token ->]|Hno] by (destruct op; eauto).
      - destruct (resolveAccess_revoked_row env token w i r Hkey Hr Hst)
          as (r1 & Hr1 & Hsame & [Hst1|(_ & Hexp & p & Hsel)]); [by eauto|].
        apply SELECT_access_head in Hsel as [_ <-].
        specialize (Hop eq_refl). lia.
      - destruct (extends_lookup _ _ _ i r (step_keeps_revoked env op w Hno) Hr)
          as (r1 & Hr1 & Hsame & Hst1). eauto. }
    destruct Hsame as (Hid & Htok & _ & _ & _ & Hexp).
    destruct (IH (step env op w).1 r1) as (r' & Hr' & Hid' & Hst'); [|done..| |].
    + eapply extends_NoDup; [apply step_same_invitation|done].
    + rewrite Htok, Hexp. done.
    + exists r'. cbn [run foldl] in *. split; [done|]. split; [congruence|done].
  - intros env p Hsel Hexp. by eapply resolveAccess_revoked.
  - intros env p Hsel Hexp.
    rewrite (resolveAccess_expired env _ w r p) by done. cbn [fst snd].
    split; [done|]. unfold status_of.
    by rewrite (status_of_after_expiry env _ w r p).
Qed.

(** ** Creating invitations *)

Section create_invitations.
Context (env : Env) (user projectId : uuid) (chapterIds : list string)
  (message : option string) (expires : timestamp) (circleName : option string)
  (project : Project) (author : option string) (names : list string).

Local Abbreviation new_rows :=
  (new_rows env user projectId chapterIds message expires circleName).
Local Abbreviation mail_attempts :=
  (mail_attempts env message expires project author names).
Local Abbreviation fresh_tokens := (fresh_tokens env).

Lemma INSERT_reader_invitation_fits (accessToken : string) (r : Reader)
    (circle : string) (w : World) :
  fits accessToken -> reader_fits r -> fits circle ->
  INSERT_reader_invitation env projectId user accessToken chapterIds message
    r expires circle w
  = if bool_decide (accessToken ∈ access_token <$> reader_invitations w)
    then (w, Thrown (Pg.unique_violation "reader_invitations_access_token_key"))
    else
      let row :=
        new_invitation_row env projectId user accessToken chapterIds message
          r expires circle (reader_invitations w) in
      (with_invitations (reader_invitations w ++ [row]) w,
       Value (returning_columns row)).
Proof.
  intros Htoken [Hname Hemail] Hcircle. unfold INSERT_reader_invitation.
  rewrite !varchar_fits, !varchar_null_fits by done.
  unfold bind, convert, ret. by destruct r.
Qed.

Lemma fresh_tokens_next (r : Invitation) (k n : nat) (w : World)
    (log : list (EmailRequest * option string)) :
  access_token r = randomBytes env k ->
  fresh_tokens k (S n) w ->
  fresh_tokens (S k) n
    (with_mail_log log (with_invitations (reader_invitations w ++ [r]) w)).
Proof.
  intros Htok (Hnd & Hall & Hfit). cbn [seq fmap list_fmap] in Hnd, Hall, Hfit.
  apply NoDup_cons in Hnd as [Hk Hnd]. apply Forall_cons in Hall as [_ Hall].
  apply Forall_cons in Hfit as [_ Hfit].
  split; [done|]. split; [|done].
  cbn [reader_invitations with_mail_log with_invitations].
  rewrite Forall_forall in Hall |- *. intros t Ht.
  rewrite fmap_app, elem_of_app. intros [Hin|Hin]; [by apply (Hall t)|].
  cbn in Hin. apply list_elem_of_singleton in Hin. congruence.
Qed.

Lemma invite_readers_fresh (readers : list Reader) (k : nat)
    (invitations : list CreatedInvitation) (emailErrors : list EmailError)
    (w : World) :
  fits (circle_or_default env circleName) ->
  Forall reader_fits readers ->
  fresh_tokens k (length readers) w ->
  invite_readers env user projectId chapterIds message expires circleName
    project author names readers k invitations emailErrors w
  = (with_mail_log (mail_log w ++ mail_attempts readers k)
       (with_invitations
          (reader_invitations w ++ new_rows readers k (reader_invitations w)) w),
     Value (invitations
              ++ (returning_columns <$> new_rows readers k (reader_invitations w)),
            emailErrors ++ email_errors (mail_attempts readers k))).
Proof.
  intros Hcircle Hreaders. revert k invitations emailErrors w.
  induction Hreaders as [|r rest Hr Hrest IH];
    intros k invitations emailErrors w Hfresh.
  { cbn. rewrite !app_nil_r. by destruct w. }
  cbn [invite_readers new_rows mail_attempts length].
  set (row := new_invitation_row _ _ _ _ _ _ _ _ _ _).
  set (req := invitation_email _ _ _ _ _ _ _).
  pose proof (fresh_tokens_next row k (length rest) w
                (mail_log w ++ [(req, deliver env req)]) eq_refl Hfresh) as Hnext.
  destruct Hfresh as (_ & Hall & Hfit).
  cbn [length seq fmap list_fmap] in Hall, Hfit.
  apply Forall_cons in Hall as [Hk _]. apply Forall_cons in Hfit as [Hfitk _].
  unfold bind at 1, catch at 1, bind at 1.
  rewrite INSERT_reader_invitation_fits by done.
  rewrite bool_decide_eq_false_2 by done. cbn zeta. fold row.
  unfold bind, catch, sendReaderInvitation, ret, throw. fold req.
  cbn [reader_invitations mail_log with_invitations with_mail_log].
  destruct (deliver env req) as [e|] eqn:Hdel; cbn [fst snd];
    rewrite IH by exact Hnext;
    cbn [reader_invitations mail_log with_invitations with_mail_log
           users projects reader_sessions reader_markers];
    unfold email_errors; cbn [omap list_omap fmap list_fmap fst snd];
    rewrite ?Hdel; cbn [option_fmap option_map fmap];
    rewrite <- !app_assoc; done.
Qed.

Lemma new_rows_readers (readers : list Reader) (k : nat)
    (table : list Invitation) :
  Forall2 (fun row r =>
             reader_name row = name r /\ reader_email row = email r
             /\ project_id row = projectId /\ user_id row = user
             /\ chapters_accessible row = chapterIds
             /\ status row = pending /\ expires_at row = expires
             /\ circle_name row
                = Js.or_else circleName
                    ("Draft Review - " +:+ toLocaleDateString env (now env))
             /\ invitation_message row = message
             /\ accepted_at row = None /\ last_activity_at row = None
             /\ archived row = false)
    (new_rows readers k table) readers.
Proof.
  revert k table. induction readers as [|r rest IH]; intros k table; cbn.
  - constructor.
  - constructor; [done|apply IH].
Qed.

Lemma mail_attempts_readers (readers : list Reader) (k : nat)
    (table : list Invitation) :
  Forall3 (fun a row r =>
             reader_email row = email r
             /\ readerEmail a.1 = email r
             /\ accessToken a.1 = access_token row
             /\ a.2 = deliver env a.1)
    (mail_attempts readers k) (new_rows readers k table) readers.
Proof.
  revert k table. induction readers as [|r rest IH]; intros k table; cbn.
  - constructor.
  - constructor; [done|apply IH].
Qed.

End create_invitations.

(** The request that passes the ownership check and the quota check, with
    fresh tokens: one row per reader, one delivery attempt per reader, and
    the 201 response. *)
Lemma createInvitations_created (env : Env) (user projectId : uuid)
    (chapterIds : list string) (message : option string)
    (readers : list Reader) (expires : timestamp) (circleName : option string)
    (w : World) (project : Project) (u : User) :
  SELECT_project_check user projectId w <> [] ->
  (SELECT_active_count env projectId w + length readers <= 15)%nat ->
  head (SELECT_project_details projectId w) = Some (project, u) ->
  fresh_tokens env 0 (length readers) w ->
  Forall reader_fits readers ->
  fits (circle_or_default env circleName) ->
  let rows :=
    new_rows env user projectId chapterIds message expires circleName readers 0
      (reader_invitations w) in
  let attempts :=
    mail_attempts env message expires project (author_name u)
      (chapter_names (default [] (pd_chapters (project_data project))) chapterIds)
      readers 0 in
  createInvitations env user projectId chapterIds message readers expires
    circleName w
  = (with_mail_log (mail_log w ++ attempts)
       (with_invitations (reader_invitations w ++ rows) w),
     status_json 201
       (BCreated (returning_columns <$> rows)
          (if (0 <? length (email_errors attempts))%nat
           then Some (email_errors attempts) else None)
          (created_message (length (returning_columns <$> rows))
             (length (email_errors attempts))))).
Proof.
  intros Hown Hquota Hdetails Hfresh Hreaders Hcircle rows attempts.
  unfold createInvitations, route, bind at 1, query at 1.
  destruct (SELECT_project_check user projectId w) as [|p0 ps]; [done|].
  unfold bind at 1, when at 1. cbn [length bool_decide decide_rel].
  rewrite bool_decide_eq_false_2 by done.
  unfold ret at 1, bind at 1, query at 1.
  unfold bind at 1, when at 1.
  rewrite (proj2 (Nat.ltb_ge _ _)) by lia.
  unfold ret at 1, bind at 1, query at 1.
  destruct (SELECT_project_details projectId w) as [|[project' u'] rest]; [done|].
  injection Hdetails as -> ->.
  unfold bind at 1. rewrite invite_readers_fresh by done.
  fold rows attempts. unfold ret. cbn [fst snd app]. done.
Qed.

(** The request that passes the ownership check and fails the quota
    check. *)
Lemma createInvitations_rejected (env : Env) (user projectId : uuid)
    (chapterIds : list string) (message : option string)
    (readers : list Reader) (expires : timestamp) (circleName : option string)
    (w : World) :
  SELECT_project_check user projectId w <> [] ->
  (15 < SELECT_active_count env projectId w + length readers)%nat ->
  createInvitations env user projectId chapterIds message readers expires
    circleName w
  = (w, status_json 400
          (BError ("Maximum 15 active readers per project. Currently: "
                   +:+ Js.number (SELECT_active_count env projectId w)) None)).
Proof.
  intros Hown Hover.
  unfold createInvitations, route, bind at 1, query at 1.
  destruct (SELECT_project_check user projectId w) as [|p0 ps]; [done|].
  unfold bind at 1, when at 1. cbn [length bool_decide decide_rel].
  rewrite bool_decide_eq_false_2 by done.
  unfold ret at 1, bind at 1, query at 1.
  unfold bind at 1, when at 1.
  rewrite (proj2 (Nat.ltb_lt _ _)) by lia. done.
Qed.

Lemma SELECT_project_check_owned (user projectId : uuid) (w : World) :
  (exists p, p ∈ projects w /\ p_project_id p = projectId /\ p_user_id p = user) ->
  SELECT_project_check user projectId w <> [].
Proof.
  intros (p & Hin & Hid & Howner) Hnone.
  assert (p ∈ SELECT_project_check user projectId w) as Hp
    by (by apply list_elem_of_filter).
  rewrite Hnone in Hp. by apply elem_of_nil in Hp.
Qed.

Lemma SELECT_project_details_found (user projectId : uuid) (w : World) :
  (exists p, p ∈ projects w /\ p_project_id p = projectId /\ p_user_id p = user) ->
  (exists u, u ∈ users w /\ u_user_id u = user) ->
  SELECT_project_details projectId w <> [].
Proof.
  intros (p & Hin & Hid & Howner) (u & Hu & Huid) Hnone.
  assert ((p, u) ∈ SELECT_project_details projectId w) as Hpu.
  { unfold SELECT_project_details, join_users.
    apply list_elem_of_bind. exists p. split; [|by apply list_elem_of_filter].
    apply list_elem_of_bind. exists u. split; [by left|].
    apply list_elem_of_filter. split; [congruence|done]. }
  rewrite Hnone in Hpu. by apply elem_of_nil in Hpu.
Qed.

(** C4: for a project of the caller, [POST /invitations] with [N] readers
    answers 400 "Maximum 15 active readers per project" and leaves the
    store as it is when the number of the project's invitations that are
    pending or accepted and not yet expired, plus [N], exceeds 15; and
    when that sum is at most 15 it answers 201 and appends one invitation
    row per reader, in order, each a pending invitation of that reader
    for the requested chapters, provided that every insert goes through:
    the caller has a row in [users], the tokens drawn are new, and the
    names, the addresses and the circle name fit their columns. *)
Theorem createInvitations_quota (env : Env) (user projectId : uuid)
    (chapterIds : list string) (message : option string)
    (readers : list Reader) (expires : timestamp) (circleName : option string)
    (w : World) :
  (exists p, p ∈ projects w /\ p_project_id p = projectId /\ p_user_id p = user) ->
  let active :=
    length (filter (fun ri => project_id ri = projectId
                              /\ (status ri = pending \/ status ri = accepted)
                              /\ now env < expires_at ri)
              (reader_invitations w)) in
  let result :=
    createInvitations env user projectId chapterIds message readers expires
      circleName w in
  ((15 < active + length readers)%nat ->
   result.1 = w
   /\ result.2
      = status_json 400
          (BError ("Maximum 15 active readers per project. Currently: "
                   +:+ pretty active) None))
  /\ ((active + length readers <= 15)%nat ->
      (exists u, u ∈ users w /\ u_user_id u = user) ->
      fresh_tokens env 0 (length readers) w ->
      Forall reader_fits readers ->
      fits (Js.or_else circleName
              ("Draft Review - " +:+ toLocaleDateString env (now env))) ->
      code result.2 = 201%nat
      /\ exists rows,
           reader_invitations result.1 = reader_invitations w ++ rows
           /\ Forall2 (fun row r =>
                         reader_name row = name r /\ reader_email row = email r
                         /\ project_id row = projectId /\ user_id row = user
                         /\ chapters_accessible row = chapterIds
                         /\ status row = pending /\ expires_at row = expires
                         /\ circle_name row
                            = Js.or_else circleName
                                ("Draft Review - "
                                 +:+ toLocaleDateString env (now env))
                         /\ invitation_message row = message
                         /\ accepted_at row = None
                         /\ last_activity_at row = None
                         /\ archived row = false)
                rows readers).
Proof.
  intros Howner active result.
  pose proof (SELECT_project_check_owned user projectId w Howner) as Hown.
  split.
  - intros Hover. subst result active.
    by rewrite createInvitations_rejected.
  - intros Hquota Huser Hfresh Hreaders Hcircle. subst result active.
    pose proof (SELECT_project_details_found user projectId w Howner Huser)
      as Hdetails.
    destruct (SELECT_project_details projectId w) as [|[project u] rest] eqn:Hsel;
      [done|].
    rewrite (createInvitations_created env user projectId chapterIds message
               readers expires circleName w project u)
      by (rewrite ?Hsel; done).
    cbn [fst snd code status_json reader_invitations with_mail_log with_invitations].
    split; [done|]. eexists. split; [done|]. apply new_rows_readers.
Qed.

(** C9: in a [POST /invitations] that passes the ownership and quota
    checks (the project is the caller's, and its invitations that are
    pending or accepted and not yet expired, plus the readers, are at most
    15) and whose inserts go through (the caller has a row in [users];
    new tokens; names, addresses and circle name that fit their columns),
    every reader gets an invitation row and one delivery attempt with the
    token of that row, whatever the outcome of any attempt; the response
    is the 201 response, whose [emailErrors] lists, in order and with the
    reader's address, the errors of the attempts that failed. *)
Theorem email_failure_does_not_undo_invitations (env : Env)
    (user projectId : uuid) (chapterIds : list string)
    (message : option string) (readers : list Reader) (expires : timestamp)
    (circleName : option string) (w : World) :
  (exists p, p ∈ projects w /\ p_project_id p = projectId /\ p_user_id p = user) ->
  (exists u, u ∈ users w /\ u_user_id u = user) ->
  (length (filter (fun ri => project_id ri = projectId
                             /\ (status ri = pending \/ status ri = accepted)
                             /\ (now env < expires_at ri)%Z)
             (reader_invitations w))
   + length readers <= 15)%nat ->
  fresh_tokens env 0 (length readers) w ->
  Forall reader_fits readers ->
  fits (Js.or_else circleName
          ("Draft Review - " +:+ toLocaleDateString env (now env))) ->
  let result :=
    createInvitations env user projectId chapterIds message readers expires
      circleName w in
  exists rows attempts,
    reader_invitations result.1 = reader_invitations w ++ rows
    /\ mail_log result.1 = mail_log w ++ attempts
    /\ Forall3 (fun a row r =>
                  reader_email row = email r
                  /\ readerEmail a.1 = email r
                  /\ accessToken a.1 = access_token row
                  /\ a.2 = deliver env a.1)
         attempts rows readers
    /\ result.2
       = status_json 201
           (BCreated (returning_columns <$> rows)
              (if (0 <? length (email_errors attempts))%nat
               then Some (email_errors attempts) else None)
              (created_message (length rows) (length (email_errors attempts)))).
Proof.
  intros Howner Huser Hquota Hfresh Hreaders Hcircle result. subst result.
  pose proof (SELECT_project_check_owned user projectId w Howner) as Hown.
  pose proof (SELECT_project_details_found user projectId w Howner Huser)
    as Hdetails.
  destruct (SELECT_project_details projectId w) as [|[project u] rest] eqn:Hsel;
    [done|].
  rewrite (createInvitations_created env user projectId chapterIds message
             readers expires circleName w project u)
    by (rewrite ?Hsel; done).
  cbn [fst snd reader_invitations mail_log with_mail_log with_invitations].
  eexists _, _. split; [done|]. split; [done|].
  split; [apply mail_attempts_readers|]. by rewrite length_fmap.
Qed.

(** ** Circles *)

Lemma with_invitations_same (w : World) :
  with_invitations (reader_invitations w) w = w.
Proof. by destruct w. Qed.

Lemma in_circle_spec (w : World) (user projectId : uuid)
    (chaptersAccessible : list string) (ri : Invitation) :
  in_circle w user projectId chaptersAccessible ri
  <-> project_id ri = projectId
      /\ user_id ri = user
      /\ (exists p, p ∈ projects w
                    /\ p_project_id p = projectId /\ p_user_id p = user)
      /\ chapters_accessible ri = chaptersAccessible.
Proof.
  unfold in_circle, jsonb_eq. rewrite Exists_exists. split.
  - intros (Hp & Hu & (p & Hin & Hpp & Hpu) & Hc).
    repeat split; try done. exists p. repeat split; congruence.
  - intros (Hp & Hu & (p & Hin & Hpp & Hpu) & Hc).
    repeat split; try done. exists p. repeat split; congruence.
Qed.

(** The batch update shared by the two circle routes. *)
Lemma circle_update (env : Env) (user projectId : uuid)
    (chaptersAccessible : list string) (f : Invitation -> Invitation)
    (ok : nat -> Response) (missing failed : Response) (w : World) :
  let hit := in_circle w user projectId chaptersAccessible in
  let g := fun ri => update_reader_updated_at env (f ri) in
  route
    (let! w0 := query (fun w => w) in
     let! result :=
       UPDATE_reader_invitations env
         (in_circle w0 user projectId chaptersAccessible) f in
     do! when (bool_decide (length result = 0%nat)) (reply missing) in
     ret (ok (length result)))
    (fun _ => failed) w
  = (with_invitations (update_where hit g (reader_invitations w)) w,
     if bool_decide (length (filter hit (reader_invitations w)) = 0%nat)
     then missing
     else ok (length (filter hit (reader_invitations w)))).
Proof.
  intros hit g. run_handler. unfold returning. rewrite length_fmap.
  fold hit. by case_bool_decide.
Qed.

Lemma renameCircle_run (env : Env) (user projectId : uuid)
    (chaptersAccessible : list string) (circleName : option string) (w : World) :
  let hit := in_circle w user projectId chaptersAccessible in
  let n := length (filter hit (reader_invitations w)) in
  let missing :=
    status_json 404 (BError "Circle not found or unauthorized" None) in
  let failed := status_json 500 (BError "Failed to update circle name" None) in
  renameCircle env user projectId chaptersAccessible circleName w
  = match Pg.varchar_null 255 circleName with
    | Some (Some stored) =>
        (with_invitations
           (update_where hit
              (fun ri => update_reader_updated_at env (set_circle_name stored ri))
              (reader_invitations w)) w,
         if bool_decide (n = 0%nat) then missing
         else json (BMessage "Circle name updated successfully" (Some n)))
    | Some None => (w, if bool_decide (n = 0%nat) then missing else failed)
    | None => (w, failed)
    end.
Proof.
  intros hit n missing failed. unfold renameCircle.
  destruct circleName as [name|]; cbn [Pg.varchar_null].
  - destruct (Pg.varchar 255 name) as [stored|];
      cbn [fmap option_fmap option_map]; run_handler; [|done].
    unfold returning. rewrite length_fmap. fold hit n. by case_bool_decide.
  - run_handler. fold hit. subst n.
    by destruct (filter hit (reader_invitations w)).
Qed.

(** C5 (as amended): [PATCH /circles/:projectId/name] and
    [PATCH /circles/:projectId/archive] rewrite exactly the invitations of
    the given project and owner whose [chapters_accessible] is the supplied
    array, element by element and in the same order, and leave every other
    row as it is; a rewritten row gets the new circle name, or the new
    archive flag, and the [updated_at] of the trigger, and keeps its other
    columns. The routes answer 404 "Circle not found or unauthorized", with
    the table unchanged, exactly when no row matches, and otherwise 200
    with the number of rows rewritten. For the name this holds when it is
    given and has at most 255 characters, the size of the column; a name
    that the column refuses (characters other than spaces past the 255th,
    or no name at all while a row matches) is answered 500 and nothing is
    changed. *)
Theorem circle_routes_match_the_exact_array (env : Env) (user projectId : uuid)
    (chaptersAccessible : list string) (circleName : option string)
    (flag : bool) (w : World) :
  let hit := fun ri =>
    project_id ri = projectId /\ user_id ri = user
    /\ (exists p, p ∈ projects w
                  /\ p_project_id p = projectId /\ p_user_id p = user)
    /\ chapters_accessible ri = chaptersAccessible in
  let renamed := renameCircle env user projectId chaptersAccessible circleName w in
  let archived_ := archiveCircle env user projectId chaptersAccessible flag w in
  let n := length (filter (in_circle w user projectId chaptersAccessible)
                     (reader_invitations w)) in
  let missing :=
    status_json 404 (BError "Circle not found or unauthorized" None) in
  (forall ri, in_circle w user projectId chaptersAccessible ri <-> hit ri)
  /\ (forall i ri,
        reader_invitations w !! i = Some ri ->
        (hit ri ->
         (forall name,
            circleName = Some name -> fits name ->
            reader_invitations renamed.1 !! i
            = Some {| ri_id := ri_id ri; project_id := project_id ri;
                      user_id := user_id ri; access_token := access_token ri;
                      chapters_accessible := chapters_accessible ri;
                      invitation_message := invitation_message ri;
                      reader_name := reader_name ri;
                      reader_email := reader_email ri; status := status ri;
                      accepted_at := accepted_at ri; expires_at := expires_at ri;
                      created_at := created_at ri; updated_at := now env;
                      last_activity_at := last_activity_at ri;
                      circle_name := name; archived := archived ri;
                      sort_order := sort_order ri |})
         /\ reader_invitations archived_.1 !! i
            = Some {| ri_id := ri_id ri; project_id := project_id ri;
                      user_id := user_id ri; access_token := access_token ri;
                      chapters_accessible := chapters_accessible ri;
                      invitation_message := invitation_message ri;
                      reader_name := reader_name ri;
                      reader_email := reader_email ri; status := status ri;
                      accepted_at := accepted_at ri; expires_at := expires_at ri;
                      created_at := created_at ri; updated_at := now env;
                      last_activity_at := last_activity_at ri;
                      circle_name := circle_name ri; archived := flag;
                      sort_order := sort_order ri |})
        /\ (~ hit ri ->
            reader_invitations renamed.1 !! i = Some ri
            /\ reader_invitations archived_.1 !! i = Some ri))
  /\ length (reader_invitations renamed.1) = length (reader_invitations w)
  /\ length (reader_invitations archived_.1) = length (reader_invitations w)
  /\ (n = 0%nat ->
      (fits_null circleName -> renamed = (w, missing))
      /\ archived_ = (w, missing))
  /\ (n <> 0%nat ->
      (forall name,
         circleName = Some name -> fits name ->
         renamed.2
         = status_json 200 (BMessage "Circle name updated successfully" (Some n)))
      /\ archived_.2
         = status_json 200
             (BMessage ("Circle " +:+ (if flag then "archived" else "restored")
                        +:+ " successfully") (Some n)))
  /\ (overlong circleName \/ (circleName = None /\ n <> 0%nat) ->
      renamed
      = (w, status_json 500 (BError "Failed to update circle name" None))).
Proof.
  intros hit renamed archived_ n missing.
  assert (forall ri, in_circle w user projectId chaptersAccessible ri <-> hit ri)
    as Hspec by (intros ri; apply in_circle_spec).
  pose proof (renameCircle_run env user projectId chaptersAccessible circleName w)
    as Hren. cbv zeta in Hren. fold renamed n missing in Hren.
  assert (archived_
          = (with_invitations
               (update_where (in_circle w user projectId chaptersAccessible)
                  (fun ri => update_reader_updated_at env (set_archived flag ri))
                  (reader_invitations w)) w,
             if bool_decide (n = 0%nat)
             then missing
             else json (BMessage ("Circle " +:+ (if flag then "archived" else "restored")
                                  +:+ " successfully") (Some n))))
    as Harc.
  { subst archived_ n. unfold archiveCircle.
    exact (circle_update env user projectId chaptersAccessible
             (set_archived flag)
             (fun k => json (BMessage ("Circle " +:+ (if flag then "archived" else "restored")
                                       +:+ " successfully") (Some k)))
             _ _ w). }
  assert (n = 0%nat ->
          forall f, update_where (in_circle w user projectId chaptersAccessible) f
                      (reader_invitations w) = reader_invitations w) as Hnone.
  { intros Hn f. apply update_where_none.
    apply (returning_length_zero _ id). unfold returning.
    by rewrite length_fmap. }
  assert (forall name, fits name ->
            Pg.varchar_null 255 (Some name) = Some (Some name)) as Hfit.
  { intros name Hname. by apply (varchar_null_fits (Some name)). }
  clearbody renamed archived_. subst archived_.
  cbn [fst snd reader_invitations with_invitations].
  split; [done|]. split; [|split; [|split; [|split; [|split]]]].
  - intros i ri Hri. split; intros Hhit.
    + split.
      * intros name -> Hfits. rewrite Hren, Hfit by done.
        cbn [fst reader_invitations with_invitations].
        rewrite update_where_lookup, Hri. cbn [fmap option_fmap option_map].
        by rewrite decide_True by (by apply Hspec).
      * rewrite update_where_lookup, Hri. cbn [fmap option_fmap option_map].
        by rewrite decide_True by (by apply Hspec).
    + split.
      * rewrite Hren. destruct (Pg.varchar_null 255 circleName) as [[stored|]|];
          [|done..].
        cbn [fst reader_invitations with_invitations].
        rewrite update_where_lookup, Hri. cbn [fmap option_fmap option_map].
        by rewrite decide_False by (by rewrite Hspec).
      * rewrite update_where_lookup, Hri. cbn [fmap option_fmap option_map].
        by rewrite decide_False by (by rewrite Hspec).
  - rewrite Hren. destruct (Pg.varchar_null 255 circleName) as [[stored|]|];
      [|done..].
    apply update_where_length.
  - apply update_where_length.
  - intros Hn. split.
    + intros Hfits. rewrite Hren, varchar_null_fits by done.
      rewrite bool_decide_eq_true_2 by done.
      destruct circleName; [|done].
      by rewrite Hnone, with_invitations_same by done.
    + rewrite bool_decide_eq_true_2 by done.
      by rewrite Hnone, with_invitations_same by done.
  - intros Hn. split.
    + intros name -> Hfits. rewrite Hren, Hfit by done.
      by rewrite bool_decide_eq_false_2 by done.
    + by rewrite bool_decide_eq_false_2 by done.
  - intros [Hlong%overlong_refused|[-> Hn]]; rewrite Hren.
    + by rewrite Hlong.
    + cbn. by rewrite bool_decide_eq_false_2 by done.
Qed.

(** ** Markers *)

(** C6 (as amended): [POST /markers] looks only at the status and the
    expiration time of the token's invitation: it answers 403 "Access
    expired or revoked" and stores nothing when the invitation is revoked
    or past its [expires_at], and otherwise it stores and returns a marker
    of that invitation with the [chapterId], [sceneId] and [markerId] of
    the request, whatever they are, as long as each is given and has at
    most 255 characters, the size of its [VARCHAR(255) NOT NULL] column;
    no comparison with [chapters_accessible] is made. An identifier that
    its column refuses (characters other than spaces past the 255th, or
    no identifier at all) is answered 500 and nothing is stored. *)
Theorem createMarker_checks_status_and_expiry_only (env : Env)
    (token : string) (chapterId sceneId markerId : option string)
    (markerType : option MarkerType)
    (markerText highlightedText : option string) (positionData : string)
    (w : World) (inv : Invitation) :
  head (SELECT_invitation token w) = Some inv ->
  let result :=
    createMarker env token chapterId sceneId markerId markerType markerText
      highlightedText positionData w in
  (status inv = revoked \/ expires_at inv < now env ->
   result = (w, status_json 403 (BError "Access expired or revoked" None)))
  /\ (status inv <> revoked -> now env <= expires_at inv ->
      forall chapter scene marker,
        chapterId = Some chapter -> sceneId = Some scene ->
        markerId = Some marker ->
        fits chapter -> fits scene -> fits marker ->
        exists m,
          result.2 = status_json 201 (BMarker (Some m))
          /\ reader_markers result.1 = reader_markers w ++ [m]
          /\ rm_invitation_id m = ri_id inv
          /\ rm_project_id m = project_id inv
          /\ chapter_id m = chapter
          /\ scene_id m = scene
          /\ marker_id m = marker
          /\ marker_type m = markerType
          /\ marker_text m = markerText
          /\ highlighted_text m = highlightedText
          /\ position_data m = positionData
          /\ imported_to_project m = false)
  /\ (status inv <> revoked -> now env <= expires_at inv ->
      chapterId = None \/ sceneId = None \/ markerId = None
      \/ overlong chapterId \/ overlong sceneId \/ overlong markerId ->
      result = (w, status_json 500 (BError "Failed to create marker" None))).
Proof.
  intros Hsel result. subst result. unfold createMarker. run_handler.
  destruct (SELECT_invitation token w) as [|inv' rest]; [done|].
  injection Hsel as ->. unfold is_expired. split; [|split].
  - intros [Hrev|Hexp].
    + by rewrite bool_decide_eq_true_2 by done.
    + rewrite (bool_decide_eq_true_2 (expires_at inv < now env)) by done.
      by rewrite orb_true_r.
  - intros Hrev Hexp chapter scene marker -> -> -> Hchapter Hscene Hmarker.
    rewrite bool_decide_eq_false_2 by done.
    rewrite bool_decide_eq_false_2 by lia.
    cbn [Pg.varchar_null]. rewrite !varchar_fits by done.
    cbn. eexists. repeat split; reflexivity.
  - intros Hrev Hexp Hbad. rewrite !overlong_refused in Hbad.
    rewrite bool_decide_eq_false_2 by done.
    rewrite bool_decide_eq_false_2 by lia. cbn [orb].
    destruct (Pg.varchar_null 255 chapterId) as [c|] eqn:Hc; [|done].
    destruct (Pg.varchar_null 255 sceneId) as [sc|] eqn:Hs; [|done].
    destruct (Pg.varchar_null 255 markerId) as [m|] eqn:Hm; [|done].
    destruct c as [c|]; [|done]. destruct sc as [sc|]; [|done].
    destruct m as [m|]; [|done].
    destruct Hbad as [->|[->|[->|[|[|]]]]]; done.
Qed.

(** ** Sending an invitation again *)



(** ** Importing a marker *)

Lemma SELECT_import_update (P : Marker -> Prop) `{!forall r, Decision (P r)}
    (f : Marker -> Marker) (user markerId : uuid) (w : World) :
  (forall m, rm_id (f m) = rm_id m) ->
  (forall m, rm_invitation_id (f m) = rm_invitation_id m) ->
  SELECT_import user markerId
    (with_markers (update_where P f (reader_markers w)) w)
  = prod_map (fun m => if decide (P m) then f m else m) id
      <$> SELECT_import user markerId w.
Proof.
  intros Hid Hinv. unfold SELECT_import.
  cbn [reader_markers reader_invitations projects with_markers].
  rewrite (filter_update_where P f) by (intros m; by rewrite Hid).
  unfold update_where.
  induction (filter _ (reader_markers w)) as [|m ms IH]; [done|].
  cbn [fmap list_fmap mbind list_bind]. rewrite fmap_app, <- IH. f_equal.
  assert (rm_invitation_id (if decide (P m) then f m else m) = rm_invitation_id m)
    as -> by (destruct (decide (P m)); [apply Hinv|done]).
  induction (filter _ (reader_invitations w)) as [|ri ris IHri]; [done|].
  cbn [fmap list_fmap mbind list_bind]. rewrite fmap_app, <- IHri. f_equal.
  induction (filter _ (projects w)) as [|q qs IHq]; [done|].
  cbn [fmap list_fmap mbind list_bind app]. by rewrite <- IHq.
Qed.

Lemma update_where_twice {A} (P : A -> Prop) `{!forall r, Decision (P r)}
    (f g : A -> A) (l : list A) :
  (forall r, P r -> P (f r)) ->
  update_where P g (update_where P f l)
  = update_where P (fun r => g (f r)) l.
Proof.
  intros HP. unfold update_where. rewrite <- list_fmap_compose.
  apply list_fmap_ext. intros i r _. cbn.
  destruct (decide (P r)) as [Hr|Hr].
  - by rewrite decide_True by (by apply HP).
  - by rewrite decide_False.
Qed.

Lemma importMarker_found (env : Env) (user markerId : uuid) (w : World)
    (markerData : Marker) (ri : Invitation) :
  head (SELECT_import user markerId w) = Some (markerData, ri) ->
  importMarker env user markerId w
  = (with_markers
       (update_where (fun rm => rm_id rm = markerId) (mark_imported env)
          (reader_markers w)) w,
     json (BImported (annotation markerData ri))).
Proof.
  intros Hsel. unfold importMarker. run_handler.
  destruct (SELECT_import user markerId w) as [|[m' ri'] rest]; [done|].
  by injection Hsel as -> ->.
Qed.

Lemma SELECT_import_marker (user markerId : uuid) (w : World)
    (markerData : Marker) (ri : Invitation) :
  head (SELECT_import user markerId w) = Some (markerData, ri) ->
  rm_id markerData = markerId.
Proof.
  intros Hsel.
  assert ((markerData, ri) ∈ SELECT_import user markerId w) as Hin.
  { destruct (SELECT_import user markerId w); [done|].
    injection Hsel as ->. by left. }
  unfold SELECT_import in Hin.
  apply list_elem_of_bind in Hin as (m & Hin & Hm).
  apply list_elem_of_bind in Hin as (ri' & Hin & _).
  apply list_elem_of_bind in Hin as (q & Hin & _).
  apply list_elem_of_singleton in Hin. injection Hin as -> ->.
  by apply list_elem_of_filter in Hm as [? _].
Qed.

(** C8 (as amended): when the marker's invitation belongs to a project of
    the caller, importing it twice succeeds both times with the same
    annotation, whose text is the reader's name in brackets, a line feed
    and the marker text; after each call the marker has
    [imported_to_project = true], and the store after the second call is
    the store a single import at the second time gives, so that the two
    states differ only in [imported_at] and in the [updated_at] column
    that the table's trigger sets on every update. *)
Theorem importMarker_is_idempotent (env1 env2 : Env) (user markerId : uuid)
    (w : World) (markerData : Marker) (ri : Invitation) :
  head (SELECT_import user markerId w) = Some (markerData, ri) ->
  let first := importMarker env1 user markerId w in
  let second := importMarker env2 user markerId first.1 in
  first.2 = json (BImported (annotation markerData ri))
  /\ second.2 = first.2
  /\ a_text (annotation markerData ri)
     = "[" +:+ Js.template (reader_name ri) +:+ "]" +:+ Js.newline
       +:+ Js.template (marker_text markerData)
  /\ second.1 = (importMarker env2 user markerId w).1
  /\ (forall i m,
        reader_markers w !! i = Some m ->
        exists m1 m2,
          reader_markers first.1 !! i = Some m1
          /\ reader_markers second.1 !! i = Some m2
          /\ forget_import_stamps m1 = forget_import_stamps m2
          /\ (rm_id m = markerId ->
              imported_to_project m1 = true /\ imported_to_project m2 = true
              /\ imported_at m1 = Some (now env1)
              /\ imported_at m2 = Some (now env2)
              /\ rm_updated_at m1 = now env1
              /\ rm_updated_at m2 = now env2)
          /\ (rm_id m <> markerId -> m1 = m /\ m2 = m)).
Proof.
  intros Hsel first second.
  pose proof (importMarker_found env1 user markerId w markerData ri Hsel) as H1.
  fold first in H1.
  pose proof (SELECT_import_marker user markerId w markerData ri Hsel) as Hid.
  assert (head (SELECT_import user markerId first.1)
          = Some (mark_imported env1 markerData, ri)) as Hsel1.
  { rewrite H1. cbn [fst]. rewrite SELECT_import_update by done.
    destruct (SELECT_import user markerId w) as [|[m' ri'] rest]; [done|].
    injection Hsel as -> ->. cbn. by rewrite decide_True. }
  pose proof (importMarker_found env2 user markerId first.1 _ ri Hsel1) as H2.
  fold second in H2.
  pose proof (importMarker_found env2 user markerId w markerData ri Hsel) as H2'.
  rewrite H2, H2', H1. cbn [fst snd reader_markers with_markers].
  rewrite update_where_twice by done.
  split; [done|]. split; [done|]. split; [done|]. split.
  { destruct w; cbn. by f_equal. }
  intros i m Hm. rewrite !update_where_lookup, Hm.
  cbn [fmap option_fmap option_map].
  destruct (decide (rm_id m = markerId)) as [Hmid|Hmid].
  - eexists _, _. split; [done|]. split; [done|].
    split; [done|]. split; [done|]. done.
  - exists m, m. split; [done|]. split; [done|].
    split; [done|]. split; [done|]. done.
Qed.

(** ** Session tracker *)

(** C10: [POST /progress] and [POST /notes] only need the token to map to
    an invitation; whatever its status and expiration time (in particular
    when it is revoked, expired, or past [expires_at]) both answer 200,
    rewrite every session row of the invitation (the notes; the last
    chapter and the percentage; the activity time in both) and set the
    invitation's [last_activity_at] to the time of the request, leaving
    its status as it was. For the progress this holds when the chapter id
    is absent or a UUID and the percentage is absent or a four-byte
    integer, the types of the two columns, an absent value being stored
    as NULL; otherwise the statement fails, the answer is 500 and nothing
    is changed. *)
Theorem progress_and_notes_ignore_status (env : Env) (token : string)
    (chapterId : option string) (completionPercentage : option Z)
    (text : option string) (w : World) (inv : Invitation) :
  head (SELECT_invitation token w) = Some inv ->
  let progress := updateProgress env token chapterId completionPercentage w in
  let noted := updateNotes env token text w in
  let touched :=
    {| ri_id := ri_id inv; project_id := project_id inv;
       user_id := user_id inv; access_token := access_token inv;
       chapters_accessible := chapters_accessible inv;
       invitation_message := invitation_message inv;
       reader_name := reader_name inv; reader_email := reader_email inv;
       status := status inv; accepted_at := accepted_at inv;
       expires_at := expires_at inv; created_at := created_at inv;
       updated_at := now env; last_activity_at := Some (now env);
       circle_name := circle_name inv; archived := archived inv;
       sort_order := sort_order inv |} in
  ((exists n, noted.2 = status_json 200 (BNotes n))
   /\ (forall i rs,
         reader_sessions w !! i = Some rs ->
         reader_sessions noted.1 !! i
         = Some (if decide (rs_invitation_id rs = ri_id inv)
                 then {| rs_id := rs_id rs;
                         rs_invitation_id := rs_invitation_id rs;
                         chapters_read := chapters_read rs;
                         last_chapter_id := last_chapter_id rs;
                         completion_percentage := completion_percentage rs;
                         rs_created_at := rs_created_at rs;
                         rs_last_activity_at := now env; notes := text |}
                 else rs))
   /\ head (SELECT_invitation token noted.1) = Some touched)
  /\ (forall stored,
        Pg.uuid_null chapterId = Some stored ->
        (forall z, completionPercentage = Some z ->
                   -2147483648 <= z <= 2147483647) ->
        progress.2 = status_json 200 (BMessage "Progress updated" None)
        /\ (forall i rs,
              reader_sessions w !! i = Some rs ->
              reader_sessions progress.1 !! i
              = Some (if decide (rs_invitation_id rs = ri_id inv)
                      then {| rs_id := rs_id rs;
                              rs_invitation_id := rs_invitation_id rs;
                              chapters_read := chapters_read rs;
                              last_chapter_id := stored;
                              completion_percentage := completionPercentage;
                              rs_created_at := rs_created_at rs;
                              rs_last_activity_at := now env;
                              notes := notes rs |}
                      else rs))
        /\ head (SELECT_invitation token progress.1) = Some touched)
  /\ (Pg.uuid_null chapterId = None
      \/ (exists z, completionPercentage = Some z
                    /\ ~ (-2147483648 <= z <= 2147483647)) ->
      progress = (w, status_json 500 (BError "Failed to update progress" None))).
Proof.
  intros Hsel progress noted touched.
  assert (head (SELECT_invitation token
                  (with_invitations
                     (update_where (fun ri => ri_id ri = ri_id inv)
                        (fun ri => update_reader_updated_at env
                                     (set_last_activity_at (Some (now env)) ri))
                        (reader_invitations w)) w))
          = Some touched) as Htouched.
  { rewrite SELECT_invitation_update by done.
    destruct (SELECT_invitation token w) as [|inv' rest]; [done|].
    injection Hsel as ->. cbn. by rewrite decide_True. }
  subst progress noted.
  unfold updateProgress, updateNotes, Pg.integer_null, Pg.integer.
  run_handler.
  destruct (SELECT_invitation token w) as [|inv' rest] eqn:Hrows; [done|].
  injection Hsel as ->. split; [|split].
  - cbn [fst snd reader_sessions reader_invitations with_sessions
           with_invitations].
    split; [by eexists|]. split.
    + intros i rs Hrs. rewrite update_where_lookup, Hrs.
      cbn [fmap option_fmap option_map]. by destruct (decide _).
    + rewrite <- Htouched. unfold SELECT_invitation. done.
  - intros stored Hstored Hrange. rewrite Hstored.
    assert (match completionPercentage with
            | Some z =>
                Some <$> (if bool_decide (-2147483648 <= z <= 2147483647)
                          then Some z else None)
            | None => Some None
            end = Some completionPercentage) as ->.
    { destruct completionPercentage as [z|]; [|done].
      by rewrite bool_decide_eq_true_2 by (by apply Hrange). }
    cbn [fst snd reader_sessions reader_invitations with_sessions
           with_invitations].
    split; [done|]. split.
    + intros i rs Hrs. rewrite update_where_lookup, Hrs.
      cbn [fmap option_fmap option_map]. by destruct (decide _).
    + rewrite <- Htouched. unfold SELECT_invitation. done.
  - intros [Hbad|(z & -> & Hbad)].
    + by rewrite Hbad.
    + destruct (Pg.uuid_null chapterId); [|done].
      by rewrite bool_decide_eq_false_2 by done.
Qed.

(** ** The properties on the sample store *)

(** Decides a closed decidable proposition by evaluation. *)
Ltac by_evaluation :=
  apply (bool_decide_eq_true_1 _); vm_compute; reflexivity.

(** The forms of input that the type [uuid] documents, and two that it
    refuses. *)
Example uuid_input_forms :
  Pg.uuid "A0EEBC99-9C0B-4EF8-BB6D-6BB9BD380A11"
  = Some "a0eebc99-9c0b-4ef8-bb6d-6bb9bd380a11"
  /\ Pg.uuid "{a0eebc99-9c0b-4ef8-bb6d-6bb9bd380a11}"
     = Some "a0eebc99-9c0b-4ef8-bb6d-6bb9bd380a11"
  /\ Pg.uuid "a0eebc999c0b4ef8bb6d6bb9bd380a11"
     = Some "a0eebc99-9c0b-4ef8-bb6d-6bb9bd380a11"
  /\ Pg.uuid "a0ee-bc99-9c0b-4ef8-bb6d-6bb9-bd38-0a11"
     = Some "a0eebc99-9c0b-4ef8-bb6d-6bb9bd380a11"
  /\ Pg.uuid "{a0eebc99-9c0b4ef8-bb6d6bb9-bd380a11}"
     = Some "a0eebc99-9c0b-4ef8-bb6d-6bb9bd380a11"
  /\ Pg.uuid "a0eebc99-9c0b-4ef8-bb6d-6bb9bd380a1" = None
  /\ Pg.uuid "a-0eebc99-9c0b-4ef8-bb6d-6bb9bd380a11" = None
  /\ Pg.uuid "chapter-1" = None.
Proof. repeat split; vm_compute; reflexivity. Qed.

(** The name of the author in a mail is made of both names or is the
    user name, and a chapter without a name is "Untitled Chapter". *)
Example names_in_the_mail :
  author_name Sample.author = Some "Ann Lee"
  /\ author_name {| u_user_id := 1%N; first_name := Some "Ann";
                    last_name := None; username := Some "ann" |}
     = Some "ann"
  /\ author_name {| u_user_id := 1%N; first_name := None;
                    last_name := Some "Lee"; username := Some "ann" |}
     = Some "ann"
  /\ chapter_names (default [] (pd_chapters (project_data Sample.book))) ["C"]
     = ["Untitled Chapter"].
Proof. repeat split; vm_compute; reflexivity. Qed.

(** The annotation that the import of the sample marker returns. *)
Example imported_annotation :
  (importMarker (Sample.at_time 5) 1%N 500%N Sample.store).2
  = status_json 200
      (BImported
         {| a_id := "m-1"; a_type := Some question;
            a_text := "[Bob]" +:+ Js.newline +:+ "Why here?";
            a_highlightedText := Some "the door"; a_positionData := "{}";
            a_chapterId := "B"; a_sceneId := "b1";
            a_isReaderFeedback := true; a_readerName := Some "Bob";
            a_createdAt := 3 |}).
Proof. vm_compute. reflexivity. Qed.

(** The example of the specification: with the chapters A, B, C, D and
    access to B and D, the reader sees B as chapter 2 and D as chapter 4. *)
Example chapters_B_and_D_keep_their_numbers :
  filteredChapters (project_data Sample.book) ["B"; "D"]
  = Some [ {| chapter := Sample.chapter_B; chapterNumber := 2 |};
           {| chapter := Sample.chapter_D; chapterNumber := 4 |} ].
Proof. reflexivity. Qed.

Lemma resolveAccess_keeps_chapter_numbers_witness :
  head (SELECT_access "tok-accepted" Sample.store)
  = Some (Sample.reading, Sample.book)
  /\ 5 <= expires_at Sample.reading
  /\ status Sample.reading <> revoked
  /\ exists view content session,
       (resolveAccess (Sample.at_time 5) "tok-accepted" Sample.store).2
       = json (BAccess view content session)
       /\ chapter <$> content
          = filter (fun ch => ch_id ch ∈ chapters_accessible Sample.reading)
              (default [] (pd_chapters (project_data Sample.book)))
       /\ (forall cv,
             cv ∈ content
             <-> ch_id (chapter cv) ∈ chapters_accessible Sample.reading
                 /\ exists index : nat,
                      default [] (pd_chapters (project_data Sample.book)) !! index
                      = Some (chapter cv)
                      /\ chapterNumber cv = (index + 1)%nat)
       /\ StronglySorted lt (chapterNumber <$> content).
Proof.
  assert (head (SELECT_access "tok-accepted" Sample.store)
          = Some (Sample.reading, Sample.book)) as Hsel by reflexivity.
  assert (now (Sample.at_time 5) <= expires_at Sample.reading) as Hexp
    by (cbn; lia).
  assert (status Sample.reading <> revoked) as Hst by (cbn; discriminate).
  split; [exact Hsel|]. split; [exact Hexp|]. split; [exact Hst|].
  exact (resolveAccess_keeps_chapter_numbers (Sample.at_time 5) "tok-accepted"
           Sample.store Sample.reading Sample.book Hsel Hexp Hst).
Defined.

Lemma expired_access_is_idempotent_witness :
  head (SELECT_access "tok-pending" Sample.store)
  = Some (Sample.waiting, Sample.book)
  /\ expires_at Sample.waiting < 2000
  /\ 2000 <= 2500
  /\ (resolveAccess (Sample.at_time 2000) "tok-pending" Sample.store).2
     = status_json 403 (BError "Access token has expired" None)
  /\ status_of "tok-pending"
       (resolveAccess (Sample.at_time 2000) "tok-pending" Sample.store).1
     = Some expired
  /\ (resolveAccess (Sample.at_time 2500) "tok-pending"
        (resolveAccess (Sample.at_time 2000) "tok-pending" Sample.store).1).2
     = status_json 403 (BError "Access token has expired" None)
  /\ status_of "tok-pending"
       (resolveAccess (Sample.at_time 2500) "tok-pending"
          (resolveAccess (Sample.at_time 2000) "tok-pending" Sample.store).1).1
     = Some expired.
Proof.
  assert (head (SELECT_access "tok-pending" Sample.store)
          = Some (Sample.waiting, Sample.book)) as Hsel by reflexivity.
  assert (expires_at Sample.waiting < now (Sample.at_time 2000)) as Hexp
    by (cbn; lia).
  assert (now (Sample.at_time 2000) <= now (Sample.at_time 2500)) as Hlater
    by (cbn; lia).
  split; [exact Hsel|]. split; [exact Hexp|]. split; [exact Hlater|].
  exact (expired_access_is_idempotent (Sample.at_time 2000) (Sample.at_time 2500)
           "tok-pending" Sample.store Sample.waiting Sample.book
           Hsel Hexp Hlater).
Defined.

(** C1, as stated, fails: past its expiration time a revoked invitation
    is answered with "Access token has expired", not with "Access has
    been revoked", and its stored status changes from [revoked] to
    [expired]. *)
Lemma revoked_invitation_becomes_expired :
  status_of "tok-revoked" Sample.store = Some revoked
  /\ expires_at Sample.withdrawn < now (Sample.at_time 2000)
  /\ (resolveAccess (Sample.at_time 2000) "tok-revoked" Sample.store).2
     <> status_json 403 (BError "Access has been revoked" None)
  /\ (resolveAccess (Sample.at_time 2000) "tok-revoked" Sample.store).2
     = status_json 403 (BError "Access token has expired" None)
  /\ status_of "tok-revoked"
       (resolveAccess (Sample.at_time 2000) "tok-revoked" Sample.store).1
     = Some expired.
Proof.
  split; [reflexivity|]. split; [cbn; lia|]. split; [|split; reflexivity].
  vm_compute. discriminate.
Qed.

Lemma revoked_is_terminal_until_expired_access_witness :
  NoDup (ri_id <$> reader_invitations Sample.store)
  /\ reader_invitations Sample.store !! 1%nat = Some Sample.withdrawn
  /\ status Sample.withdrawn = revoked
  /\ (exists r',
        reader_invitations
          (run [(Sample.at_time 5, ResolveAccess "tok-revoked");
                (Sample.at_time 6, RevokeInvitation 1%N 101%N);
                (Sample.at_time 7,
                 UpdateProgress "tok-revoked"
                   (Some "3f2b8c1e-9d4a-4b6f-8a21-0c5d7e9f1a2b") (Some 40));
                (Sample.at_time 2000, ResolveAccess "tok-pending")]
             Sample.store) !! 1%nat = Some r'
        /\ ri_id r' = ri_id Sample.withdrawn
        /\ status r' = revoked)
  /\ resolveAccess (Sample.at_time 5) "tok-revoked" Sample.store
     = (Sample.store, status_json 403 (BError "Access has been revoked" None)).
Proof.
  assert (NoDup (ri_id <$> reader_invitations Sample.store)) as Hkey
    by by_evaluation.
  assert (reader_invitations Sample.store !! 1%nat = Some Sample.withdrawn)
    as Hrow by reflexivity.
  assert (status Sample.withdrawn = revoked) as Hst by reflexivity.
  split; [exact Hkey|]. split; [exact Hrow|]. split; [exact Hst|].
  destruct (revoked_is_terminal_until_expired_access Sample.store 1
              Sample.withdrawn Hkey Hrow Hst) as (Hrun & Hnow & _).
  split.
  - apply Hrun. repeat constructor; cbn; intros; first [discriminate|lia].
  - apply (Hnow (Sample.at_time 5) Sample.book); [reflexivity|cbn; lia].
Defined.

Lemma createInvitations_quota_witness :
  (exists p, p ∈ projects Sample.store
             /\ p_project_id p = 10%N /\ p_user_id p = 1%N)
  /\ createInvitations (Sample.at_time 5) 1%N 10%N ["A"] None
       (replicate 14 Sample.dave) 2000 None Sample.store
     = (Sample.store,
        status_json 400
          (BError "Maximum 15 active readers per project. Currently: 2" None))
  /\ (exists u, u ∈ users Sample.store /\ u_user_id u = 1%N)
  /\ fresh_tokens (Sample.at_time 5) 0 2 Sample.store
  /\ Forall reader_fits [Sample.carol; Sample.dave]
  /\ code (createInvitations (Sample.at_time 5) 1%N 10%N ["A"] None
             [Sample.carol; Sample.dave] 2000 None Sample.store).2
     = 201%nat
  /\ length (reader_invitations
               (createInvitations (Sample.at_time 5) 1%N 10%N ["A"] None
                  [Sample.carol; Sample.dave] 2000 None Sample.store).1)
     = 5%nat.
Proof.
  assert (exists p, p ∈ projects Sample.store
                    /\ p_project_id p = 10%N /\ p_user_id p = 1%N) as Hown
    by (exists Sample.book; split; [by left|by split]).
  assert (exists u, u ∈ users Sample.store /\ u_user_id u = 1%N) as Huser
    by (exists Sample.author; split; [by left|done]).
  assert (fresh_tokens (Sample.at_time 5) 0 2 Sample.store) as Hfresh
    by by_evaluation.
  assert (Forall reader_fits [Sample.carol; Sample.dave]) as Hreaders
    by by_evaluation.
  assert (fits (Js.or_else None
                  ("Draft Review - "
                   +:+ toLocaleDateString (Sample.at_time 5)
                         (now (Sample.at_time 5))))) as Hcircle
    by by_evaluation.
  split; [exact Hown|].
  destruct (createInvitations_quota (Sample.at_time 5) 1%N 10%N ["A"] None
              (replicate 14 Sample.dave) 2000 None Sample.store Hown)
    as [Hrejected _].
  destruct Hrejected as [Hstore Hresponse]; [vm_compute; lia|].
  split; [apply injective_projections; [exact Hstore|exact Hresponse]|].
  split; [exact Huser|]. split; [exact Hfresh|]. split; [exact Hreaders|].
  destruct (createInvitations_quota (Sample.at_time 5) 1%N 10%N ["A"] None
              [Sample.carol; Sample.dave] 2000 None Sample.store Hown)
    as [_ Hcreated].
  destruct Hcreated as (Hcode & rows & Hstored & Hrows);
    [vm_compute; lia|exact Huser|exact Hfresh|exact Hreaders|exact Hcircle|].
  split; [exact Hcode|].
  rewrite Hstored, length_app. apply Forall2_length in Hrows.
  rewrite Hrows. reflexivity.
Defined.

(** C5, as stated, fails: the array with the same chapter ids in another
    order matches no invitation, and both circle routes answer 404 and
    change nothing, while the array in the stored order is found. *)
Lemma circle_routes_miss_a_reordered_array :
  Permutation ["D"; "B"] (chapters_accessible Sample.waiting)
  /\ renameCircle (Sample.at_time 5) 1%N 10%N ["D"; "B"] (Some "Second draft")
       Sample.store
     = (Sample.store,
        status_json 404 (BError "Circle not found or unauthorized" None))
  /\ archiveCircle (Sample.at_time 5) 1%N 10%N ["D"; "B"] true Sample.store
     = (Sample.store,
        status_json 404 (BError "Circle not found or unauthorized" None))
  /\ (renameCircle (Sample.at_time 5) 1%N 10%N ["B"; "D"] (Some "Second draft")
        Sample.store).2
     = status_json 200 (BMessage "Circle name updated successfully" (Some 3%nat)).
Proof.
  split; [apply perm_swap|]. split; [reflexivity|]. split; reflexivity.
Qed.

Lemma circle_routes_match_the_exact_array_witness :
  reader_invitations Sample.store !! 0%nat = Some Sample.waiting
  /\ fits "Second draft"
  /\ circle_name
       <$> reader_invitations
             (renameCircle (Sample.at_time 5) 1%N 10%N ["B"; "D"]
                (Some "Second draft") Sample.store).1 !! 0%nat
     = Some "Second draft"
  /\ archived
       <$> reader_invitations
             (archiveCircle (Sample.at_time 5) 1%N 10%N ["B"; "D"] true
                Sample.store).1 !! 0%nat
     = Some true
  /\ (renameCircle (Sample.at_time 5) 1%N 10%N ["B"; "D"] (Some "Second draft")
        Sample.store).2
     = status_json 200 (BMessage "Circle name updated successfully" (Some 3%nat))
  /\ renameCircle (Sample.at_time 5) 1%N 10%N ["B"; "D"] None Sample.store
     = (Sample.store,
        status_json 500 (BError "Failed to update circle name" None)).
Proof.
  assert (reader_invitations Sample.store !! 0%nat = Some Sample.waiting)
    as Hrow by reflexivity.
  assert (fits "Second draft") as Hfits by by_evaluation.
  split; [exact Hrow|]. split; [exact Hfits|].
  destruct (circle_routes_match_the_exact_array (Sample.at_time 5) 1%N 10%N
              ["B"; "D"] (Some "Second draft") true Sample.store)
    as (_ & Hrows & _ & _ & _ & Hfound & _).
  destruct (Hrows 0%nat Sample.waiting Hrow) as [Hhit _].
  destruct Hhit as [Hrenamed Harchived].
  { repeat split. exists Sample.book. repeat split. by left. }
  split; [by rewrite (Hrenamed _ eq_refl Hfits)|]. split; [by rewrite Harchived|].
  destruct Hfound as [Hresponse _]; [vm_compute; lia|].
  split; [exact (Hresponse _ eq_refl Hfits)|].
  apply (circle_routes_match_the_exact_array (Sample.at_time 5) 1%N 10%N
           ["B"; "D"] None true Sample.store).
  right. split; [reflexivity|]. vm_compute. lia.
Defined.

(** C6, as stated, fails: a marker on chapter C, which is not among the
    chapters B and D of the invitation, is accepted and stored. *)
Lemma marker_outside_granted_chapters_is_accepted :
  ("C" ∉ chapters_accessible Sample.reading)
  /\ code (createMarker (Sample.at_time 5) "tok-accepted" (Some "C")
             (Some "c1") (Some "m-2") (Some note) (Some "And then?") None "{}"
             Sample.store).2
     = 201%nat
  /\ chapter_id
       <$> last (reader_markers
                   (createMarker (Sample.at_time 5) "tok-accepted" (Some "C")
                      (Some "c1") (Some "m-2") (Some note) (Some "And then?")
                      None "{}" Sample.store).1)
     = Some "C"
  /\ rm_invitation_id
       <$> last (reader_markers
                   (createMarker (Sample.at_time 5) "tok-accepted" (Some "C")
                      (Some "c1") (Some "m-2") (Some note) (Some "And then?")
                      None "{}" Sample.store).1)
     = Some (ri_id Sample.reading).
Proof.
  split; [by_evaluation|]. split; [reflexivity|]. split; reflexivity.
Qed.

Lemma createMarker_checks_status_and_expiry_only_witness :
  head (SELECT_invitation "tok-accepted" Sample.store) = Some Sample.reading
  /\ status Sample.reading <> revoked
  /\ now (Sample.at_time 5) <= expires_at Sample.reading
  /\ fits "C" /\ fits "c1" /\ fits "m-2"
  /\ (exists m,
        (createMarker (Sample.at_time 5) "tok-accepted" (Some "C") (Some "c1")
           (Some "m-2") (Some note) (Some "And then?") None "{}"
           Sample.store).2
        = status_json 201 (BMarker (Some m))
        /\ reader_markers
             (createMarker (Sample.at_time 5) "tok-accepted" (Some "C")
                (Some "c1") (Some "m-2") (Some note) (Some "And then?") None
                "{}" Sample.store).1
           = reader_markers Sample.store ++ [m]
        /\ rm_invitation_id m = ri_id Sample.reading
        /\ chapter_id m = "C"
        /\ scene_id m = "c1"
        /\ marker_id m = "m-2"
        /\ marker_text m = Some "And then?")
  /\ head (SELECT_invitation "tok-revoked" Sample.store) = Some Sample.withdrawn
  /\ createMarker (Sample.at_time 5) "tok-revoked" (Some "B") (Some "b1")
       (Some "m-3") (Some note) None None "{}" Sample.store
     = (Sample.store, status_json 403 (BError "Access expired or revoked" None))
  /\ createMarker (Sample.at_time 5) "tok-accepted" None (Some "c1")
       (Some "m-2") (Some note) (Some "And then?") None "{}" Sample.store
     = (Sample.store, status_json 500 (BError "Failed to create marker" None)).
Proof.
  assert (head (SELECT_invitation "tok-accepted" Sample.store)
          = Some Sample.reading) as Hsel by reflexivity.
  assert (status Sample.reading <> revoked) as Hst by (cbn; discriminate).
  assert (now (Sample.at_time 5) <= expires_at Sample.reading) as Hexp
    by (cbn; lia).
  assert (fits "C") as Hc by by_evaluation.
  assert (fits "c1") as Hs by by_evaluation.
  assert (fits "m-2") as Hm by by_evaluation.
  assert (head (SELECT_invitation "tok-revoked" Sample.store)
          = Some Sample.withdrawn) as Hsel' by reflexivity.
  split; [exact Hsel|]. split; [exact Hst|]. split; [exact Hexp|].
  split; [exact Hc|]. split; [exact Hs|]. split; [exact Hm|].
  split.
  - destruct (proj1 (proj2 (createMarker_checks_status_and_expiry_only
                              (Sample.at_time 5) "tok-accepted" (Some "C")
                              (Some "c1") (Some "m-2") (Some note)
                              (Some "And then?") None "{}"
                              Sample.store Sample.reading Hsel))
                Hst Hexp "C" "c1" "m-2" eq_refl eq_refl eq_refl Hc Hs Hm)
      as (m & Hresp & Hrows & Hinv & _ & Hchapter & Hscene & Hid & _ & Htext & _).
    exists m. repeat split; assumption.
  - split; [exact Hsel'|]. split.
    + apply (proj1 (createMarker_checks_status_and_expiry_only
                      (Sample.at_time 5) "tok-revoked" (Some "B") (Some "b1")
                      (Some "m-3") (Some note) None None "{}"
                      Sample.store Sample.withdrawn Hsel')).
      by left.
    + apply (proj2 (proj2 (createMarker_checks_status_and_expiry_only
                             (Sample.at_time 5) "tok-accepted" None (Some "c1")
                             (Some "m-2") (Some note) (Some "And then?") None
                             "{}" Sample.store Sample.reading Hsel)) Hst Hexp).
      by left.
Defined.


(** C8, as stated, fails: between the state after the first import and
    the state after the second, the marker's [updated_at] column differs
    as well, so the two rows are different even when the import flag and
    the import time are left out of the comparison. *)
Lemma second_import_also_moves_updated_at :
  let first := importMarker (Sample.at_time 10) 1%N 500%N Sample.store in
  let second := importMarker (Sample.at_time 20) 1%N 500%N first.1 in
  rm_updated_at <$> reader_markers first.1 !! 0%nat = Some 10
  /\ rm_updated_at <$> reader_markers second.1 !! 0%nat = Some 20
  /\ set_imported true None <$> reader_markers first.1 !! 0%nat
     <> set_imported true None <$> reader_markers second.1 !! 0%nat.
Proof.
  split; [reflexivity|]. split; [reflexivity|]. vm_compute. discriminate.
Qed.

Lemma importMarker_is_idempotent_witness :
  head (SELECT_import 1%N 500%N Sample.store)
  = Some (Sample.remark, Sample.reading)
  /\ (importMarker (Sample.at_time 10) 1%N 500%N Sample.store).2
     = json (BImported (annotation Sample.remark Sample.reading))
  /\ (importMarker (Sample.at_time 20) 1%N 500%N
        (importMarker (Sample.at_time 10) 1%N 500%N Sample.store).1).2
     = (importMarker (Sample.at_time 10) 1%N 500%N Sample.store).2
  /\ a_text (annotation Sample.remark Sample.reading)
     = "[Bob]" +:+ Js.newline +:+ "Why here?".
Proof.
  assert (head (SELECT_import 1%N 500%N Sample.store)
          = Some (Sample.remark, Sample.reading)) as Hsel by reflexivity.
  split; [exact Hsel|].
  destruct (importMarker_is_idempotent (Sample.at_time 10) (Sample.at_time 20)
              1%N 500%N Sample.store Sample.remark Sample.reading Hsel)
    as (Hfirst & Hsecond & Htext & _).
  split; [exact Hfirst|]. split; [exact Hsecond|]. exact Htext.
Defined.

(** The response of a request in which the mail to the first of two
    readers fails. *)
Example one_failed_mail_of_two :
  body (createInvitations (Sample.at_time 5) 1%N 10%N ["A"] None
          [Sample.carol; Sample.dave] 2000 None Sample.store).2
  = BCreated
      [ {| ci_id := 103%N; ci_access_token := "r0";
           ci_reader_name := Some "Carol";
           ci_reader_email := Some "bad@example.org"; ci_status := pending;
           ci_created_at := 5; ci_expires_at := 2000 |};
        {| ci_id := 104%N; ci_access_token := "r1";
           ci_reader_name := Some "Dave";
           ci_reader_email := Some "dave@example.org"; ci_status := pending;
           ci_created_at := 5; ci_expires_at := 2000 |} ]
      (Some [ {| reader := Some "bad@example.org"; error := "SMTP down" |} ])
      "2 invitation(s) created, but 1 email(s) failed to send".
Proof. vm_compute. reflexivity. Qed.

Lemma email_failure_does_not_undo_invitations_witness :
  (exists p, p ∈ projects Sample.store
             /\ p_project_id p = 10%N /\ p_user_id p = 1%N)
  /\ (exists u, u ∈ users Sample.store /\ u_user_id u = 1%N)
  /\ (length (filter (fun ri => project_id ri = 10%N
                                /\ (status ri = pending \/ status ri = accepted)
                                /\ (now (Sample.at_time 5) < expires_at ri)%Z)
                (reader_invitations Sample.store))
      + length [Sample.carol; Sample.dave] <= 15)%nat
  /\ fresh_tokens (Sample.at_time 5) 0 2 Sample.store
  /\ Forall reader_fits [Sample.carol; Sample.dave]
  /\ exists rows attempts,
       reader_invitations
         (createInvitations (Sample.at_time 5) 1%N 10%N ["A"] None
            [Sample.carol; Sample.dave] 2000 None Sample.store).1
       = reader_invitations Sample.store ++ rows
       /\ mail_log
            (createInvitations (Sample.at_time 5) 1%N 10%N ["A"] None
               [Sample.carol; Sample.dave] 2000 None Sample.store).1
          = mail_log Sample.store ++ attempts
       /\ Forall3 (fun a row r =>
                     reader_email row = email r
                     /\ readerEmail a.1 = email r
                     /\ accessToken a.1 = access_token row
                     /\ a.2 = deliver (Sample.at_time 5) a.1)
            attempts rows [Sample.carol; Sample.dave]
       /\ (createInvitations (Sample.at_time 5) 1%N 10%N ["A"] None
             [Sample.carol; Sample.dave] 2000 None Sample.store).2
          = status_json 201
              (BCreated (returning_columns <$> rows)
                 (if (0 <? length (email_errors attempts))%nat
                  then Some (email_errors attempts) else None)
                 (created_message (length rows)
                    (length (email_errors attempts)))).
Proof.
  assert (exists p, p ∈ projects Sample.store
                    /\ p_project_id p = 10%N /\ p_user_id p = 1%N) as Hown
    by (exists Sample.book; split; [by left|by split]).
  assert (exists u, u ∈ users Sample.store /\ u_user_id u = 1%N) as Huser
    by (exists Sample.author; split; [by left|done]).
  assert (length (filter (fun ri => project_id ri = 10%N
                                    /\ (status ri = pending
                                        \/ status ri = accepted)
                                    /\ (now (Sample.at_time 5)
                                        < expires_at ri)%Z)
                    (reader_invitations Sample.store))
          + length [Sample.carol; Sample.dave] <= 15)%nat as Hquota
    by (vm_compute; lia).
  assert (fresh_tokens (Sample.at_time 5) 0 2 Sample.store) as Hfresh
    by by_evaluation.
  assert (Forall reader_fits [Sample.carol; Sample.dave]) as Hreaders
    by by_evaluation.
  assert (fits (Js.or_else None
                  ("Draft Review - "
                   +:+ toLocaleDateString (Sample.at_time 5)
                         (now (Sample.at_time 5))))) as Hcircle
    by by_evaluation.
  split; [exact Hown|]. split; [exact Huser|]. split; [exact Hquota|].
  split; [exact Hfresh|]. split; [exact Hreaders|].
  exact (email_failure_does_not_undo_invitations (Sample.at_time 5) 1%N 10%N
           ["A"] None [Sample.carol; Sample.dave] 2000 None Sample.store
           Hown Huser Hquota Hfresh Hreaders Hcircle).
Defined.

Lemma progress_and_notes_ignore_status_witness :
  head (SELECT_invitation "tok-revoked" Sample.store) = Some Sample.withdrawn
  /\ status Sample.withdrawn = revoked
  /\ expires_at Sample.withdrawn < now (Sample.at_time 2000)
  /\ Pg.uuid_null (Some "3F2B8C1E-9D4A-4B6F-8A21-0C5D7E9F1A2B")
     = Some (Some "3f2b8c1e-9d4a-4b6f-8a21-0c5d7e9f1a2b")
  /\ (forall z, Some 80 = Some z -> -2147483648 <= z <= 2147483647)
  /\ (updateProgress (Sample.at_time 2000) "tok-revoked"
        (Some "3F2B8C1E-9D4A-4B6F-8A21-0C5D7E9F1A2B") (Some 80) Sample.store).2
     = status_json 200 (BMessage "Progress updated" None)
  /\ reader_sessions
       (updateProgress (Sample.at_time 2000) "tok-revoked"
          (Some "3F2B8C1E-9D4A-4B6F-8A21-0C5D7E9F1A2B") (Some 80)
          Sample.store).1 !! 0%nat
     = Some {| rs_id := 300%N; rs_invitation_id := 101%N; chapters_read := [];
               last_chapter_id := Some "3f2b8c1e-9d4a-4b6f-8a21-0c5d7e9f1a2b";
               completion_percentage := Some 80; rs_created_at := 1;
               rs_last_activity_at := 2000; notes := Some "" |}
  /\ reader_sessions
       (updateNotes (Sample.at_time 2000) "tok-revoked" (Some "so far so good")
          Sample.store).1 !! 0%nat
     = Some {| rs_id := 300%N; rs_invitation_id := 101%N; chapters_read := [];
               last_chapter_id := None; completion_percentage := Some 0;
               rs_created_at := 1; rs_last_activity_at := 2000;
               notes := Some "so far so good" |}
  /\ Pg.uuid_null (Some "D") = None
  /\ updateProgress (Sample.at_time 2000) "tok-revoked" (Some "D") (Some 80)
       Sample.store
     = (Sample.store,
        status_json 500 (BError "Failed to update progress" None)).
Proof.
  assert (head (SELECT_invitation "tok-revoked" Sample.store)
          = Some Sample.withdrawn) as Hsel by reflexivity.
  assert (Pg.uuid_null (Some "3F2B8C1E-9D4A-4B6F-8A21-0C5D7E9F1A2B")
          = Some (Some "3f2b8c1e-9d4a-4b6f-8a21-0c5d7e9f1a2b")) as Huuid
    by (vm_compute; reflexivity).
  assert (forall z, Some 80 = Some z -> -2147483648 <= z <= 2147483647)
    as Hrange by (intros z [= <-]; lia).
  assert (Pg.uuid_null (Some "D") = None) as Hbad by (vm_compute; reflexivity).
  split; [exact Hsel|]. split; [reflexivity|]. split; [cbn; lia|].
  split; [exact Huuid|]. split; [exact Hrange|].
  destruct (progress_and_notes_ignore_status (Sample.at_time 2000) "tok-revoked"
              (Some "3F2B8C1E-9D4A-4B6F-8A21-0C5D7E9F1A2B") (Some 80)
              (Some "so far so good") Sample.store Sample.withdrawn Hsel)
    as ((_ & Hnoted & _) & Hprogress & _).
  destruct (Hprogress _ Huuid Hrange) as (Hresponse & Hsessions & _).
  split; [exact Hresponse|].
  split; [exact (Hsessions 0%nat Sample.session eq_refl)|].
  split; [exact (Hnoted 0%nat Sample.session eq_refl)|].
  split; [exact Hbad|].
  exact (proj2 (proj2 (progress_and_notes_ignore_status (Sample.at_time 2000)
                         "tok-revoked" (Some "D") (Some 80) (Some "so far so good")
                         Sample.store Sample.withdrawn Hsel))
           (or_introl Hbad)).
Defined.

(** * Further properties of the reader routes *)

(** ** Revoking an invitation *)

(** The rows [DELETE /invitations/:invitationId] addresses. *)
Lemma revokeInvitation_run (env : Env) (user invitationId : uuid) (w : World) :
  let owned := fun ri => ri_id ri = invitationId /\ user_id ri = user in
  revokeInvitation env user invitationId w
  = (with_invitations
       (update_where owned
          (fun ri => update_reader_updated_at env (set_status revoked ri))
          (reader_invitations w)) w,
     if bool_decide (length (filter owned (reader_invitations w)) = 0%nat)
     then status_json 404 (BError "Invitation not found or unauthorized" None)
     else json (BMessage "Invitation revoked successfully" None)).
Proof.
  intros owned. unfold revokeInvitation. run_handler.
  unfold returning. rewrite length_fmap. fold owned. by case_bool_decide.
Qed.

Lemma filter_length_zero {A} (P : A -> Prop) `{!forall r, Decision (P r)}
    (l : list A) :
  length (filter P l) = 0%nat <-> Forall (fun r => ~ P r) l.
Proof.
  rewrite <- (returning_length_zero P id l). unfold returning.
  by rewrite length_fmap.
Qed.

(** X1: [DELETE /invitations/:invitationId] sets the status [revoked] on
    every invitation with that key that belongs to the caller, whatever
    its status was, and touches no other row; it answers 200 when there is
    such an invitation, and 404 with the store unchanged when there is
    none. *)
Theorem revokeInvitation_is_unconditional (env : Env)
    (user invitationId : uuid) (w : World) :
  let owned := fun ri => ri_id ri = invitationId /\ user_id ri = user in
  let result := revokeInvitation env user invitationId w in
  (forall i ri,
     reader_invitations w !! i = Some ri ->
     (owned ri ->
      reader_invitations result.1 !! i
      = Some {| ri_id := ri_id ri; project_id := project_id ri;
                user_id := user_id ri; access_token := access_token ri;
                chapters_accessible := chapters_accessible ri;
                invitation_message := invitation_message ri;
                reader_name := reader_name ri;
                reader_email := reader_email ri; status := revoked;
                accepted_at := accepted_at ri; expires_at := expires_at ri;
                created_at := created_at ri; updated_at := now env;
                last_activity_at := last_activity_at ri;
                circle_name := circle_name ri; archived := archived ri;
                sort_order := sort_order ri |})
     /\ (~ owned ri -> reader_invitations result.1 !! i = Some ri))
  /\ length (reader_invitations result.1) = length (reader_invitations w)
  /\ (Exists owned (reader_invitations w) ->
      result.2
      = status_json 200 (BMessage "Invitation revoked successfully" None))
  /\ (~ Exists owned (reader_invitations w) ->
      result
      = (w, status_json 404 (BError "Invitation not found or unauthorized" None))).
Proof.
  intros owned result. subst result.
  rewrite revokeInvitation_run. fold owned.
  cbn [fst snd reader_invitations with_invitations].
  split; [|split; [|split]].
  - intros i ri Hri. rewrite update_where_lookup, Hri.
    cbn [fmap option_fmap option_map]. split; intros Ho.
    + by rewrite decide_True.
    + by rewrite decide_False.
  - apply update_where_length.
  - intros Hex. rewrite bool_decide_eq_false_2; [done|].
    rewrite filter_length_zero. intros Hall.
    apply Exists_exists in Hex as (ri & Hin & Ho).
    rewrite Forall_forall in Hall. by apply (Hall ri).
  - intros Hex.
    assert (Forall (fun r => ~ owned r) (reader_invitations w)) as Hall.
    { apply Forall_forall. intros r Hin Ho. apply Hex, Exists_exists. eauto. }
    rewrite bool_decide_eq_true_2 by (by apply filter_length_zero).
    rewrite update_where_none by done. by rewrite with_invitations_same.
Qed.

(** What the lookups by token see after the owner has revoked the
    invitation they find. *)
Lemma lookups_after_revoke (env : Env) (user : uuid) (token : string)
    (w : World) (inv : Invitation) (p : Project) :
  head (SELECT_access token w) = Some (inv, p) ->
  head (SELECT_invitation token w) = Some inv ->
  user_id inv = user ->
  let w1 := (revokeInvitation env user (ri_id inv) w).1 in
  let inv1 := update_reader_updated_at env (set_status revoked inv) in
  head (SELECT_access token w1) = Some (inv1, p)
  /\ head (SELECT_invitation token w1) = Some inv1.
Proof.
  intros Hacc Hinv Huser w1 inv1. subst w1.
  rewrite revokeInvitation_run. cbn [fst].
  rewrite SELECT_access_update, SELECT_invitation_update by done.
  destruct (SELECT_access token w) as [|[inv' p'] rest]; [done|].
  injection Hacc as -> ->.
  destruct (SELECT_invitation token w) as [|inv' rest']; [done|].
  injection Hinv as ->. cbn. by rewrite !decide_True.
Qed.

(** [POST /markers] on a token whose invitation is revoked or expired. *)
Lemma createMarker_refused (env : Env)
    (token : string) (chapterId sceneId markerId : option string)
    (markerType : option MarkerType)
    (markerText highlightedText : option string) (positionData : string)
    (w : World) (inv : Invitation) :
  head (SELECT_invitation token w) = Some inv ->
  status inv = revoked \/ expires_at inv < now env ->
  createMarker env token chapterId sceneId markerId markerType markerText
    highlightedText positionData w
  = (w, marker_refused).
Proof.
  intros Hsel Hno. unfold createMarker. run_handler.
  destruct (SELECT_invitation token w) as [|inv' rest]; [done|].
  injection Hsel as ->. unfold is_expired. destruct Hno as [Hrev|Hexp].
  - by rewrite bool_decide_eq_true_2 by done.
  - rewrite (bool_decide_eq_true_2 (expires_at inv < now env)) by done.
    by rewrite orb_true_r.
Qed.

(** X2: once the owner has revoked an invitation, its reader is locked
    out of the manuscript: as long as the invitation has not expired,
    [GET /access/:token] answers 403 "Access has been revoked" and
    [POST /markers] answers 403 "Access expired or revoked", and neither
    writes anything. *)
Theorem revoked_reader_is_locked_out (env1 env2 : Env) (user : uuid)
    (token : string) (chapterId sceneId markerId : option string)
    (markerType : option MarkerType)
    (markerText highlightedText : option string) (positionData : string)
    (w : World) (inv : Invitation) (p : Project) :
  head (SELECT_access token w) = Some (inv, p) ->
  head (SELECT_invitation token w) = Some inv ->
  user_id inv = user ->
  now env2 <= expires_at inv ->
  let revoked_ := revokeInvitation env1 user (ri_id inv) w in
  revoked_.2 = status_json 200 (BMessage "Invitation revoked successfully" None)
  /\ resolveAccess env2 token revoked_.1
     = (revoked_.1, status_json 403 (BError "Access has been revoked" None))
  /\ createMarker env2 token chapterId sceneId markerId markerType markerText
       highlightedText positionData revoked_.1
     = (revoked_.1, status_json 403 (BError "Access expired or revoked" None)).
Proof.
  intros Hacc Hinv Huser Hexp revoked_.
  destruct (lookups_after_revoke env1 user token w inv p Hacc Hinv Huser)
    as [Hacc1 Hinv1].
  fold revoked_ in Hacc1, Hinv1. split; [|split].
  - subst revoked_. rewrite revokeInvitation_run. cbn [snd].
    rewrite bool_decide_eq_false_2; [done|].
    rewrite filter_length_zero, Forall_forall. intros Hall.
    apply (Hall inv); [|done]. by eapply SELECT_access_head.
  - by apply (resolveAccess_revoked env2 token revoked_.1 _ p Hacc1).
  - eapply createMarker_refused; [exact Hinv1|by left].
Qed.

(** An [UPDATE] addressed by key rewrites one row of a table with a
    primary key. *)
Lemma update_where_primary_key (P : Invitation -> Prop)
    `{!forall r, Decision (P r)} (f : Invitation -> Invitation)
    (t : list Invitation) (i : nat) (ri : Invitation) :
  NoDup (ri_id <$> t) ->
  t !! i = Some ri ->
  (forall r, P r -> ri_id r = ri_id ri) ->
  P ri ->
  update_where P f t = take i t ++ f ri :: drop (S i) t.
Proof.
  intros Hkey Hri Hid HP.
  assert (forall j r, t !! j = Some r -> j <> i -> ~ P r) as Hother.
  { intros j r Hr Hne HPr. apply Hne.
    apply (NoDup_lookup (ri_id <$> t) j i (ri_id ri)); [done|..].
    - by rewrite list_lookup_fmap, Hr, <- (Hid r HPr).
    - by rewrite list_lookup_fmap, Hri. }
  rewrite <- (take_drop_middle t i ri Hri) at 1.
  unfold update_where. rewrite fmap_app, fmap_cons, decide_True by done.
  f_equal; [|f_equal].
  - apply (update_where_none P f). apply Forall_forall. intros r Hr.
    apply elem_of_take in Hr as (j & Hr & Hlt). apply (Hother j r Hr). lia.
  - apply (update_where_none P f). apply Forall_forall. intros r Hr.
    apply list_elem_of_lookup in Hr as [j Hr]. rewrite lookup_drop in Hr.
    apply (Hother _ r Hr). lia.
Qed.

(** X3: revoking an invitation that counts against the cap of active
    readers frees its place: for a pending or accepted invitation of the
    caller that has not expired, the count that [POST /invitations]
    compares with 15 is one less after the revocation. *)
Theorem revoking_frees_a_place (env env' : Env) (user : uuid) (w : World)
    (i : nat) (ri : Invitation) :
  NoDup (ri_id <$> reader_invitations w) ->
  reader_invitations w !! i = Some ri ->
  user_id ri = user ->
  status ri = pending \/ status ri = accepted ->
  now env' < expires_at ri ->
  (SELECT_active_count env' (project_id ri)
     (revokeInvitation env user (ri_id ri) w).1 + 1)%nat
  = SELECT_active_count env' (project_id ri) w.
Proof.
  intros Hkey Hri Huser Hst Hexp.
  rewrite revokeInvitation_run. cbn [fst].
  unfold SELECT_active_count. cbn [reader_invitations with_invitations].
  rewrite (update_where_primary_key _ _ _ i ri) by (done || by intros r [? _]).
  rewrite <- (take_drop_middle (reader_invitations w) i ri Hri) at 3.
  rewrite !filter_app, !filter_cons, !length_app.
  rewrite decide_False by (cbn; intros (_ & [?|?] & _); discriminate).
  rewrite decide_True by done. cbn [length]. lia.
Qed.

(** ** Requests with a token that no invitation carries *)

Lemma with_markers_same (w : World) : with_markers (reader_markers w) w = w.
Proof. by destruct w. Qed.

Lemma filter_all {A} (P : A -> Prop) `{!forall r, Decision (P r)} (l : list A) :
  Forall P l -> filter P l = l.
Proof.
  induction 1 as [|r l Hr _ IH]; [done|].
  rewrite filter_cons, decide_True by done. by rewrite IH.
Qed.

Lemma SELECT_access_unknown (token : string) (w : World) :
  SELECT_invitation token w = [] -> SELECT_access token w = [].
Proof. unfold SELECT_access, SELECT_invitation. by intros ->. Qed.

Lemma own_marker_unknown (token : string) (markerId : uuid) (w : World)
    (rm : Marker) :
  SELECT_invitation token w = [] -> ~ own_marker w markerId token rm.
Proof.
  unfold SELECT_invitation. intros Hnone [_ Hex].
  apply Exists_exists in Hex as (ri & Hin & _ & Htok).
  assert (ri ∈ filter (fun ri => access_token ri = token) (reader_invitations w))
    as Hri by (by apply list_elem_of_filter).
  rewrite Hnone in Hri. by apply elem_of_nil in Hri.
Qed.

Lemma bind_nil_inner {A B C} (f : A -> list B) (g : A -> B -> list C)
    (l : list A) :
  (forall a, a ∈ l -> f a = []) ->
  (a ← l; b ← f a; g a b) = [].
Proof.
  induction l as [|a l IH]; intros Hf; [done|].
  cbn. rewrite (Hf a) by (by left). cbn. apply IH.
  intros a' Ha'. apply Hf. by right.
Qed.

Lemma filter_token_unknown (token : string) (w : World) (key : uuid) :
  SELECT_invitation token w = [] ->
  filter (fun ri => ri_id ri = key /\ access_token ri = token)
    (reader_invitations w) = [].
Proof.
  unfold SELECT_invitation. intros Hnone.
  apply elem_of_nil_inv. intros ri Hin.
  apply list_elem_of_filter in Hin as [[_ Htok] Hin].
  assert (ri ∈ filter (fun ri => access_token ri = token) (reader_invitations w))
    as Hri by (by apply list_elem_of_filter).
  rewrite Hnone in Hri. by apply elem_of_nil in Hri.
Qed.

(** X4: a token that no invitation carries gives nothing and changes
    nothing: the access, marker-creation, progress and notes routes answer
    404 "Invalid access token", the update and the deletion of a marker
    answer 404 "Marker not found or unauthorized", the notes are "Session
    not found", and the reader's list of markers is empty; the store is
    the same after each of them. *)
Theorem unknown_token_is_inert (env : Env)
    (token : string) (chapterId sceneId markerId : option string)
    (markerType : option MarkerType)
    (markerText highlightedText : option string) (positionData : string)
    (progressChapter : option string) (completionPercentage : option Z)
    (text : option string) (rowId : uuid) (w : World) :
  SELECT_invitation token w = [] ->
  let invalid := status_json 404 (BError "Invalid access token" None) in
  let no_marker :=
    status_json 404 (BError "Marker not found or unauthorized" None) in
  resolveAccess env token w = (w, invalid)
  /\ createMarker env token chapterId sceneId markerId markerType markerText
       highlightedText positionData w = (w, invalid)
  /\ updateProgress env token progressChapter completionPercentage w = (w, invalid)
  /\ updateNotes env token text w = (w, invalid)
  /\ updateMarker env rowId token markerText w = (w, no_marker)
  /\ deleteMarker env rowId token w = (w, no_marker)
  /\ getNotes token w = (w, status_json 404 (BError "Session not found" None))
  /\ getMyMarkers token w = (w, Value []).
Proof.
  intros Hnone invalid no_marker.
  pose proof (SELECT_access_unknown token w Hnone) as Hacc.
  assert (Forall (fun rm => ~ own_marker w rowId token rm) (reader_markers w))
    as Hown by (apply Forall_forall; intros rm _; by apply own_marker_unknown).
  repeat split.
  - unfold resolveAccess. run_handler. by rewrite Hacc.
  - unfold createMarker. run_handler. by rewrite Hnone.
  - unfold updateProgress. run_handler. by rewrite Hnone.
  - unfold updateNotes. run_handler. by rewrite Hnone.
  - unfold updateMarker. run_handler. unfold returning.
    rewrite length_fmap, update_where_none by done.
    rewrite bool_decide_eq_true_2 by (by apply filter_length_zero).
    by rewrite with_markers_same.
  - unfold deleteMarker. run_handler.
    rewrite bool_decide_eq_true_2 by (by apply filter_length_zero).
    cbn [fst snd]. rewrite filter_all by done. by rewrite with_markers_same.
  - unfold getNotes. run_handler. unfold SELECT_notes.
    rewrite bind_nil_inner; [done|].
    intros rs _. by apply filter_token_unknown.
  - unfold getMyMarkers, read_route. run_handler. unfold SELECT_my_markers.
    rewrite bind_nil_inner; [done|].
    intros rm _. by apply filter_token_unknown.
Qed.

(** ** The first access and the session *)

Lemma resolveAccess_granted (env : Env) (token : string) (w : World)
    (inv : Invitation) (p : Project) :
  head (SELECT_access token w) = Some (inv, p) ->
  now env <= expires_at inv ->
  status inv <> revoked ->
  resolveAccess env token w
  = (granted_store env inv w,
     granted_response inv p (granted_store env inv w)).
Proof.
  intros Hsel Hexp Hst. unfold resolveAccess. run_handler.
  destruct (SELECT_access token w) as [|[inv' p'] rest]; [done|].
  injection Hsel as -> ->.
  unfold is_expired. rewrite bool_decide_eq_false_2 by lia.
  rewrite (bool_decide_eq_false_2 (status inv = revoked)) by done.
  unfold granted_store, granted_response, sessions_of.
  destruct (bool_decide (status inv = pending));
    cbn beta iota zeta delta [fst snd reader_sessions with_invitations];
    destruct (bool_decide (length _ = 0%nat)) eqn:Hlen;
    cbn beta iota zeta delta [fst snd reader_sessions with_invitations with_sessions];
    try done.
  all: apply bool_decide_eq_true_1 in Hlen; apply nil_length_inv in Hlen.
  all: by rewrite filter_app, Hlen, filter_cons, decide_True.
Qed.

Lemma SELECT_access_with_sessions (token : string) (l : list Session)
    (w : World) :
  SELECT_access token (with_sessions l w) = SELECT_access token w.
Proof. done. Qed.

Lemma SELECT_access_granted (env : Env) (token : string) (w : World)
    (inv : Invitation) (p : Project) :
  head (SELECT_access token w) = Some (inv, p) ->
  head (SELECT_access token (granted_store env inv w))
  = Some (if bool_decide (status inv = pending)
          then accepted_now env inv else inv, p).
Proof.
  intros Hsel. unfold granted_store.
  assert (head (SELECT_access token
                  (with_invitations
                     (update_where (fun ri => ri_id ri = ri_id inv)
                        (fun ri => accepted_now env ri) (reader_invitations w)) w))
          = Some (accepted_now env inv, p)) as Hacc.
  { rewrite SELECT_access_update by done.
    destruct (SELECT_access token w) as [|[inv' p'] rest]; [done|].
    injection Hsel as -> ->. cbn. by rewrite decide_True. }
  destruct (bool_decide (status inv = pending));
    destruct (bool_decide (length _ = 0%nat));
    by rewrite ?SELECT_access_with_sessions.
Qed.

Lemma sessions_of_granted (env : Env) (inv : Invitation) (w : World) :
  exists s,
    head (sessions_of (ri_id inv) (granted_store env inv w)) = Some s
    /\ rs_invitation_id s = ri_id inv
    /\ (sessions_of (ri_id inv) w = [] ->
        reader_sessions (granted_store env inv w) = reader_sessions w ++ [s]
        /\ completion_percentage s = Some 0 /\ notes s = Some ""
        /\ last_chapter_id s = None /\ chapters_read s = []
        /\ rs_created_at s = now env)
    /\ (sessions_of (ri_id inv) w <> [] ->
        reader_sessions (granted_store env inv w) = reader_sessions w
        /\ head (sessions_of (ri_id inv) w) = Some s).
Proof.
  unfold granted_store.
  destruct (sessions_of (ri_id inv) w) as [|s found] eqn:Hfound.
  - rewrite bool_decide_eq_true_2 by done. eexists.
    split; [|split; [|split; [intros _|done]]].
    + unfold sessions_of in *.
      assert (forall w', reader_sessions (if bool_decide (status inv = pending)
                then with_invitations w' w else w) = reader_sessions w) as Hsame
        by (intros; by destruct (bool_decide _)).
      cbn [reader_sessions with_sessions].
      rewrite filter_app, Hfound, filter_cons, decide_True by done. done.
    + done.
    + by destruct (bool_decide (status inv = pending)).
  - rewrite bool_decide_eq_false_2 by done. exists s.
    assert (rs_invitation_id s = ri_id inv) as Hs.
    { assert (s ∈ sessions_of (ri_id inv) w) as Hin by (rewrite Hfound; by left).
      by apply list_elem_of_filter in Hin as [? _]. }
    assert (sessions_of (ri_id inv)
              (if bool_decide (status inv = pending)
               then with_invitations
                      (update_where (fun ri => ri_id ri = ri_id inv)
                         (fun ri => accepted_now env ri) (reader_invitations w)) w
               else w) = s :: found) as Hafter
      by (destruct (bool_decide (status inv = pending)); exact Hfound).
    split; [by rewrite Hafter|]. split; [done|]. split; [done|].
    intros _. split; [|done]. by destruct (bool_decide (status inv = pending)).
Qed.

Lemma status_of_granted_response (inv : Invitation) (p : Project) (w' : World) :
  v_status <$> view_of (granted_response inv p w') = Some (status inv).
Proof. done. Qed.

(** X5: the first access of a pending invitation that has not expired
    stores the status [accepted] with [accepted_at] the time of the
    request, while the response still reports the status [pending] that
    was read before the update; a second access leaves the invitation as
    the first one left it ([accepted_at] keeps the time of the first
    access) and reports [accepted]. *)
Theorem first_access_accepts_once (env1 env2 : Env) (token : string)
    (w : World) (inv : Invitation) (p : Project) :
  head (SELECT_access token w) = Some (inv, p) ->
  status inv = pending ->
  now env1 <= expires_at inv ->
  now env2 <= expires_at inv ->
  let first := resolveAccess env1 token w in
  let second := resolveAccess env2 token first.1 in
  head (SELECT_access token first.1) = Some (accepted_now env1 inv, p)
  /\ status (accepted_now env1 inv) = accepted
  /\ accepted_at (accepted_now env1 inv) = Some (now env1)
  /\ v_status <$> view_of first.2 = Some pending
  /\ reader_invitations second.1 = reader_invitations first.1
  /\ v_status <$> view_of second.2 = Some accepted.
Proof.
  intros Hsel Hst Hexp1 Hexp2 first second.
  assert (status inv <> revoked) as Hnr by (rewrite Hst; discriminate).
  pose proof (resolveAccess_granted env1 token w inv p Hsel Hexp1 Hnr) as H1.
  fold first in H1.
  pose proof (SELECT_access_granted env1 token w inv p Hsel) as Hsel1.
  rewrite (bool_decide_eq_true_2 (status inv = pending)) in Hsel1 by done.
  assert (first.1 = granted_store env1 inv w) as Hw1 by (by rewrite H1).
  rewrite <- Hw1 in Hsel1.
  pose proof (resolveAccess_granted env2 token first.1 (accepted_now env1 inv) p
                Hsel1 Hexp2) as H2.
  fold second in H2. rewrite H2, H1 by (cbn; discriminate).
  cbn [fst snd]. rewrite <- Hw1, !status_of_granted_response.
  split; [done|]. split; [done|]. split; [done|].
  split; [by rewrite Hst|]. split; [|done].
  unfold granted_store at 1. cbn [status accepted_now update_reader_updated_at
    set_updated_at set_accepted_at set_status].
  rewrite (bool_decide_eq_false_2 (accepted = pending)) by done.
  by destruct (bool_decide _).
Qed.

(** X6: an access that is granted leaves the invitation with a session,
    which the response carries: the first session stored for the
    invitation when there is one, and otherwise a new row with completion
    0, empty notes and no chapter; a second access creates no further
    session and returns the same one. *)
Theorem session_is_created_once (env1 env2 : Env) (token : string)
    (w : World) (inv : Invitation) (p : Project) :
  head (SELECT_access token w) = Some (inv, p) ->
  status inv <> revoked ->
  now env1 <= expires_at inv ->
  now env2 <= expires_at inv ->
  let first := resolveAccess env1 token w in
  let second := resolveAccess env2 token first.1 in
  exists s,
    session_of first.2 = Some s
    /\ rs_invitation_id s = ri_id inv
    /\ (sessions_of (ri_id inv) w = [] ->
        reader_sessions first.1 = reader_sessions w ++ [s]
        /\ completion_percentage s = Some 0 /\ notes s = Some ""
        /\ last_chapter_id s = None /\ chapters_read s = []
        /\ rs_created_at s = now env1)
    /\ (sessions_of (ri_id inv) w <> [] ->
        reader_sessions first.1 = reader_sessions w
        /\ head (sessions_of (ri_id inv) w) = Some s)
    /\ reader_sessions second.1 = reader_sessions first.1
    /\ session_of second.2 = Some s.
Proof.
  intros Hsel Hnr Hexp1 Hexp2 first second.
  pose proof (resolveAccess_granted env1 token w inv p Hsel Hexp1 Hnr) as H1.
  fold first in H1.
  pose proof (SELECT_access_granted env1 token w inv p Hsel) as Hsel1.
  assert (first.1 = granted_store env1 inv w) as Hw1 by (by rewrite H1).
  rewrite <- Hw1 in Hsel1.
  set (inv1 := if bool_decide (status inv = pending)
               then accepted_now env1 inv else inv) in *.
  assert (ri_id inv1 = ri_id inv) as Hid
    by (subst inv1; by destruct (bool_decide _)).
  assert (status inv1 <> revoked) as Hnr1
    by (subst inv1; by case_bool_decide).
  assert (expires_at inv1 = expires_at inv) as He
    by (subst inv1; by destruct (bool_decide _)).
  pose proof (resolveAccess_granted env2 token first.1 inv1 p Hsel1) as H2.
  fold second in H2. rewrite He in H2. specialize (H2 Hexp2 Hnr1).
  destruct (sessions_of_granted env1 inv w)
    as (s & Hhead & Hs & Hnew & Hold).
  rewrite <- Hw1 in Hhead, Hnew, Hold.
  destruct (sessions_of_granted env2 inv1 first.1)
    as (s2 & Hhead2 & _ & Hnew2 & Hold2).
  rewrite Hid in Hhead2, Hnew2, Hold2.
  assert (sessions_of (ri_id inv) first.1 <> []) as Hne
    by (intros Hnil; by rewrite Hnil in Hhead).
  destruct (Hold2 Hne) as [Hsame Hs2].
  exists s. rewrite H2, H1. cbn [fst snd].
  unfold session_of, granted_response. cbn [body json].
  rewrite <- Hw1, Hid.
  split; [done|]. split; [done|]. split; [done|]. split; [done|].
  split; [done|]. rewrite Hhead2. congruence.
Qed.

(** ** The reader's own markers *)

Lemma own_marker_spec (w : World) (markerId : uuid) (token : string)
    (rm : Marker) :
  own_marker w markerId token rm
  <-> rm_id rm = markerId
      /\ exists ri, ri ∈ reader_invitations w
                    /\ ri_id ri = rm_invitation_id rm
                    /\ access_token ri = token.
Proof.
  unfold own_marker. rewrite Exists_exists. split.
  - intros [Hid (ri & Hin & Hri & Htok)]. eauto 7.
  - intros [Hid (ri & Hin & Hri & Htok)]. eauto 7.
Qed.

Lemma updateMarker_run (env : Env) (markerId : uuid) (token : string)
    (markerText : option string) (w : World) :
  let own := own_marker w markerId token in
  let g := fun rm => set_m_updated_at (now env) (set_marker_text markerText rm) in
  updateMarker env markerId token markerText w
  = (with_markers (update_where own g (reader_markers w)) w,
     if bool_decide (length (filter own (reader_markers w)) = 0%nat)
     then status_json 404 (BError "Marker not found or unauthorized" None)
     else json (BMarker (head (g <$> filter own (reader_markers w))))).
Proof.
  intros own g. unfold updateMarker. run_handler. unfold returning.
  rewrite length_fmap. fold own. by case_bool_decide.
Qed.

(** X7: [PUT /markers/:markerId] rewrites the text of exactly the markers
    with that key whose invitation carries the token, also when that
    invitation is revoked or expired, and leaves every other marker, the
    invitations and the sessions as they are; when no marker qualifies
    (a wrong key, or a marker of another invitation) it answers 404 and
    changes nothing. *)
Theorem updateMarker_needs_the_owning_token (env : Env) (markerId : uuid)
    (token : string) (markerText : option string) (w : World) :
  let own := fun rm =>
    rm_id rm = markerId
    /\ exists ri, ri ∈ reader_invitations w
                  /\ ri_id ri = rm_invitation_id rm
                  /\ access_token ri = token in
  let result := updateMarker env markerId token markerText w in
  (forall i rm,
     reader_markers w !! i = Some rm ->
     (own rm ->
      reader_markers result.1 !! i
      = Some {| rm_id := rm_id rm; rm_invitation_id := rm_invitation_id rm;
                rm_project_id := rm_project_id rm; chapter_id := chapter_id rm;
                scene_id := scene_id rm; marker_id := marker_id rm;
                marker_type := marker_type rm; marker_text := markerText;
                highlighted_text := highlighted_text rm;
                position_data := position_data rm;
                rm_created_at := rm_created_at rm; rm_updated_at := now env;
                imported_to_project := imported_to_project rm;
                imported_at := imported_at rm |})
     /\ (~ own rm -> reader_markers result.1 !! i = Some rm))
  /\ length (reader_markers result.1) = length (reader_markers w)
  /\ reader_invitations result.1 = reader_invitations w
  /\ reader_sessions result.1 = reader_sessions w
  /\ ((exists rm, rm ∈ reader_markers w /\ own rm) -> code result.2 = 200%nat)
  /\ (~ (exists rm, rm ∈ reader_markers w /\ own rm) ->
      result
      = (w, status_json 404 (BError "Marker not found or unauthorized" None))).
Proof.
  intros own result.
  assert (forall rm, own_marker w markerId token rm <-> own rm) as Hspec
    by (intros rm; apply own_marker_spec).
  subst result. rewrite updateMarker_run.
  cbn [fst snd reader_markers reader_invitations reader_sessions with_markers].
  split; [|split; [|split; [|split; [|split]]]]; try done.
  - intros i rm Hrm. rewrite update_where_lookup, Hrm.
    cbn [fmap option_fmap option_map]. split; intros Ho.
    + by rewrite decide_True by (by apply Hspec).
    + by rewrite decide_False by (by rewrite Hspec).
  - apply update_where_length.
  - intros (rm & Hin & Ho). rewrite bool_decide_eq_false_2; [done|].
    rewrite filter_length_zero, Forall_forall. intros Hall.
    apply (Hall rm Hin). by apply Hspec.
  - intros Hno.
    assert (Forall (fun r => ~ own_marker w markerId token r) (reader_markers w))
      as Hall.
    { apply Forall_forall. intros rm Hin Ho. apply Hno. exists rm.
      split; [done|]. by apply Hspec. }
    rewrite bool_decide_eq_true_2 by (by apply filter_length_zero).
    rewrite update_where_none by done. by rewrite with_markers_same.
Qed.

Lemma deleteMarker_run (env : Env) (markerId : uuid) (token : string)
    (w : World) :
  let own := own_marker w markerId token in
  deleteMarker env markerId token w
  = (with_markers (filter (fun rm => ~ own rm) (reader_markers w)) w,
     if bool_decide (length (filter own (reader_markers w)) = 0%nat)
     then status_json 404 (BError "Marker not found or unauthorized" None)
     else json (BMessage "Marker deleted successfully" None)).
Proof.
  intros own. unfold deleteMarker. run_handler. fold own. by case_bool_decide.
Qed.

(** X8: [DELETE /markers/:markerId] removes exactly the markers with that
    key whose invitation carries the token and keeps the others in their
    order; invitations and sessions are not touched; it answers 200 when a
    marker was removed and 404 otherwise, so that a second identical
    request answers 404 and changes nothing. *)
Theorem deleteMarker_removes_own_markers_only (env env' : Env) (markerId : uuid)
    (token : string) (w : World) :
  let own := fun rm =>
    rm_id rm = markerId
    /\ exists ri, ri ∈ reader_invitations w
                  /\ ri_id ri = rm_invitation_id rm
                  /\ access_token ri = token in
  let result := deleteMarker env markerId token w in
  (forall rm, rm ∈ reader_markers result.1 <-> rm ∈ reader_markers w /\ ~ own rm)
  /\ reader_markers result.1 `sublist_of` reader_markers w
  /\ reader_invitations result.1 = reader_invitations w
  /\ reader_sessions result.1 = reader_sessions w
  /\ ((exists rm, rm ∈ reader_markers w /\ own rm) ->
      result.2 = status_json 200 (BMessage "Marker deleted successfully" None))
  /\ (~ (exists rm, rm ∈ reader_markers w /\ own rm) ->
      result
      = (w, status_json 404 (BError "Marker not found or unauthorized" None)))
  /\ deleteMarker env' markerId token result.1
     = (result.1,
        status_json 404 (BError "Marker not found or unauthorized" None)).
Proof.
  intros own result.
  assert (forall rm, own_marker w markerId token rm <-> own rm) as Hspec
    by (intros rm; apply own_marker_spec).
  assert (deleteMarker env' markerId token result.1
          = (result.1,
             status_json 404 (BError "Marker not found or unauthorized" None)))
    as Hagain.
  { subst result. rewrite (deleteMarker_run env' markerId token).
    rewrite (deleteMarker_run env markerId token w). cbn [fst].
    set (w1 := with_markers _ w).
    assert (forall rm, own_marker w1 markerId token rm
                       <-> own_marker w markerId token rm) as Hsame by done.
    assert (Forall (fun rm => ~ own_marker w1 markerId token rm)
              (reader_markers w1)) as Hall.
    { apply Forall_forall. intros rm Hin. rewrite Hsame.
      subst w1. cbn in Hin. by apply list_elem_of_filter in Hin as [? _]. }
    rewrite bool_decide_eq_true_2 by (by apply filter_length_zero).
    rewrite filter_all by done. by rewrite with_markers_same. }
  split; [|split; [|split; [|split; [|split; [|split]]]]]; try exact Hagain;
    clear Hagain; subst result; rewrite deleteMarker_run;
    cbn [fst snd reader_markers reader_invitations reader_sessions with_markers];
    try done.
  - intros rm. rewrite list_elem_of_filter, Hspec. tauto.
  - apply sublist_filter.
  - intros (rm & Hin & Ho). rewrite bool_decide_eq_false_2; [done|].
    rewrite filter_length_zero, Forall_forall. intros Hall.
    apply (Hall rm Hin). by apply Hspec.
  - intros Hno.
    assert (Forall (fun r => ~ own_marker w markerId token r) (reader_markers w))
      as Hall.
    { apply Forall_forall. intros rm Hin Ho. apply Hno. exists rm.
      split; [done|]. by apply Hspec. }
    rewrite bool_decide_eq_true_2 by (by apply filter_length_zero).
    rewrite filter_all by done. by rewrite with_markers_same.
Qed.

(** ** Reading back what was written *)

Lemma elem_of_update_where {A} (P : A -> Prop) `{!forall r, Decision (P r)}
    (f : A -> A) (Q : A -> Prop) (l : list A) :
  (forall r, Q (f r) <-> Q r) ->
  (exists r, r ∈ update_where P f l /\ Q r) <-> (exists r, r ∈ l /\ Q r).
Proof.
  intros HQ. unfold update_where. split.
  - intros (r' & Hin & Hq). apply list_elem_of_fmap in Hin as (r & -> & Hin).
    exists r. split; [done|]. destruct (decide (P r)); [by apply HQ|done].
  - intros (r & Hin & Hq). exists (if decide (P r) then f r else r).
    split; [apply list_elem_of_fmap; eauto|].
    destruct (decide (P r)); [by apply HQ|done].
Qed.

Lemma elem_of_SELECT_my_markers (token : string) (w : World) (rm : Marker) :
  rm ∈ SELECT_my_markers token w
  <-> rm ∈ reader_markers w
      /\ exists ri, ri ∈ reader_invitations w
                    /\ ri_id ri = rm_invitation_id rm
                    /\ access_token ri = token.
Proof.
  unfold SELECT_my_markers. rewrite list_elem_of_bind. split.
  - intros (m & Hin & Hm). apply list_elem_of_bind in Hin as (ri & Hin & Hri).
    apply list_elem_of_singleton in Hin as ->.
    apply list_elem_of_filter in Hri as [[? ?] ?]. eauto 7.
  - intros [Hm (ri & Hri & Hid & Htok)]. exists rm. split; [|done].
    apply list_elem_of_bind. exists ri.
    split; [by apply list_elem_of_singleton|].
    by apply list_elem_of_filter.
Qed.

Lemma elem_of_SELECT_markers_of (invitationId : uuid) (w : World)
    (rm : Marker) (reader : option string) :
  (rm, reader) ∈ SELECT_markers_of invitationId w
  <-> rm ∈ reader_markers w
      /\ rm_invitation_id rm = invitationId
      /\ exists ri, ri ∈ reader_invitations w
                    /\ ri_id ri = rm_invitation_id rm
                    /\ reader_name ri = reader.
Proof.
  unfold SELECT_markers_of. rewrite list_elem_of_bind. split.
  - intros (m & Hin & Hm). apply list_elem_of_bind in Hin as (ri & Hin & Hri).
    apply list_elem_of_singleton in Hin. injection Hin as -> ->.
    apply list_elem_of_filter in Hri as [? ?].
    apply list_elem_of_filter in Hm as [? ?]. eauto 7.
  - intros (Hm & Hinv & ri & Hri & Hid & <-). exists rm.
    split; [|by apply list_elem_of_filter].
    apply list_elem_of_bind. exists ri.
    split; [by apply list_elem_of_singleton|].
    by apply list_elem_of_filter.
Qed.

#[local] Instance key_le_total {A} (key : A -> Z) : Total (key_le key).
Proof. intros a b. unfold key_le. lia. Qed.

#[local] Instance key_le_trans {A} (key : A -> Z) : Transitive (key_le key).
Proof. intros a b c. unfold key_le. lia. Qed.

#[local] Instance key_ge_total {A} (key : A -> Z) : Total (key_ge key).
Proof. intros a b. unfold key_ge. lia. Qed.

#[local] Instance key_ge_trans {A} (key : A -> Z) : Transitive (key_ge key).
Proof. intros a b c. unfold key_ge. lia. Qed.

Lemma elem_of_ORDER_BY {A} (key : A -> Z) (rows : list A) (x : A) :
  x ∈ ORDER_BY key rows <-> x ∈ rows.
Proof. unfold ORDER_BY. by rewrite merge_sort_Permutation. Qed.

(** The store after a marker has been accepted. *)
Lemma createMarker_accepted (env : Env)
    (token chapterId sceneId markerId : string) (markerType : option MarkerType)
    (markerText highlightedText : option string) (positionData : string)
    (w : World) (inv : Invitation) :
  head (SELECT_invitation token w) = Some inv ->
  status inv <> revoked ->
  now env <= expires_at inv ->
  fits chapterId -> fits sceneId -> fits markerId ->
  let m :=
    {| rm_id := gen_random_uuid (rm_id <$> reader_markers w);
       rm_invitation_id := ri_id inv; rm_project_id := project_id inv;
       chapter_id := chapterId; scene_id := sceneId; marker_id := markerId;
       marker_type := markerType; marker_text := markerText;
       highlighted_text := highlightedText; position_data := positionData;
       rm_created_at := now env; rm_updated_at := now env;
       imported_to_project := false; imported_at := None |} in
  createMarker env token (Some chapterId) (Some sceneId) (Some markerId)
    markerType markerText highlightedText positionData w
  = (with_invitations
       (update_where (fun ri => ri_id ri = ri_id inv)
          (fun ri => update_reader_updated_at env
                       (set_last_activity_at (Some (now env)) ri))
          (reader_invitations w))
       (with_markers (reader_markers w ++ [m]) w),
     status_json 201 (BMarker (Some m))).
Proof.
  intros Hsel Hrev Hexp Hchapter Hscene Hmarker m.
  unfold createMarker. run_handler.
  destruct (SELECT_invitation token w) as [|inv' rest]; [done|].
  injection Hsel as ->. unfold is_expired.
  rewrite bool_decide_eq_false_2 by done.
  rewrite bool_decide_eq_false_2 by lia.
  cbn [Pg.varchar_null]. by rewrite !varchar_fits by done.
Qed.

(** X9: a marker that [POST /markers] has accepted can be read back. For
    an invitation that is neither revoked nor expired and identifiers that
    fit their [VARCHAR(255)] columns, the answer is 201 with the stored
    marker, which carries the identifiers and the text of the request;
    that marker is then in the reader's list [GET /my-markers/:token],
    together with every marker that was there before, and in the author's
    list [GET /markers/:invitationId] with the reader's name when the
    project of the invitation belongs to the caller; both lists come out
    by increasing creation time. *)
Theorem accepted_marker_is_listed (env : Env) (user : uuid)
    (token chapterId sceneId markerId : string) (markerType : option MarkerType)
    (markerText highlightedText : option string) (positionData : string)
    (w : World) (inv : Invitation) :
  head (SELECT_invitation token w) = Some inv ->
  status inv <> revoked ->
  now env <= expires_at inv ->
  fits chapterId -> fits sceneId -> fits markerId ->
  let result :=
    createMarker env token (Some chapterId) (Some sceneId) (Some markerId)
      markerType markerText highlightedText positionData w in
  exists m mine,
    result.2 = status_json 201 (BMarker (Some m))
    /\ rm_invitation_id m = ri_id inv
    /\ chapter_id m = chapterId /\ scene_id m = sceneId
    /\ marker_id m = markerId /\ marker_text m = markerText
    /\ getMyMarkers token result.1 = (result.1, Value mine)
    /\ m ∈ mine
    /\ (forall rm, rm ∈ SELECT_my_markers token w -> rm ∈ mine)
    /\ Sorted (key_le rm_created_at) mine
    /\ ((exists p, p ∈ projects w /\ p_project_id p = project_id inv
                   /\ p_user_id p = user) ->
        exists theirs,
          getMarkers user (ri_id inv) result.1 = (result.1, Value theirs)
          /\ (m, reader_name inv) ∈ theirs
          /\ Sorted (key_le (fun row => rm_created_at row.1)) theirs).
Proof.
  intros Hsel Hrev Hexp Hchapter Hscene Hmarker result.
  pose proof (createMarker_accepted env token chapterId sceneId markerId
                markerType markerText highlightedText positionData w inv
                Hsel Hrev Hexp Hchapter Hscene Hmarker) as Hrun.
  cbv zeta in Hrun. fold result in Hrun.
  set (m := Build_Marker _ _ _ _ _ _ _ _ _ _ _ _ _ _) in Hrun.
  set (touch := fun ri => update_reader_updated_at env
                            (set_last_activity_at (Some (now env)) ri)) in Hrun.
  assert (inv ∈ reader_invitations w /\ access_token inv = token) as [Hinv Htok].
  { assert (inv ∈ SELECT_invitation token w) as Hin
      by (destruct (SELECT_invitation token w); [done|];
          injection Hsel as ->; by left).
    by apply list_elem_of_filter in Hin as [? ?]. }
  assert (forall Q : Invitation -> Prop,
            (forall r, Q (touch r) <-> Q r) ->
            (exists ri, ri ∈ reader_invitations result.1 /\ Q ri)
            <-> (exists ri, ri ∈ reader_invitations w /\ Q ri)) as Hinvs.
  { intros Q HQ. rewrite Hrun. cbn [fst reader_invitations with_invitations].
    by apply elem_of_update_where. }
  assert (reader_markers result.1 = reader_markers w ++ [m]) as Hmarkers
    by (by rewrite Hrun).
  assert (projects result.1 = projects w) as Hprojects by (by rewrite Hrun).
  exists m, (ORDER_BY rm_created_at (SELECT_my_markers token result.1)).
  split; [by rewrite Hrun|]. do 5 (split; [done|]). split; [done|].
  split; [|split; [|split]].
  - apply elem_of_ORDER_BY, elem_of_SELECT_my_markers.
    split; [rewrite Hmarkers, elem_of_app; right; by left|].
    apply (Hinvs (fun ri => ri_id ri = rm_invitation_id m
                            /\ access_token ri = token)); [done|].
    exists inv. done.
  - intros rm Hrm. apply elem_of_ORDER_BY, elem_of_SELECT_my_markers.
    apply elem_of_SELECT_my_markers in Hrm as [Hin Hri].
    split; [rewrite Hmarkers, elem_of_app; by left|].
    by apply (Hinvs (fun ri => ri_id ri = rm_invitation_id rm
                               /\ access_token ri = token)).
  - apply Sorted_merge_sort; apply _.
  - intros (p & Hp & Hpid & Hpu).
    exists (ORDER_BY (fun row => rm_created_at row.1)
              (SELECT_markers_of (ri_id inv) result.1)).
    split; [|split].
    + unfold getMarkers, read_route. run_handler.
      rewrite bool_decide_eq_false_2; [done|].
      rewrite filter_length_zero, Forall_forall. intros Hall.
      assert (exists ri, ri ∈ reader_invitations result.1
                         /\ (ri_id ri = ri_id inv
                             /\ project_id ri = project_id inv))
        as (ri & Hri & Hid & Hpr) by (apply Hinvs; [done|]; by exists inv).
      apply (Hall (ri, p)); [|done].
      unfold join_projects. apply list_elem_of_bind. exists ri. split; [|done].
      apply list_elem_of_bind. exists p.
      split; [by apply list_elem_of_singleton|].
      apply list_elem_of_filter. rewrite Hprojects. split; [congruence|done].
    + apply elem_of_ORDER_BY, elem_of_SELECT_markers_of.
      split; [rewrite Hmarkers, elem_of_app; right; by left|]. split; [done|].
      apply (Hinvs (fun ri => ri_id ri = rm_invitation_id m
                              /\ reader_name ri = reader_name inv)); [done|].
      by exists inv.
    + apply Sorted_merge_sort; apply _.
Qed.

(** [access_token VARCHAR(255) UNIQUE]: two rows with one token are one
    row. *)
Lemma unique_token (t : list Invitation) (r r' : Invitation) :
  NoDup (access_token <$> t) ->
  r ∈ t -> r' ∈ t -> access_token r' = access_token r -> r' = r.
Proof.
  intros Huniq Hr Hr' Htok.
  apply list_elem_of_lookup in Hr as [i Hi].
  apply list_elem_of_lookup in Hr' as [j Hj].
  assert (j = i) as ->; [|congruence].
  apply (NoDup_lookup (access_token <$> t) j i (access_token r)); [done|..].
  - by rewrite list_lookup_fmap, Hj, <- Htok.
  - by rewrite list_lookup_fmap, Hi.
Qed.

Lemma updateNotes_run (env : Env) (token : string) (text : option string)
    (w : World) (inv : Invitation) :
  head (SELECT_invitation token w) = Some inv ->
  let g := fun rs => set_s_last_activity_at (now env) (set_notes text rs) in
  let mine := fun rs => rs_invitation_id rs = ri_id inv in
  updateNotes env token text w
  = (with_invitations
       (update_where (fun ri => ri_id ri = ri_id inv)
          (fun ri => update_reader_updated_at env
                       (set_last_activity_at (Some (now env)) ri))
          (reader_invitations w))
       (with_sessions (update_where mine g (reader_sessions w)) w),
     json (BNotes (Js.or_else (head (g <$> filter mine (reader_sessions w))
                               ≫= notes) ""))).
Proof.
  intros Hsel g mine. unfold updateNotes. run_handler.
  destruct (SELECT_invitation token w) as [|inv' rest]; [done|].
  by injection Hsel as ->.
Qed.

Lemma SELECT_notes_elem (token : string) (w : World) (n : option string) :
  n ∈ SELECT_notes token w
  <-> exists rs ri,
        rs ∈ reader_sessions w /\ ri ∈ reader_invitations w
        /\ ri_id ri = rs_invitation_id rs /\ access_token ri = token
        /\ n = notes rs.
Proof.
  unfold SELECT_notes. rewrite list_elem_of_bind. split.
  - intros (rs & Hin & Hrs). apply list_elem_of_bind in Hin as (ri & Hin & Hri).
    apply list_elem_of_singleton in Hin as ->.
    apply list_elem_of_filter in Hri as [[? ?] ?]. eauto 9.
  - intros (rs & ri & Hrs & Hri & Hid & Htok & ->). exists rs. split; [|done].
    apply list_elem_of_bind. exists ri.
    split; [by apply list_elem_of_singleton|]. by apply list_elem_of_filter.
Qed.

(** X10: notes that [POST /notes] has stored are the notes
    [GET /notes/:token] returns: when the token's invitation has a session
    (tokens being unique), both routes answer with the text that was sent,
    the empty string standing for an absent or empty text; and when it has
    no session yet, [POST /notes] stores nothing while answering 200 with
    empty notes, and [GET /notes/:token] stays at 404 "Session not
    found". *)
Theorem notes_are_read_back (env : Env) (token : string)
    (text : option string) (w : World) (inv : Invitation) :
  NoDup (access_token <$> reader_invitations w) ->
  head (SELECT_invitation token w) = Some inv ->
  let noted := updateNotes env token text w in
  (sessions_of (ri_id inv) w <> [] ->
   noted.2 = status_json 200 (BNotes (Js.or_else text ""))
   /\ getNotes token noted.1
      = (noted.1, status_json 200 (BNotes (Js.or_else text ""))))
  /\ (sessions_of (ri_id inv) w = [] ->
      noted.2 = status_json 200 (BNotes "")
      /\ reader_sessions noted.1 = reader_sessions w
      /\ getNotes token noted.1
         = (noted.1, status_json 404 (BError "Session not found" None))).
Proof.
  intros Huniq Hsel noted. subst noted.
  rewrite (updateNotes_run env token text w inv Hsel).
  cbn [fst snd].
  set (g := fun rs => set_s_last_activity_at (now env) (set_notes text rs)).
  set (touch := fun ri => update_reader_updated_at env
                            (set_last_activity_at (Some (now env)) ri)).
  set (w1 := with_invitations _ _).
  assert (inv ∈ reader_invitations w /\ access_token inv = token) as [Hinv Htok].
  { assert (inv ∈ SELECT_invitation token w) as Hin
      by (destruct (SELECT_invitation token w); [done|];
          injection Hsel as ->; by left).
    by apply list_elem_of_filter in Hin as [? ?]. }
  (* every joined row of the notes query belongs to [inv] *)
  assert (forall n, n ∈ SELECT_notes token w1 ->
            exists rs, rs ∈ reader_sessions w
                       /\ rs_invitation_id rs = ri_id inv /\ n = text) as Hall.
  { intros n Hn. apply SELECT_notes_elem in Hn
      as (rs1 & ri1 & Hrs1 & Hri1 & Hid & Htok1 & ->).
    subst w1. cbn [reader_sessions reader_invitations with_invitations
                     with_sessions] in Hrs1, Hri1.
    unfold update_where in Hrs1, Hri1.
    apply list_elem_of_fmap in Hrs1 as (rs & -> & Hrs).
    apply list_elem_of_fmap in Hri1 as (ri & -> & Hri).
    assert (ri = inv) as ->.
    { apply (unique_token (reader_invitations w)); try done.
      rewrite Htok, <- Htok1. by destruct (decide (ri_id ri = ri_id inv)). }
    assert (rs_invitation_id rs = ri_id inv) as Hmine.
    { destruct (decide (rs_invitation_id rs = ri_id inv)) as [|Hne]; [done|].
      rewrite decide_True in Hid by done. done. }
    exists rs. split; [done|]. split; [done|].
    by rewrite decide_True by done. }
  split.
  - intros Hsome.
    destruct (sessions_of (ri_id inv) w) as [|rs found] eqn:Hfound; [done|].
    unfold sessions_of in Hfound. rewrite Hfound. cbn [fmap list_fmap head mbind option_bind].
    split; [done|].
    assert (rs ∈ reader_sessions w /\ rs_invitation_id rs = ri_id inv)
      as [Hrs Hmine].
    { assert (rs ∈ filter (fun rs => rs_invitation_id rs = ri_id inv)
                       (reader_sessions w)) as Hin by (rewrite Hfound; by left).
      by apply list_elem_of_filter in Hin as [? ?]. }
    assert (text ∈ SELECT_notes token w1) as Hin.
    { apply SELECT_notes_elem. exists (g rs), (touch inv).
      subst w1. cbn [reader_sessions reader_invitations with_invitations
                       with_sessions].
      split; [|split; [|done]].
      - unfold update_where. apply list_elem_of_fmap. exists rs.
        by rewrite decide_True.
      - unfold update_where. apply list_elem_of_fmap. exists inv.
        by rewrite decide_True. }
    unfold getNotes. run_handler.
    destruct (SELECT_notes token w1) as [|n rest] eqn:Hnotes;
      [by apply elem_of_nil in Hin|].
    destruct (Hall n) as (_ & _ & _ & ->); [by left|]. done.
  - intros Hnone. unfold sessions_of in Hnone. rewrite Hnone.
    cbn [fmap list_fmap head mbind option_bind].
    assert (Forall (fun rs => ~ rs_invitation_id rs = ri_id inv)
              (reader_sessions w)) as Hno.
    { apply (filter_length_zero (fun rs => rs_invitation_id rs = ri_id inv)).
      by rewrite Hnone. }
    split; [done|]. split.
    { subst w1. cbn [reader_sessions with_invitations with_sessions].
      by apply update_where_none. }
    unfold getNotes. run_handler.
    destruct (SELECT_notes token w1) as [|n rest] eqn:Hnotes; [done|].
    destruct (Hall n) as (rs & Hrs & Hmine & _); [by left|].
    rewrite Forall_forall in Hno. by destruct (Hno rs Hrs).
Qed.

(** ** The author's list of invitations *)

Lemma elem_of_join_projects (ris : list Invitation) (ps : list Project)
    (ri : Invitation) (p : Project) :
  (ri, p) ∈ join_projects ris ps
  <-> ri ∈ ris /\ p ∈ ps /\ p_project_id p = project_id ri.
Proof.
  unfold join_projects. rewrite list_elem_of_bind. split.
  - intros (r & Hin & Hr). apply list_elem_of_bind in Hin as (q & Hin & Hq).
    apply list_elem_of_singleton in Hin. injection Hin as -> ->.
    by apply list_elem_of_filter in Hq as [? ?].
  - intros (Hri & Hp & Hpid). exists ri. split; [|done].
    apply list_elem_of_bind. exists p.
    split; [by apply list_elem_of_singleton|]. by apply list_elem_of_filter.
Qed.

(** X11: [GET /invitations/:projectId] lists, newest first, exactly the
    stored invitations whose project belongs to the caller (of the one
    project named, or of all with the word [all]), each with the title of
    its project and with the number of markers stored for it; invitations
    of projects of other authors never appear. *)
Theorem getInvitations_lists_own_projects (user : uuid) (param : ProjectParam)
    (w : World) :
  exists listing,
    getInvitations user param w = (w, Value listing)
    /\ Sorted (key_ge li_created_at) listing
    /\ (forall li,
          li ∈ listing
          <-> exists ri p,
                ri ∈ reader_invitations w /\ p ∈ projects w
                /\ p_project_id p = project_id ri
                /\ p_user_id p = user
                /\ match param with
                   | all_projects => True
                   | one_project projectId => project_id ri = projectId
                   end
                /\ li = listed w (ri, p))
    /\ (forall li, li ∈ listing ->
          exists ri, ri ∈ reader_invitations w
                     /\ li_id li = ri_id ri
                     /\ li_marker_count li
                        = length (filter (fun rm => rm_invitation_id rm = ri_id ri)
                                    (reader_markers w))).
Proof.
  eexists. split; [reflexivity|].
  assert (forall li,
            li ∈ ORDER_BY_DESC li_created_at
                   (listed w
                      <$> filter (listed_for user param)
                            (join_projects (reader_invitations w) (projects w)))
            <-> exists ri p,
                  ri ∈ reader_invitations w /\ p ∈ projects w
                  /\ p_project_id p = project_id ri
                  /\ p_user_id p = user
                  /\ match param with
                     | all_projects => True
                     | one_project projectId => project_id ri = projectId
                     end
                  /\ li = listed w (ri, p)) as Hspec.
  { intros li. unfold ORDER_BY_DESC. rewrite merge_sort_Permutation.
    rewrite list_elem_of_fmap. split.
    - intros ([ri p] & -> & Hin). apply list_elem_of_filter in Hin as [Hfor Hin].
      apply elem_of_join_projects in Hin as (Hri & Hp & Hpid).
      exists ri, p. unfold listed_for in Hfor.
      destruct param; cbn [fst snd] in Hfor; repeat split; tauto.
    - intros (ri & p & Hri & Hp & Hpid & Hu & Hparam & ->).
      exists (ri, p). split; [done|]. apply list_elem_of_filter.
      split; [unfold listed_for; destruct param; cbn [fst snd]; tauto|].
      by apply elem_of_join_projects. }
  split; [apply Sorted_merge_sort; apply _|]. split; [exact Hspec|].
  intros li Hli. apply Hspec in Hli as (ri & p & Hri & _ & _ & _ & _ & ->).
  exists ri. done.
Qed.

(** ** Edge cases of [POST /invitations] *)

Lemma createInvitations_not_owned (env : Env) (user projectId : uuid)
    (chapterIds : list string) (message : option string)
    (readers : list Reader) (expires : timestamp) (circleName : option string)
    (w : World) :
  SELECT_project_check user projectId w = [] ->
  createInvitations env user projectId chapterIds message readers expires
    circleName w
  = (w, status_json 404 (BError "Project not found or unauthorized" None)).
Proof.
  intros Hnone. unfold createInvitations, route, bind at 1, query at 1.
  by rewrite Hnone.
Qed.

(** X12: [POST /invitations] for a project that is not the caller's
    answers 404 "Project not found or unauthorized" and leaves the store
    as it is, whatever the readers and the state of the quota; and for a
    project of the caller, an empty list of readers is accepted with 201
    and "0 invitation(s) created and sent successfully", nothing being
    stored or sent. *)
Theorem createInvitations_edge_cases (env : Env) (user projectId : uuid)
    (chapterIds : list string) (message : option string)
    (readers : list Reader) (expires : timestamp) (circleName : option string)
    (w : World) :
  (SELECT_project_check user projectId w = [] ->
   createInvitations env user projectId chapterIds message readers expires
     circleName w
   = (w, status_json 404 (BError "Project not found or unauthorized" None)))
  /\ (SELECT_project_check user projectId w <> [] ->
      (SELECT_active_count env projectId w <= 15)%nat ->
      SELECT_project_details projectId w <> [] ->
      createInvitations env user projectId chapterIds message [] expires
        circleName w
      = (w, status_json 201
              (BCreated [] None "0 invitation(s) created and sent successfully"))).
Proof.
  split; [apply createInvitations_not_owned|].
  intros Hown Hquota Hdetails.
  unfold createInvitations, route, bind at 1, query at 1.
  destruct (SELECT_project_check user projectId w) as [|p0 ps]; [done|].
  unfold bind at 1, when at 1. cbn [length bool_decide decide_rel].
  rewrite bool_decide_eq_false_2 by done.
  unfold ret at 1, bind at 1, query at 1.
  unfold bind at 1, when at 1.
  rewrite (proj2 (Nat.ltb_ge _ _)) by lia.
  unfold ret at 1, bind at 1, query at 1.
  by destruct (SELECT_project_details projectId w) as [|[project u] rest].
Qed.

Section collision.
Context (env : Env) (user projectId : uuid) (chapterIds : list string)
  (message : option string) (expires : timestamp) (circleName : option string)
  (project : Project) (author : option string) (names : list string).

Local Abbreviation new_rows :=
  (new_rows env user projectId chapterIds message expires circleName).
Local Abbreviation mail_attempts :=
  (mail_attempts env message expires project author names).

Lemma invite_readers_collision (pre : list Reader) (r : Reader)
    (post : list Reader) (k : nat) (invitations : list CreatedInvitation)
    (emailErrors : list EmailError) (w : World) :
  fits (circle_or_default env circleName) ->
  Forall reader_fits pre -> reader_fits r ->
  fresh_tokens env k (length pre) w ->
  fits (randomBytes env (k + length pre)) ->
  randomBytes env (k + length pre) ∈ access_token <$> reader_invitations w ->
  invite_readers env user projectId chapterIds message expires circleName
    project author names (pre ++ r :: post) k invitations emailErrors w
  = (with_mail_log (mail_log w ++ mail_attempts pre k)
       (with_invitations
          (reader_invitations w ++ new_rows pre k (reader_invitations w)) w),
     Thrown (Pg.unique_violation "reader_invitations_access_token_key")).
Proof.
  intros Hcircle Hpre Hr. revert k invitations emailErrors w.
  induction Hpre as [|r0 pre Hr0 Hpre IH];
    intros k invitations emailErrors w Hfresh Hfit Hdup.
  - cbn [app length invite_readers new_rows mail_attempts].
    rewrite Nat.add_0_r in Hdup, Hfit.
    unfold bind at 1, catch at 1, bind at 1.
    rewrite (INSERT_reader_invitation_fits env) by done.
    rewrite bool_decide_eq_true_2 by done. unfold throw.
    rewrite !app_nil_r. by destruct w.
  - cbn [app length invite_readers new_rows mail_attempts].
    set (row := new_invitation_row _ _ _ _ _ _ _ _ _ _).
    set (req := invitation_email _ _ _ _ _ _ _).
    pose proof (fresh_tokens_next env row k (length pre) w
                  (mail_log w ++ [(req, deliver env req)]) eq_refl Hfresh)
      as Hnext.
    destruct Hfresh as (_ & Hall & Hfits).
    cbn [length seq fmap list_fmap] in Hall, Hfits.
    apply Forall_cons in Hall as [Hk _]. apply Forall_cons in Hfits as [Hfitk _].
    cbn [length] in Hfit, Hdup.
    replace (k + S (length pre))%nat with (S k + length pre)%nat in Hfit, Hdup
      by lia.
    unfold bind at 1, catch at 1, bind at 1.
    rewrite (INSERT_reader_invitation_fits env) by done.
    rewrite bool_decide_eq_false_2 by done. cbn zeta. fold row.
    unfold bind, catch, sendReaderInvitation, ret, throw. fold req.
    cbn [reader_invitations mail_log with_invitations with_mail_log].
    assert (forall log,
              randomBytes env (S k + length pre)
              ∈ access_token
                  <$> reader_invitations
                        (with_mail_log log
                           (with_invitations (reader_invitations w ++ [row]) w)))
      as Hdup'.
    { intros log. cbn [reader_invitations with_mail_log with_invitations].
      rewrite fmap_app, elem_of_app. by left. }
    destruct (deliver env req) as [e|] eqn:Hdel; cbn [fst snd];
      rewrite IH by (exact Hnext || exact Hfit || apply Hdup');
      cbn [reader_invitations mail_log with_invitations with_mail_log
             users projects reader_sessions reader_markers];
      rewrite <- !app_assoc; by destruct w.
Qed.

End collision.

Lemma createInvitations_collision (env : Env) (user projectId : uuid)
    (chapterIds : list string) (message : option string) (pre : list Reader)
    (r : Reader) (post : list Reader) (expires : timestamp)
    (circleName : option string) (w : World) (project : Project) (u : User) :
  SELECT_project_check user projectId w <> [] ->
  (SELECT_active_count env projectId w + length (pre ++ r :: post) <= 15)%nat ->
  head (SELECT_project_details projectId w) = Some (project, u) ->
  fits (circle_or_default env circleName) ->
  Forall reader_fits pre -> reader_fits r ->
  fresh_tokens env 0 (length pre) w ->
  fits (randomBytes env (length pre)) ->
  randomBytes env (length pre) ∈ access_token <$> reader_invitations w ->
  createInvitations env user projectId chapterIds message (pre ++ r :: post)
    expires circleName w
  = (with_mail_log
       (mail_log w
          ++ mail_attempts env message expires project (author_name u)
               (chapter_names (default [] (pd_chapters (project_data project)))
                  chapterIds) pre 0)
       (with_invitations
          (reader_invitations w
             ++ new_rows env user projectId chapterIds message expires
                  circleName pre 0 (reader_invitations w)) w),
     status_json 500
       (BError "Failed to create invitations"
          (Some (Pg.unique_violation "reader_invitations_access_token_key")))).
Proof.
  intros Hown Hquota Hdetails Hcircle Hpre Hr Hfresh Hfit Hdup.
  unfold createInvitations, route, bind at 1, query at 1.
  destruct (SELECT_project_check user projectId w) as [|p0 ps]; [done|].
  unfold bind at 1, when at 1. cbn [length bool_decide decide_rel].
  rewrite bool_decide_eq_false_2 by done.
  unfold ret at 1, bind at 1, query at 1.
  unfold bind at 1, when at 1.
  rewrite (proj2 (Nat.ltb_ge _ _)) by lia.
  unfold ret at 1, bind at 1, query at 1.
  destruct (SELECT_project_details projectId w) as [|[project' u'] rest]; [done|].
  injection Hdetails as -> ->.
  unfold bind at 1. by rewrite invite_readers_collision by done.
Qed.

(** X13: the loop of [POST /invitations] is not undone when an insert
    fails: if the token drawn for a reader is already the token of a
    stored invitation, the request ends with 500 "Failed to create
    invitations", whose details are the message of the violated unique
    constraint [reader_invitations_access_token_key], and the invitations
    of all the readers before that one stay stored (and their mails have
    been handed to the gateway), while the readers after it get nothing.
    The request is one that passes the ownership and quota checks, by a
    caller with a row in [users]; the names, the addresses, the circle
    name and the tokens are taken to fit their columns, so that no insert
    fails for another reason. *)
Theorem token_collision_keeps_earlier_invitations (env : Env)
    (user projectId : uuid) (chapterIds : list string)
    (message : option string) (pre : list Reader) (r : Reader)
    (post : list Reader) (expires : timestamp) (circleName : option string)
    (w : World) :
  (exists p, p ∈ projects w /\ p_project_id p = projectId /\ p_user_id p = user) ->
  (exists u, u ∈ users w /\ u_user_id u = user) ->
  (length (filter (fun ri => project_id ri = projectId
                             /\ (status ri = pending \/ status ri = accepted)
                             /\ (now env < expires_at ri)%Z)
             (reader_invitations w))
   + length (pre ++ r :: post) <= 15)%nat ->
  fits (Js.or_else circleName
          ("Draft Review - " +:+ toLocaleDateString env (now env))) ->
  Forall reader_fits pre -> reader_fits r ->
  fresh_tokens env 0 (length pre) w ->
  fits (randomBytes env (length pre)) ->
  randomBytes env (length pre) ∈ access_token <$> reader_invitations w ->
  let result :=
    createInvitations env user projectId chapterIds message (pre ++ r :: post)
      expires circleName w in
  result.2
  = status_json 500
      (BError "Failed to create invitations"
         (Some ("duplicate key value violates unique constraint "
                +:+ Pg.quoted "reader_invitations_access_token_key")))
  /\ exists rows attempts,
       reader_invitations result.1 = reader_invitations w ++ rows
       /\ mail_log result.1 = mail_log w ++ attempts
       /\ Forall3 (fun a row rd =>
                     reader_email row = email rd
                     /\ readerEmail a.1 = email rd
                     /\ accessToken a.1 = access_token row
                     /\ a.2 = deliver env a.1)
            attempts rows pre.
Proof.
  intros Howner Huser Hquota Hcircle Hpre Hr Hfresh Hfit Hdup result.
  subst result.
  pose proof (SELECT_project_check_owned user projectId w Howner) as Hown.
  pose proof (SELECT_project_details_found user projectId w Howner Huser)
    as Hdetails.
  destruct (SELECT_project_details projectId w) as [|[project u] rest] eqn:Hsel;
    [done|].
  rewrite (createInvitations_collision env user projectId chapterIds message
             pre r post expires circleName w project u)
    by (rewrite ?Hsel; done).
  cbn [fst snd reader_invitations mail_log with_mail_log with_invitations].
  split; [done|]. eexists _, _. split; [done|]. split; [done|].
  apply mail_attempts_readers.
Qed.

(** ** Invitations when the gateway cannot send *)

Lemma email_errors_when_all_fail (env : Env) (message : option string)
    (expires : timestamp) (project : Project) (author : option string)
    (names : list string) (e : string) (readers : list Reader) (k : nat) :
  (forall req, invitationMessage req = message -> deliver env req = Some e) ->
  email_errors (mail_attempts env message expires project author names readers k)
  = (fun rd => {| reader := email rd; error := e |}) <$> readers.
Proof.
  intros Hfail. revert k. induction readers as [|rd rest IH]; intros k; [done|].
  cbn [mail_attempts]. unfold email_errors in *.
  cbn [omap list_omap fst snd]. rewrite Hfail by done.
  cbn [fmap option_fmap option_map list_fmap]. f_equal. apply IH.
Qed.

Lemma gateway_cannot_send (settings : list EmailSettings)
    (sendMail : EmailSettings -> EmailRequest -> option string)
    (absent : string) (message : option string) (req : EmailRequest) :
  settings = [] \/ message = None ->
  invitationMessage req = message ->
  gateway settings sendMail absent req
  = Some (match settings with
          | [] => not_configured
          | _ :: _ => no_replace absent
          end).
Proof.
  intros Hwhy Hmsg. unfold gateway.
  destruct settings as [|s rest]; [done|].
  destruct Hwhy as [Hs|Hm]; [done|]. by rewrite Hmsg, Hm.
Qed.

(** X14: when no SMTP settings are stored, or when the request carries no
    message for the readers, [sendReaderInvitation] throws before any mail
    reaches the transport; [POST /invitations] then still stores the
    invitation of every reader and answers 201, with one entry of
    [emailErrors] per reader that carries the reader's address and the
    error: the configuration message in the first case, the [TypeError]
    of the missing message in the second. The request is one that passes
    the ownership and quota checks, and the inserts are taken to go
    through: a caller with a row in [users], new tokens, and names,
    addresses and circle name that fit their columns. *)
Theorem invitations_survive_a_gateway_that_cannot_send (env : Env)
    (settings : list EmailSettings)
    (sendMail : EmailSettings -> EmailRequest -> option string)
    (absent : string) (user projectId : uuid) (chapterIds : list string)
    (message : option string) (readers : list Reader) (expires : timestamp)
    (circleName : option string) (w : World) :
  settings = [] \/ message = None ->
  (exists p, p ∈ projects w /\ p_project_id p = projectId /\ p_user_id p = user) ->
  (exists u, u ∈ users w /\ u_user_id u = user) ->
  (length (filter (fun ri => project_id ri = projectId
                             /\ (status ri = pending \/ status ri = accepted)
                             /\ (now env < expires_at ri)%Z)
             (reader_invitations w))
   + length readers <= 15)%nat ->
  fresh_tokens env 0 (length readers) w ->
  Forall reader_fits readers ->
  fits (Js.or_else circleName
          ("Draft Review - " +:+ toLocaleDateString env (now env))) ->
  let e :=
    match settings with
    | [] =>
        "Email settings not configured. Please configure SMTP settings in the Admin panel."
    | _ :: _ =>
        "Cannot read properties of " +:+ absent +:+ " (reading 'replace')"
    end in
  let result :=
    createInvitations (with_gateway settings sendMail absent env) user projectId
      chapterIds message readers expires circleName w in
  exists rows,
    reader_invitations result.1 = reader_invitations w ++ rows
    /\ Forall2 (fun row rd =>
                  reader_name row = name rd /\ reader_email row = email rd
                  /\ project_id row = projectId /\ user_id row = user
                  /\ chapters_accessible row = chapterIds
                  /\ status row = pending /\ expires_at row = expires
                  /\ circle_name row
                     = Js.or_else circleName
                         ("Draft Review - " +:+ toLocaleDateString env (now env))
                  /\ invitation_message row = message
                  /\ accepted_at row = None /\ last_activity_at row = None
                  /\ archived row = false)
         rows readers
    /\ result.2
       = status_json 201
           (BCreated (returning_columns <$> rows)
              (if (0 <? length readers)%nat
               then Some ((fun rd => {| reader := email rd; error := e |})
                            <$> readers)
               else None)
              (created_message (length readers) (length readers))).
Proof.
  intros Hwhy Howner Huser Hquota Hfresh Hreaders Hcircle e result.
  subst result.
  pose proof (SELECT_project_check_owned user projectId w Howner) as Hown.
  pose proof (SELECT_project_details_found user projectId w Howner Huser)
    as Hdetails.
  set (env' := with_gateway settings sendMail absent env).
  destruct (SELECT_project_details projectId w) as [|[project u] rest] eqn:Hsel;
    [done|].
  rewrite (createInvitations_created env' user projectId chapterIds message
             readers expires circleName w project u)
    by (rewrite ?Hsel; done).
  rewrite (email_errors_when_all_fail env' message expires project _ _ e)
    by (intros req Hreq; by apply (gateway_cannot_send _ _ _ message)).
  cbn [fst snd reader_invitations with_mail_log with_invitations].
  eexists. split; [done|].
  split; [apply (new_rows_readers env')|].
  assert (length (new_rows env' user projectId chapterIds message expires
                    circleName readers 0 (reader_invitations w))
          = length readers) as Hlen
    by (eapply Forall2_length, new_rows_readers).
  by rewrite !length_fmap, Hlen.
Qed.

(** ** A reader whose name or address does not fit its column *)

Section too_long.
Context (env : Env) (user projectId : uuid) (chapterIds : list string)
  (message : option string) (expires : timestamp) (circleName : option string)
  (project : Project) (author : option string) (names : list string).

Local Abbreviation new_rows :=
  (new_rows env user projectId chapterIds message expires circleName).
Local Abbreviation mail_attempts :=
  (mail_attempts env message expires project author names).

Lemma INSERT_reader_invitation_too_long (accessToken : string) (r : Reader)
    (circle : string) (w : World) :
  Pg.varchar_null 255 (name r) = None \/ Pg.varchar_null 255 (email r) = None ->
  INSERT_reader_invitation env projectId user accessToken chapterIds message
    r expires circle w
  = (w, Thrown (Pg.too_long 255)).
Proof.
  intros Hlong. unfold INSERT_reader_invitation, bind, convert, ret, throw.
  destruct (Pg.varchar 255 accessToken); [|done].
  destruct (Pg.varchar_null 255 (name r)); [|done].
  destruct (Pg.varchar_null 255 (email r)); [|done].
  by destruct Hlong.
Qed.

Lemma invite_readers_too_long (pre : list Reader) (r : Reader)
    (post : list Reader) (k : nat) (invitations : list CreatedInvitation)
    (emailErrors : list EmailError) (w : World) :
  fits (circle_or_default env circleName) ->
  Forall reader_fits pre ->
  Pg.varchar_null 255 (name r) = None \/ Pg.varchar_null 255 (email r) = None ->
  fresh_tokens env k (length pre) w ->
  invite_readers env user projectId chapterIds message expires circleName
    project author names (pre ++ r :: post) k invitations emailErrors w
  = (with_mail_log (mail_log w ++ mail_attempts pre k)
       (with_invitations
          (reader_invitations w ++ new_rows pre k (reader_invitations w)) w),
     Thrown (Pg.too_long 255)).
Proof.
  intros Hcircle Hpre Hr. revert k invitations emailErrors w.
  induction Hpre as [|r0 pre Hr0 Hpre IH];
    intros k invitations emailErrors w Hfresh.
  - cbn [app length invite_readers new_rows mail_attempts].
    unfold bind at 1, catch at 1, bind at 1.
    rewrite INSERT_reader_invitation_too_long by done. unfold throw.
    rewrite !app_nil_r. by destruct w.
  - cbn [app length invite_readers new_rows mail_attempts].
    set (row := new_invitation_row _ _ _ _ _ _ _ _ _ _).
    set (req := invitation_email _ _ _ _ _ _ _).
    pose proof (fresh_tokens_next env row k (length pre) w
                  (mail_log w ++ [(req, deliver env req)]) eq_refl Hfresh)
      as Hnext.
    destruct Hfresh as (_ & Hall & Hfits).
    cbn [length seq fmap list_fmap] in Hall, Hfits.
    apply Forall_cons in Hall as [Hk _]. apply Forall_cons in Hfits as [Hfitk _].
    unfold bind at 1, catch at 1, bind at 1.
    rewrite (INSERT_reader_invitation_fits env) by done.
    rewrite bool_decide_eq_false_2 by done. cbn zeta. fold row.
    unfold bind, catch, sendReaderInvitation, ret, throw. fold req.
    cbn [reader_invitations mail_log with_invitations with_mail_log].
    destruct (deliver env req) as [e|] eqn:Hdel; cbn [fst snd];
      rewrite IH by exact Hnext;
      cbn [reader_invitations mail_log with_invitations with_mail_log
             users projects reader_sessions reader_markers];
      rewrite <- !app_assoc; by destruct w.
Qed.

End too_long.

Lemma createInvitations_too_long (env : Env) (user projectId : uuid)
    (chapterIds : list string) (message : option string) (pre : list Reader)
    (r : Reader) (post : list Reader) (expires : timestamp)
    (circleName : option string) (w : World) (project : Project) (u : User) :
  SELECT_project_check user projectId w <> [] ->
  (SELECT_active_count env projectId w + length (pre ++ r :: post) <= 15)%nat ->
  head (SELECT_project_details projectId w) = Some (project, u) ->
  fits (circle_or_default env circleName) ->
  Forall reader_fits pre ->
  Pg.varchar_null 255 (name r) = None \/ Pg.varchar_null 255 (email r) = None ->
  fresh_tokens env 0 (length pre) w ->
  createInvitations env user projectId chapterIds message (pre ++ r :: post)
    expires circleName w
  = (with_mail_log
       (mail_log w
          ++ mail_attempts env message expires project (author_name u)
               (chapter_names (default [] (pd_chapters (project_data project)))
                  chapterIds) pre 0)
       (with_invitations
          (reader_invitations w
             ++ new_rows env user projectId chapterIds message expires
                  circleName pre 0 (reader_invitations w)) w),
     status_json 500
       (BError "Failed to create invitations" (Some (Pg.too_long 255)))).
Proof.
  intros Hown Hquota Hdetails Hcircle Hpre Hr Hfresh.
  unfold createInvitations, route, bind at 1, query at 1.
  destruct (SELECT_project_check user projectId w) as [|p0 ps]; [done|].
  unfold bind at 1, when at 1. cbn [length bool_decide decide_rel].
  rewrite bool_decide_eq_false_2 by done.
  unfold ret at 1, bind at 1, query at 1.
  unfold bind at 1, when at 1.
  rewrite (proj2 (Nat.ltb_ge _ _)) by lia.
  unfold ret at 1, bind at 1, query at 1.
  destruct (SELECT_project_details projectId w) as [|[project' u'] rest]; [done|].
  injection Hdetails as -> ->.
  unfold bind at 1. by rewrite invite_readers_too_long by done.
Qed.

(** X21: a reader whose name or address the [VARCHAR(255)] column refuses
    (it has a character other than a space past the 255th) stops
    [POST /invitations] at that reader: the request ends with 500
    "Failed to create invitations" and the details "value too long for
    type character varying(255)"; the invitations of the readers before
    that one stay stored, in order, and their mails have been handed to
    the gateway, while that reader and the readers after it get
    nothing. *)
Theorem overlong_reader_stops_the_loop (env : Env)
    (user projectId : uuid) (chapterIds : list string)
    (message : option string) (pre : list Reader) (r : Reader)
    (post : list Reader) (expires : timestamp) (circleName : option string)
    (w : World) :
  (exists p, p ∈ projects w /\ p_project_id p = projectId /\ p_user_id p = user) ->
  (exists u, u ∈ users w /\ u_user_id u = user) ->
  (length (filter (fun ri => project_id ri = projectId
                             /\ (status ri = pending \/ status ri = accepted)
                             /\ (now env < expires_at ri)%Z)
             (reader_invitations w))
   + length (pre ++ r :: post) <= 15)%nat ->
  fits (Js.or_else circleName
          ("Draft Review - " +:+ toLocaleDateString env (now env))) ->
  Forall reader_fits pre ->
  overlong (name r) \/ overlong (email r) ->
  fresh_tokens env 0 (length pre) w ->
  let result :=
    createInvitations env user projectId chapterIds message (pre ++ r :: post)
      expires circleName w in
  result.2
  = status_json 500
      (BError "Failed to create invitations"
         (Some "value too long for type character varying(255)"))
  /\ exists rows attempts,
       reader_invitations result.1 = reader_invitations w ++ rows
       /\ mail_log result.1 = mail_log w ++ attempts
       /\ Forall2 (fun row rd =>
                     reader_name row = name rd /\ reader_email row = email rd
                     /\ project_id row = projectId /\ status row = pending)
            rows pre
       /\ Forall3 (fun a row rd =>
                     reader_email row = email rd
                     /\ readerEmail a.1 = email rd
                     /\ accessToken a.1 = access_token row
                     /\ a.2 = deliver env a.1)
            attempts rows pre.
Proof.
  intros Howner Huser Hquota Hcircle Hpre Hr Hfresh result. subst result.
  rewrite !overlong_refused in Hr.
  pose proof (SELECT_project_check_owned user projectId w Howner) as Hown.
  pose proof (SELECT_project_details_found user projectId w Howner Huser)
    as Hdetails.
  destruct (SELECT_project_details projectId w) as [|[project u] rest] eqn:Hsel;
    [done|].
  rewrite (createInvitations_too_long env user projectId chapterIds message
             pre r post expires circleName w project u)
    by (rewrite ?Hsel; done).
  cbn [fst snd reader_invitations mail_log with_mail_log with_invitations].
  split; [done|]. eexists _, _. split; [done|]. split; [done|]. split.
  - eapply Forall2_impl; [apply new_rows_readers|]. cbn. tauto.
  - apply mail_attempts_readers.
Qed.

(** ** A circle name that does not fit its column *)

Lemma INSERT_reader_invitation_circle_too_long (env : Env)
    (projectId user : uuid) (accessToken : string) (chapterIds : list string)
    (message : option string) (r : Reader) (expires : timestamp)
    (circle : string) (w : World) :
  Pg.varchar 255 circle = None ->
  INSERT_reader_invitation env projectId user accessToken chapterIds message
    r expires circle w
  = (w, Thrown (Pg.too_long 255)).
Proof.
  intros Hlong. unfold INSERT_reader_invitation, bind, convert, ret, throw.
  destruct (Pg.varchar 255 accessToken); [|done].
  destruct (Pg.varchar_null 255 (name r)); [|done].
  destruct (Pg.varchar_null 255 (email r)); [|done].
  by rewrite Hlong.
Qed.

Lemma overlong_circle_or_default (env : Env) (circleName : option string) :
  overlong circleName ->
  Pg.varchar 255 (circle_or_default env circleName) = None.
Proof.
  intros Hlong. pose proof Hlong as (s & i & c & -> & _ & Hget & _).
  apply overlong_refused in Hlong. cbn in Hlong.
  unfold circle_or_default, Js.or_else.
  rewrite bool_decide_eq_true_2 by (by destruct s).
  by destruct (Pg.varchar 255 s).
Qed.

(** X22: a circle name that the [VARCHAR(255)] column refuses (it has a
    character other than a space past the 255th) makes the first insert
    of [POST /invitations] fail: for a request with at least one reader
    that passes the ownership and quota checks, by a caller with a row in
    [users], the answer is 500 "Failed to create invitations" with the
    details "value too long for type character varying(255)", and the
    store is left as it is: no invitation, no mail. *)
Theorem overlong_circle_name_stores_nothing (env : Env)
    (user projectId : uuid) (chapterIds : list string)
    (message : option string) (r : Reader) (rest : list Reader)
    (expires : timestamp) (circleName : option string) (w : World) :
  (exists p, p ∈ projects w /\ p_project_id p = projectId /\ p_user_id p = user) ->
  (exists u, u ∈ users w /\ u_user_id u = user) ->
  (length (filter (fun ri => project_id ri = projectId
                             /\ (status ri = pending \/ status ri = accepted)
                             /\ (now env < expires_at ri)%Z)
             (reader_invitations w))
   + length (r :: rest) <= 15)%nat ->
  overlong circleName ->
  createInvitations env user projectId chapterIds message (r :: rest) expires
    circleName w
  = (w, status_json 500
          (BError "Failed to create invitations"
             (Some "value too long for type character varying(255)"))).
Proof.
  intros Howner Huser Hquota Hlong.
  pose proof (SELECT_project_check_owned user projectId w Howner) as Hown.
  pose proof (SELECT_project_details_found user projectId w Howner Huser)
    as Hdetails.
  unfold createInvitations, route, bind at 1, query at 1.
  destruct (SELECT_project_check user projectId w) as [|p0 ps]; [done|].
  unfold bind at 1, when at 1. cbn [length bool_decide decide_rel].
  rewrite bool_decide_eq_false_2 by done.
  unfold ret at 1, bind at 1, query at 1.
  unfold bind at 1, when at 1.
  change (SELECT_active_count env projectId w + length (r :: rest) <= 15)%nat
    in Hquota.
  rewrite (proj2 (Nat.ltb_ge _ _)) by (cbn [length] in Hquota |- *; lia).
  unfold ret at 1, bind at 1, query at 1.
  destruct (SELECT_project_details projectId w) as [|[project u] others];
    [done|].
  cbn [invite_readers]. unfold bind at 1, bind at 1, catch at 1, bind at 1.
  rewrite INSERT_reader_invitation_circle_too_long
    by (by apply overlong_circle_or_default).
  done.
Qed.

(** ** Sign-in tokens *)

(** X15: [login] as written in the controller never signs anybody in. It
    answers 400 "Invalid credentials" or 500 "Server error" and leaves the
    store as it was; with the right password of a stored account the answer
    is the 500, because the block reads [accessToken] before the [const]
    that declares it, so that the token service is never reached. *)
Theorem login_never_issues_tokens (env : Auth.Env)
    (email password : option string) (s : Auth.Store) :
  let result := Auth.login env email password s in
  result.1 = s
  /\ (result.2 = Auth.status_json 400 (Auth.error "Invalid credentials")
      \/ result.2 = Auth.status_json 500 (Auth.error "Server error"))
  /\ (forall user,
        head (Auth.SELECT_users_by_email email s) = Some user ->
        Auth.compare env password (Auth.password_hash user) = Auth.Returns true ->
        result.2 = Auth.status_json 500 (Auth.error "Server error")).
Proof.
  unfold Auth.login, Auth.route, Auth.bind, Auth.query. cbn zeta.
  destruct (Auth.SELECT_users_by_email email s) as [|user rest].
  { cbn. split; [done|]. split; [by left|]. intros ? [=]. }
  destruct (Auth.compare env password (Auth.password_hash user)) as [[]|e] eqn:Hc;
    cbn; (split; [done|]); (split; [by auto|]); intros ? [= <-]; rewrite Hc;
    by intros [=].
Qed.

Lemma generateRefreshToken_run (env : Auth.Env) (user : Auth.Account)
    (s : Auth.Store) :
  let uid := Auth.user_id user in
  let others := filter (fun r => Auth.rt_user_id r <> uid) (Auth.refresh_tokens s) in
  Auth.generateRefreshToken env user s
  = if bool_decide (uid ∈ Auth.user_id <$> Auth.users s
                    /\ (Auth.uuidv4 env ∉ Auth.token <$> others))
    then (Auth.with_refresh_tokens
            (others
               ++ [ {| Auth.token_id := gen_random_uuid (Auth.token_id <$> others);
                       Auth.rt_user_id := uid; Auth.token := Auth.uuidv4 env;
                       Auth.expires_at := Auth.plus_seven_days env (Auth.now env);
                       Auth.created_at := Auth.now env |} ]) s,
          Auth.Value (Auth.uuidv4 env))
    else (Auth.with_refresh_tokens others s,
          Auth.Thrown "Could not generate refresh token.").
Proof.
  intros uid others.
  unfold Auth.generateRefreshToken, Auth.catch, Auth.bind, Auth.exec,
    Auth.INSERT_refresh_token, Auth.DELETE_tokens_of, Auth.ret, Auth.throw.
  cbn [Auth.users Auth.refresh_tokens Auth.with_refresh_tokens].
  fold uid. fold others.
  destruct (decide (uid ∈ Auth.user_id <$> Auth.users s)) as [Hin|Hout].
  - rewrite (bool_decide_eq_false_2 (uid ∉ _)) by tauto.
    destruct (decide (Auth.uuidv4 env ∈ Auth.token <$> others)) as [Hdup|Hfresh].
    + rewrite (bool_decide_eq_true_2 (Auth.uuidv4 env ∈ _)) by done.
      by rewrite bool_decide_eq_false_2 by tauto.
    + rewrite (bool_decide_eq_false_2 (Auth.uuidv4 env ∈ _)) by done.
      by rewrite bool_decide_eq_true_2 by tauto.
  - rewrite (bool_decide_eq_true_2 (uid ∉ _)) by done.
    by rewrite bool_decide_eq_false_2 by tauto.
Qed.

Lemma filter_filter_not {A} (P : A -> Prop) `{!forall x, Decision (P x)}
    (l : list A) :
  filter P (filter (fun x => ~ P x) l) = [].
Proof.
  induction l as [|x l IH]; [done|].
  rewrite (filter_cons (fun x => ~ P x)). destruct (decide (~ P x)) as [Hn|Hp].
  - by rewrite filter_cons, decide_False.
  - done.
Qed.

Lemma filter_none {A} (P : A -> Prop) `{!forall x, Decision (P x)}
    (l : list A) :
  (forall x, x ∈ l -> ~ P x) -> filter P l = [].
Proof.
  induction l as [|x l IH]; [done|]. intros Hno.
  rewrite filter_cons, decide_False by (apply Hno; left).
  apply IH. intros y Hy. apply Hno. by right.
Qed.

Lemma filter_idemp' {A} (P : A -> Prop) `{!forall x, Decision (P x)}
    (l : list A) :
  filter P (filter P l) = filter P l.
Proof.
  induction l as [|x l IH]; [done|].
  rewrite (filter_cons P x l). destruct (decide (P x)) as [Hp|Hn]; [|done].
  by rewrite filter_cons, decide_True, IH.
Qed.

(** X16: [generateRefreshToken] replaces the refresh tokens of the user:
    when the account is stored and the identifier drawn is not the token of
    another user, it returns that identifier, and afterwards the user holds
    exactly one refresh token, the new one, which expires seven days
    later; the tokens of all other users are stored as before. A clash
    with one of the user's own old tokens does not matter, since they are
    deleted first. *)
Theorem generateRefreshToken_leaves_one_token (env : Auth.Env)
    (user : Auth.Account) (s : Auth.Store) :
  let uid := Auth.user_id user in
  let others := filter (fun r => Auth.rt_user_id r <> uid) (Auth.refresh_tokens s) in
  user ∈ Auth.users s ->
  Auth.uuidv4 env ∉ Auth.token <$> others ->
  let result := Auth.generateRefreshToken env user s in
  result.2 = Auth.Value (Auth.uuidv4 env)
  /\ Auth.users result.1 = Auth.users s
  /\ filter (fun r => Auth.rt_user_id r <> uid) (Auth.refresh_tokens result.1)
     = others
  /\ exists row,
       Auth.tokens_of uid result.1 = [row]
       /\ Auth.token row = Auth.uuidv4 env
       /\ Auth.expires_at row = Auth.plus_seven_days env (Auth.now env)
       /\ Auth.token_id row ∉ Auth.token_id <$> others.
Proof.
  intros uid others Huser Hfresh result. subst result.
  rewrite generateRefreshToken_run. fold uid. fold others.
  rewrite bool_decide_eq_true_2
    by (split; [by apply list_elem_of_fmap_2|done]).
  cbn [fst snd Auth.users Auth.refresh_tokens Auth.with_refresh_tokens].
  split; [done|]. split; [done|]. split.
  - rewrite filter_app, filter_cons, decide_False by (cbn; tauto).
    unfold others. rewrite filter_idemp'. by rewrite app_nil_r.
  - eexists. unfold Auth.tokens_of.
    cbn [Auth.refresh_tokens Auth.with_refresh_tokens].
    rewrite filter_app, filter_cons, decide_True by done.
    unfold others at 1.
    rewrite (filter_filter_not (fun r => Auth.rt_user_id r = uid)).
    split; [done|]. cbn. split; [done|]. split; [done|].
    intros Hin. apply list_elem_of_fmap in Hin as (r & Hid & Hr).
    assert (Auth.token_id r <= foldr N.max 0 (Auth.token_id <$> others))%N
      as Hle.
    { apply list_elem_of_fmap_2 with (f := Auth.token_id) in Hr.
      revert Hr. generalize (Auth.token_id r) (Auth.token_id <$> others).
      intros k ks. induction ks as [|k' ks IH]; [by intros ?%elem_of_nil|].
      intros [->|Hk]%elem_of_cons; cbn; [lia|]. specialize (IH Hk). lia. }
    unfold gen_random_uuid in Hid. lia.
Qed.

(** X17: the two statements of [generateRefreshToken] are not one
    transaction. When the insert fails, because the identifier drawn is
    already the token of another user or because the account is not
    stored, the function throws "Could not generate refresh token." and
    the user is left without any refresh token: the old ones are already
    deleted. The tokens of the other users are stored as before. *)
Theorem generateRefreshToken_failure_drops_old_tokens (env : Auth.Env)
    (user : Auth.Account) (s : Auth.Store) :
  let uid := Auth.user_id user in
  let others := filter (fun r => Auth.rt_user_id r <> uid) (Auth.refresh_tokens s) in
  uid ∉ Auth.user_id <$> Auth.users s \/ Auth.uuidv4 env ∈ Auth.token <$> others ->
  let result := Auth.generateRefreshToken env user s in
  result.2 = Auth.Thrown "Could not generate refresh token."
  /\ Auth.users result.1 = Auth.users s
  /\ Auth.tokens_of uid result.1 = []
  /\ Auth.refresh_tokens result.1 = others.
Proof.
  intros uid others Hwhy result. subst result.
  rewrite generateRefreshToken_run. fold uid. fold others.
  rewrite bool_decide_eq_false_2 by tauto.
  cbn [fst snd Auth.users Auth.refresh_tokens Auth.with_refresh_tokens].
  split; [done|]. split; [done|]. split; [|done].
  unfold Auth.tokens_of. cbn [Auth.refresh_tokens Auth.with_refresh_tokens].
  apply (filter_filter_not (fun r => Auth.rt_user_id r = uid)).
Qed.

Lemma refresh_run (env : Auth.Env) (t : option string) (s : Auth.Store) :
  Auth.refresh env t s
  = (s,
     if negb (Js.truthy t) then Auth.sendStatus 401
     else
       match head (Auth.SELECT_refresh_tokens t s) with
       | None => Auth.sendStatus 403
       | Some storedToken =>
           if bool_decide (Auth.expires_at storedToken < Auth.now env)
           then Auth.sendStatus 403
           else
             match head (Auth.SELECT_users_by_id
                           (Auth.rt_user_id storedToken) s) with
             | None => Auth.sendStatus 403
             | Some user =>
                 match Auth.generateAccessToken env user with
                 | Auth.Returns a => Auth.json (Auth.access a)
                 | Auth.Throws _ =>
                     Auth.status_json 500
                       (Auth.message "Server error during token refresh")
                 end
             end
       end).
Proof.
  unfold Auth.refresh, Auth.route.
  destruct (negb (Js.truthy t)); [done|].
  unfold Auth.bind at 1, Auth.query at 1.
  destruct (head (Auth.SELECT_refresh_tokens t s)) as [row|]; [|done].
  destruct (bool_decide (Auth.expires_at row < Auth.now env)); [done|].
  unfold Auth.bind at 1, Auth.query at 1.
  destruct (head (Auth.SELECT_users_by_id (Auth.rt_user_id row) s))
    as [user|]; [|done].
  unfold Auth.bind, Auth.call.
  by destruct (Auth.generateAccessToken env user).
Qed.

(** X18: [refresh] only reads. It never changes the store, and it answers
    with an access token only for a non-empty refresh token that is stored
    with an expiry date not before the current time and whose user is
    stored; the token is then the one signed for that user. *)
Theorem refresh_reads_only_and_needs_a_live_token (env : Auth.Env)
    (t : option string) (s : Auth.Store) :
  (Auth.refresh env t s).1 = s
  /\ forall a,
       (Auth.refresh env t s).2 = Auth.status_json 200 (Auth.access a) ->
       exists tok row user,
         t = Some tok /\ tok <> ""
         /\ row ∈ Auth.refresh_tokens s /\ Auth.token row = tok
         /\ Auth.now env <= Auth.expires_at row
         /\ user ∈ Auth.users s /\ Auth.user_id user = Auth.rt_user_id row
         /\ Auth.generateAccessToken env user = Auth.Returns a.
Proof.
  rewrite refresh_run. cbn [fst snd]. split; [done|]. intros a.
  destruct t as [tok|]; [|done]. cbn [Js.truthy].
  destruct (decide (tok = "")) as [->|Hne]; [done|].
  rewrite bool_decide_eq_true_2 by done. cbn [negb].
  destruct (head (Auth.SELECT_refresh_tokens (Some tok) s)) as [row|] eqn:Hrow;
    [|done].
  destruct (decide (Auth.expires_at row < Auth.now env)) as [Hexp|Hlive].
  { by rewrite bool_decide_eq_true_2. }
  rewrite bool_decide_eq_false_2 by done.
  destruct (head (Auth.SELECT_users_by_id (Auth.rt_user_id row) s))
    as [user|] eqn:Huser; [|done].
  destruct (Auth.generateAccessToken env user) as [a'|e] eqn:Hsign; [|done].
  intros [= <-]. exists tok, row, user.
  apply head_Some_elem_of, list_elem_of_filter in Hrow as [Htok Hin].
  apply head_Some_elem_of, list_elem_of_filter in Huser as [Hid Hu].
  repeat split; try done. lia.
Qed.

Lemma filter_after_delete (t t' : string) (l : list Auth.RefreshToken) :
  filter (fun r => Auth.token r = t')
    (filter (fun r => Auth.token r <> t) l)
  = if decide (t' = t) then [] else filter (fun r => Auth.token r = t') l.
Proof.
  destruct (decide (t' = t)) as [->|Hne].
  - apply (filter_filter_not (fun r => Auth.token r = t)).
  - induction l as [|r l IH]; [done|].
    rewrite (filter_cons (fun r => Auth.token r <> t)).
    destruct (decide (Auth.token r <> t)) as [Hkeep|Hdrop].
    + by rewrite !filter_cons, IH.
    + rewrite IH, filter_cons. rewrite decide_False; [done|].
      intros <-. tauto.
Qed.

(** X19: [logout] withdraws exactly the refresh token it is given. It
    always answers 204; a later [refresh] with that token is answered 403;
    a [refresh] with any other token is answered as it would have been
    without the logout. *)
Theorem logout_withdraws_the_token (env : Auth.Env) (t : string)
    (s : Auth.Store) :
  t <> "" ->
  let result := Auth.logout (Some t) s in
  result.2 = Auth.sendStatus 204
  /\ Auth.refresh env (Some t) result.1 = (result.1, Auth.sendStatus 403)
  /\ forall t', t' <> Some t ->
       (Auth.refresh env t' result.1).2 = (Auth.refresh env t' s).2.
Proof.
  intros Hne result. subst result.
  unfold Auth.logout, Auth.route, Auth.bind, Auth.exec, Auth.ret.
  cbn [fst snd]. split; [done|]. rewrite !refresh_run. split.
  - f_equal. cbn [Js.truthy]. rewrite bool_decide_eq_true_2 by done.
    cbn [negb Auth.SELECT_refresh_tokens Auth.DELETE_refresh_token
         Auth.refresh_tokens Auth.with_refresh_tokens].
    by rewrite filter_after_delete, decide_True.
  - intros t' Ht'. rewrite !refresh_run. cbn [snd].
    destruct t' as [t'|]; [|done].
    cbn [Auth.SELECT_refresh_tokens Auth.DELETE_refresh_token
         Auth.refresh_tokens Auth.with_refresh_tokens].
    rewrite filter_after_delete, decide_False by congruence.
    done.
Qed.

(** X20: the token that [generateRefreshToken] returns is accepted by
    [refresh] until its expiry date: when the account is the stored one of
    its key, the identifier drawn is not empty and not the token of
    another user, a [refresh] with the returned token at any time up to
    seven days later leaves the store as it is and answers with the access
    token signed for that account (or 500 when signing throws). *)
Theorem new_refresh_token_is_accepted (env env' : Auth.Env)
    (user : Auth.Account) (s : Auth.Store) :
  let uid := Auth.user_id user in
  let others := filter (fun r => Auth.rt_user_id r <> uid) (Auth.refresh_tokens s) in
  head (Auth.SELECT_users_by_id uid s) = Some user ->
  Auth.uuidv4 env <> "" ->
  Auth.uuidv4 env ∉ Auth.token <$> others ->
  Auth.now env' <= Auth.plus_seven_days env (Auth.now env) ->
  let s' := (Auth.generateRefreshToken env user s).1 in
  Auth.refresh env' (Some (Auth.uuidv4 env)) s'
  = (s',
     match Auth.generateAccessToken env' user with
     | Auth.Returns a => Auth.status_json 200 (Auth.access a)
     | Auth.Throws _ =>
         Auth.status_json 500 (Auth.message "Server error during token refresh")
     end).
Proof.
  intros uid others Huser Hne Hfresh Hlive s'. subst s'.
  assert (user ∈ Auth.users s) as Hin.
  { by apply head_Some_elem_of, list_elem_of_filter in Huser as [_ ?]. }
  rewrite generateRefreshToken_run. fold uid. fold others.
  rewrite bool_decide_eq_true_2
    by (split; [by apply list_elem_of_fmap_2|done]).
  cbn [fst]. rewrite refresh_run. f_equal.
  cbn [Js.truthy]. rewrite bool_decide_eq_true_2 by done.
  cbn [negb Auth.SELECT_refresh_tokens Auth.refresh_tokens
       Auth.with_refresh_tokens].
  rewrite filter_app, filter_cons, decide_True by done.
  assert (filter (fun r => Auth.token r = Auth.uuidv4 env) others = [])
    as ->.
  { apply filter_none. intros r Hr Htok. apply Hfresh.
    rewrite <- Htok. by apply list_elem_of_fmap_2. }
  cbn [app head Auth.expires_at Auth.rt_user_id].
  rewrite bool_decide_eq_false_2 by lia.
  unfold Auth.SELECT_users_by_id in *.
  cbn [Auth.users Auth.with_refresh_tokens]. fold uid. by rewrite Huser.
Qed.

(** ** The properties above on the sample store *)

Lemma revokeInvitation_is_unconditional_witness :
  reader_invitations Sample.store !! 0%nat = Some Sample.waiting
  /\ reader_invitations
       (revokeInvitation (Sample.at_time 5) 1%N 100%N Sample.store).1 !! 0%nat
     = Some (set_updated_at 5 (set_status revoked Sample.waiting))
  /\ reader_invitations
       (revokeInvitation (Sample.at_time 5) 1%N 100%N Sample.store).1 !! 1%nat
     = Some Sample.withdrawn
  /\ revokeInvitation (Sample.at_time 5) 2%N 100%N Sample.store
     = (Sample.store,
        status_json 404 (BError "Invitation not found or unauthorized" None)).
Proof.
  assert (reader_invitations Sample.store !! 0%nat = Some Sample.waiting)
    as Hrow by reflexivity.
  split; [exact Hrow|].
  pose proof (revokeInvitation_is_unconditional (Sample.at_time 5) 1%N 100%N
                Sample.store) as Hmine.
  pose proof (revokeInvitation_is_unconditional (Sample.at_time 5) 2%N 100%N
                Sample.store) as Hother.
  cbv zeta in Hmine, Hother.
  destruct Hmine as (Hrows & _). destruct Hother as (_ & _ & _ & Hnone).
  split; [|split].
  - apply (Hrows 0%nat Sample.waiting Hrow). by split.
  - apply (Hrows 1%nat Sample.withdrawn); [reflexivity|]. cbn. intros [[=] _].
  - apply Hnone. intros Hex. apply Exists_exists in Hex as (ri & Hin & _ & Hu).
    revert Hin Hu. cbn. rewrite !elem_of_cons, elem_of_nil.
    intros [->|[->|[->|[]]]]; cbn; discriminate.
Defined.

Lemma revoked_reader_is_locked_out_witness :
  head (SELECT_access "tok-accepted" Sample.store)
  = Some (Sample.reading, Sample.book)
  /\ head (SELECT_invitation "tok-accepted" Sample.store) = Some Sample.reading
  /\ user_id Sample.reading = 1%N
  /\ 7 <= expires_at Sample.reading
  /\ let revoked_ :=
       revokeInvitation (Sample.at_time 5) 1%N (ri_id Sample.reading)
         Sample.store in
     revoked_.2
     = status_json 200 (BMessage "Invitation revoked successfully" None)
     /\ resolveAccess (Sample.at_time 7) "tok-accepted" revoked_.1
        = (revoked_.1, status_json 403 (BError "Access has been revoked" None))
     /\ createMarker (Sample.at_time 7) "tok-accepted" (Some "B") (Some "b1")
          (Some "m-2") (Some note) (Some "Nice") None "{}" revoked_.1
        = (revoked_.1,
           status_json 403 (BError "Access expired or revoked" None)).
Proof.
  assert (head (SELECT_access "tok-accepted" Sample.store)
          = Some (Sample.reading, Sample.book)) as Hsel by reflexivity.
  assert (head (SELECT_invitation "tok-accepted" Sample.store)
          = Some Sample.reading) as Hinv by reflexivity.
  assert (user_id Sample.reading = 1%N) as Huser by reflexivity.
  assert (now (Sample.at_time 7) <= expires_at Sample.reading) as Hexp
    by (cbn; lia).
  split; [exact Hsel|]. split; [exact Hinv|]. split; [exact Huser|].
  split; [exact Hexp|].
  exact (revoked_reader_is_locked_out (Sample.at_time 5) (Sample.at_time 7)
           1%N "tok-accepted" (Some "B") (Some "b1") (Some "m-2") (Some note)
           (Some "Nice") None "{}"
           Sample.store Sample.reading Sample.book Hsel Hinv Huser Hexp).
Defined.

Lemma revoking_frees_a_place_witness :
  NoDup (ri_id <$> reader_invitations Sample.store)
  /\ reader_invitations Sample.store !! 2%nat = Some Sample.reading
  /\ user_id Sample.reading = 1%N
  /\ (status Sample.reading = pending \/ status Sample.reading = accepted)
  /\ 7 < expires_at Sample.reading
  /\ (SELECT_active_count (Sample.at_time 7) 10%N
        (revokeInvitation (Sample.at_time 5) 1%N 102%N Sample.store).1 + 1)%nat
     = SELECT_active_count (Sample.at_time 7) 10%N Sample.store.
Proof.
  assert (NoDup (ri_id <$> reader_invitations Sample.store)) as Hkey
    by by_evaluation.
  assert (reader_invitations Sample.store !! 2%nat = Some Sample.reading)
    as Hrow by reflexivity.
  assert (user_id Sample.reading = 1%N) as Huser by reflexivity.
  assert (status Sample.reading = pending \/ status Sample.reading = accepted)
    as Hst by (right; reflexivity).
  assert (now (Sample.at_time 7) < expires_at Sample.reading) as Hexp
    by (cbn; lia).
  split; [exact Hkey|]. split; [exact Hrow|]. split; [exact Huser|].
  split; [exact Hst|]. split; [exact Hexp|].
  exact (revoking_frees_a_place (Sample.at_time 5) (Sample.at_time 7) 1%N
           Sample.store 2 Sample.reading Hkey Hrow Huser Hst Hexp).
Defined.

Lemma unknown_token_is_inert_witness :
  SELECT_invitation "tok-unknown" Sample.store = []
  /\ resolveAccess (Sample.at_time 5) "tok-unknown" Sample.store
     = (Sample.store, status_json 404 (BError "Invalid access token" None))
  /\ deleteMarker (Sample.at_time 5) 500%N "tok-unknown" Sample.store
     = (Sample.store,
        status_json 404 (BError "Marker not found or unauthorized" None))
  /\ getMyMarkers "tok-unknown" Sample.store = (Sample.store, Value []).
Proof.
  assert (SELECT_invitation "tok-unknown" Sample.store = []) as Hnone
    by reflexivity.
  split; [exact Hnone|].
  pose proof (unknown_token_is_inert (Sample.at_time 5) "tok-unknown" (Some "B")
                (Some "b1") (Some "m-2") (Some note) (Some "Nice") None "{}" (Some "B") (Some 40)
                (Some "text") 500%N Sample.store Hnone) as H.
  cbv zeta in H. destruct H as (Ha & _ & _ & _ & _ & Hd & _ & Hm).
  split; [exact Ha|]. split; [exact Hd|exact Hm].
Defined.

Lemma first_access_accepts_once_witness :
  head (SELECT_access "tok-pending" Sample.store)
  = Some (Sample.waiting, Sample.book)
  /\ status Sample.waiting = pending
  /\ 5 <= expires_at Sample.waiting
  /\ 9 <= expires_at Sample.waiting
  /\ let first := resolveAccess (Sample.at_time 5) "tok-pending" Sample.store in
     let second := resolveAccess (Sample.at_time 9) "tok-pending" first.1 in
     head (SELECT_access "tok-pending" first.1)
     = Some (accepted_now (Sample.at_time 5) Sample.waiting, Sample.book)
     /\ status (accepted_now (Sample.at_time 5) Sample.waiting) = accepted
     /\ accepted_at (accepted_now (Sample.at_time 5) Sample.waiting) = Some 5
     /\ v_status <$> view_of first.2 = Some pending
     /\ reader_invitations second.1 = reader_invitations first.1
     /\ v_status <$> view_of second.2 = Some accepted.
Proof.
  assert (head (SELECT_access "tok-pending" Sample.store)
          = Some (Sample.waiting, Sample.book)) as Hsel by reflexivity.
  assert (status Sample.waiting = pending) as Hst by reflexivity.
  assert (now (Sample.at_time 5) <= expires_at Sample.waiting) as Hexp1
    by (cbn; lia).
  assert (now (Sample.at_time 9) <= expires_at Sample.waiting) as Hexp2
    by (cbn; lia).
  split; [exact Hsel|]. split; [exact Hst|]. split; [exact Hexp1|].
  split; [exact Hexp2|].
  exact (first_access_accepts_once (Sample.at_time 5) (Sample.at_time 9)
           "tok-pending" Sample.store Sample.waiting Sample.book
           Hsel Hst Hexp1 Hexp2).
Defined.

Lemma session_is_created_once_witness :
  head (SELECT_access "tok-pending" Sample.store)
  = Some (Sample.waiting, Sample.book)
  /\ status Sample.waiting <> revoked
  /\ 5 <= expires_at Sample.waiting
  /\ 9 <= expires_at Sample.waiting
  /\ sessions_of (ri_id Sample.waiting) Sample.store = []
  /\ let first := resolveAccess (Sample.at_time 5) "tok-pending" Sample.store in
     let second := resolveAccess (Sample.at_time 9) "tok-pending" first.1 in
     exists s,
       session_of first.2 = Some s
       /\ rs_invitation_id s = 100%N
       /\ reader_sessions first.1 = reader_sessions Sample.store ++ [s]
       /\ rs_created_at s = 5
       /\ reader_sessions second.1 = reader_sessions first.1
       /\ session_of second.2 = Some s.
Proof.
  assert (head (SELECT_access "tok-pending" Sample.store)
          = Some (Sample.waiting, Sample.book)) as Hsel by reflexivity.
  assert (status Sample.waiting <> revoked) as Hst by (cbn; discriminate).
  assert (now (Sample.at_time 5) <= expires_at Sample.waiting) as Hexp1
    by (cbn; lia).
  assert (now (Sample.at_time 9) <= expires_at Sample.waiting) as Hexp2
    by (cbn; lia).
  assert (sessions_of (ri_id Sample.waiting) Sample.store = []) as Hnone
    by reflexivity.
  split; [exact Hsel|]. split; [exact Hst|]. split; [exact Hexp1|].
  split; [exact Hexp2|]. split; [exact Hnone|].
  pose proof (session_is_created_once (Sample.at_time 5) (Sample.at_time 9)
                "tok-pending" Sample.store Sample.waiting Sample.book
                Hsel Hst Hexp1 Hexp2) as H.
  cbv zeta in H. destruct H as (s & Hs & Hid & Hnew & _ & Hsame & Hs').
  destruct (Hnew Hnone) as (Hrows & _ & _ & _ & _ & Hat).
  cbv zeta. exists s. split; [exact Hs|]. split; [exact Hid|].
  split; [exact Hrows|]. split; [exact Hat|]. split; [exact Hsame|exact Hs'].
Defined.

Lemma updateMarker_needs_the_owning_token_witness :
  reader_markers Sample.store !! 0%nat = Some Sample.remark
  /\ reader_markers
       (updateMarker (Sample.at_time 5) 500%N "tok-accepted" (Some "Edited")
          Sample.store).1 !! 0%nat
     = Some (set_m_updated_at 5 (set_marker_text (Some "Edited") Sample.remark))
  /\ updateMarker (Sample.at_time 5) 500%N "tok-pending" (Some "Edited")
       Sample.store
     = (Sample.store,
        status_json 404 (BError "Marker not found or unauthorized" None)).
Proof.
  assert (reader_markers Sample.store !! 0%nat = Some Sample.remark) as Hrow
    by reflexivity.
  split; [exact Hrow|].
  pose proof (updateMarker_needs_the_owning_token (Sample.at_time 5) 500%N
                "tok-accepted" (Some "Edited") Sample.store) as Hmine.
  pose proof (updateMarker_needs_the_owning_token (Sample.at_time 5) 500%N
                "tok-pending" (Some "Edited") Sample.store) as Hother.
  cbv zeta in Hmine, Hother.
  destruct Hmine as (Hrows & _). destruct Hother as (_ & _ & _ & _ & _ & Hnone).
  split.
  - apply (Hrows 0%nat Sample.remark Hrow). split; [reflexivity|].
    exists Sample.reading. split; [|by split].
    cbn. rewrite !elem_of_cons. auto.
  - apply Hnone. intros (rm & Hin & _ & ri & Hri & Hlink & Htok).
    revert Hin Hri Hlink Htok. cbn. rewrite !elem_of_cons, !elem_of_nil.
    intros [->|[]] [->|[->|[->|[]]]]; cbn; discriminate.
Defined.

Lemma deleteMarker_removes_own_markers_only_witness :
  Sample.remark ∈ reader_markers Sample.store
  /\ (deleteMarker (Sample.at_time 5) 500%N "tok-accepted" Sample.store).2
     = json (BMessage "Marker deleted successfully" None)
  /\ (Sample.remark
        ∉ reader_markers
            (deleteMarker (Sample.at_time 5) 500%N "tok-accepted" Sample.store).1)
  /\ deleteMarker (Sample.at_time 6) 500%N "tok-accepted"
       (deleteMarker (Sample.at_time 5) 500%N "tok-accepted" Sample.store).1
     = ((deleteMarker (Sample.at_time 5) 500%N "tok-accepted" Sample.store).1,
        status_json 404 (BError "Marker not found or unauthorized" None)).
Proof.
  assert (Sample.remark ∈ reader_markers Sample.store) as Hin
    by (cbn; rewrite !elem_of_cons; auto).
  split; [exact Hin|].
  pose proof (deleteMarker_removes_own_markers_only (Sample.at_time 5)
                (Sample.at_time 6) 500%N "tok-accepted" Sample.store) as H.
  cbv zeta in H. destruct H as (Hrows & _ & _ & _ & Hfound & _ & Hagain).
  assert (Sample.remark.(rm_id) = 500%N
          /\ exists ri, ri ∈ reader_invitations Sample.store
                        /\ ri_id ri = rm_invitation_id Sample.remark
                        /\ access_token ri = "tok-accepted") as Hown.
  { split; [reflexivity|]. exists Sample.reading. split; [|by split].
    cbn. rewrite !elem_of_cons. auto. }
  split; [|split].
  - apply Hfound. by exists Sample.remark.
  - intros Hstill. apply Hrows in Hstill as [_ Hnot]. by apply Hnot.
  - exact Hagain.
Defined.

Lemma accepted_marker_is_listed_witness :
  head (SELECT_invitation "tok-accepted" Sample.store) = Some Sample.reading
  /\ status Sample.reading <> revoked
  /\ 5 <= expires_at Sample.reading
  /\ fits "B" /\ fits "b2" /\ fits "m-2"
  /\ let result :=
       createMarker (Sample.at_time 5) "tok-accepted" (Some "B") (Some "b2")
         (Some "m-2") (Some note) (Some "Nice") None "{}" Sample.store in
     exists m mine theirs,
       result.2 = status_json 201 (BMarker (Some m))
       /\ chapter_id m = "B" /\ marker_text m = Some "Nice"
       /\ getMyMarkers "tok-accepted" result.1 = (result.1, Value mine)
       /\ m ∈ mine /\ Sample.remark ∈ mine
       /\ getMarkers 1%N 102%N result.1 = (result.1, Value theirs)
       /\ (m, Some "Bob") ∈ theirs.
Proof.
  assert (head (SELECT_invitation "tok-accepted" Sample.store)
          = Some Sample.reading) as Hinv by reflexivity.
  assert (status Sample.reading <> revoked) as Hst by (cbn; discriminate).
  assert (now (Sample.at_time 5) <= expires_at Sample.reading) as Hexp
    by (cbn; lia).
  assert (fits "B") as Hc by by_evaluation.
  assert (fits "b2") as Hs by by_evaluation.
  assert (fits "m-2") as Hi by by_evaluation.
  split; [exact Hinv|]. split; [exact Hst|]. split; [exact Hexp|].
  split; [exact Hc|]. split; [exact Hs|]. split; [exact Hi|].
  pose proof (accepted_marker_is_listed (Sample.at_time 5) 1%N "tok-accepted"
                "B" "b2" "m-2" (Some note) (Some "Nice") None "{}" Sample.store
                Sample.reading Hinv Hst Hexp Hc Hs Hi) as H.
  cbv zeta in H.
  destruct H as (m & mine & Hresp & _ & Hchapter & _ & _ & Htext & Hmine & Hm
                 & Hold & _ & Hauthor).
  destruct Hauthor as (theirs & Htheirs & Hrow & _).
  { exists Sample.book. split; [|by split]. cbn. rewrite !elem_of_cons. auto. }
  cbv zeta. exists m, mine, theirs.
  split; [exact Hresp|]. split; [exact Hchapter|]. split; [exact Htext|].
  split; [exact Hmine|]. split; [exact Hm|].
  split; [|split; [exact Htheirs|exact Hrow]].
  apply Hold. vm_compute. constructor.
Defined.

Lemma notes_are_read_back_witness :
  NoDup (access_token <$> reader_invitations Sample.store)
  /\ head (SELECT_invitation "tok-revoked" Sample.store) = Some Sample.withdrawn
  /\ sessions_of (ri_id Sample.withdrawn) Sample.store <> []
  /\ let noted :=
       updateNotes (Sample.at_time 5) "tok-revoked" (Some "Chapter B drags")
         Sample.store in
     noted.2 = json (BNotes "Chapter B drags")
     /\ getNotes "tok-revoked" noted.1 = (noted.1, json (BNotes "Chapter B drags")).
Proof.
  assert (NoDup (access_token <$> reader_invitations Sample.store)) as Hkey
    by by_evaluation.
  assert (head (SELECT_invitation "tok-revoked" Sample.store)
          = Some Sample.withdrawn) as Hinv by reflexivity.
  assert (sessions_of (ri_id Sample.withdrawn) Sample.store <> []) as Hsome
    by (vm_compute; discriminate).
  split; [exact Hkey|]. split; [exact Hinv|]. split; [exact Hsome|].
  pose proof (notes_are_read_back (Sample.at_time 5) "tok-revoked"
                (Some "Chapter B drags") Sample.store Sample.withdrawn
                Hkey Hinv) as H.
  cbv zeta in H. destruct H as (Hwith & _). exact (Hwith Hsome).
Defined.

Lemma getInvitations_lists_own_projects_witness :
  exists listing,
    getInvitations 1%N (one_project 10%N) Sample.store
    = (Sample.store, Value listing)
    /\ listed Sample.store (Sample.waiting, Sample.book) ∈ listing
    /\ getInvitations 2%N all_projects Sample.store = (Sample.store, Value []).
Proof.
  destruct (getInvitations_lists_own_projects 1%N (one_project 10%N)
              Sample.store) as (listing & Hrun & _ & Hin & _).
  destruct (getInvitations_lists_own_projects 2%N all_projects Sample.store)
    as (nothing & Hrun' & _ & Hin' & _).
  exists listing. split; [exact Hrun|]. split.
  - apply Hin. exists Sample.waiting, Sample.book.
    cbn. rewrite !elem_of_cons. repeat split; auto.
  - rewrite Hrun'. destruct nothing as [|li rest]; [done|].
    destruct (proj1 (Hin' li)) as (ri & p & _ & Hp & _ & Hu & _); [by left|].
    revert Hp Hu. cbn. rewrite !elem_of_cons, elem_of_nil.
    intros [->|[]]. discriminate.
Defined.

Lemma createInvitations_edge_cases_witness :
  SELECT_project_check 2%N 10%N Sample.store = []
  /\ createInvitations (Sample.at_time 5) 2%N 10%N ["B"] (Some "Hi")
       [Sample.dave] 900 None Sample.store
     = (Sample.store,
        status_json 404 (BError "Project not found or unauthorized" None))
  /\ SELECT_project_check 1%N 10%N Sample.store <> []
  /\ (SELECT_active_count (Sample.at_time 5) 10%N Sample.store <= 15)%nat
  /\ SELECT_project_details 10%N Sample.store <> []
  /\ createInvitations (Sample.at_time 5) 1%N 10%N ["B"] (Some "Hi") [] 900
       None Sample.store
     = (Sample.store,
        status_json 201
          (BCreated [] None "0 invitation(s) created and sent successfully")).
Proof.
  assert (SELECT_project_check 2%N 10%N Sample.store = []) as Hnone
    by reflexivity.
  assert (SELECT_project_check 1%N 10%N Sample.store <> []) as Hown
    by (vm_compute; discriminate).
  assert (SELECT_active_count (Sample.at_time 5) 10%N Sample.store <= 15)%nat
    as Hquota by by_evaluation.
  assert (SELECT_project_details 10%N Sample.store <> []) as Hdetails
    by (vm_compute; discriminate).
  split; [exact Hnone|].
  split.
  { exact (proj1 (createInvitations_edge_cases (Sample.at_time 5) 2%N 10%N
                    ["B"] (Some "Hi") [Sample.dave] 900 None Sample.store)
             Hnone). }
  split; [exact Hown|]. split; [exact Hquota|]. split; [exact Hdetails|].
  exact (proj2 (createInvitations_edge_cases (Sample.at_time 5) 1%N 10%N
                  ["B"] (Some "Hi") [] 900 None Sample.store)
           Hown Hquota Hdetails).
Defined.

Lemma token_collision_keeps_earlier_invitations_witness :
  (exists p, p ∈ projects (sample_store_with "r1")
             /\ p_project_id p = 10%N /\ p_user_id p = 1%N)
  /\ (exists u, u ∈ users (sample_store_with "r1") /\ u_user_id u = 1%N)
  /\ (length (filter (fun ri => project_id ri = 10%N
                                /\ (status ri = pending \/ status ri = accepted)
                                /\ (now (Sample.at_time 5) < expires_at ri)%Z)
                (reader_invitations (sample_store_with "r1")))
      + length ([Sample.dave] ++ Sample.carol :: [Sample.dave]) <= 15)%nat
  /\ Forall reader_fits [Sample.dave] /\ reader_fits Sample.carol
  /\ fresh_tokens (Sample.at_time 5) 0 (length [Sample.dave])
       (sample_store_with "r1")
  /\ fits (randomBytes (Sample.at_time 5) (length [Sample.dave]))
  /\ randomBytes (Sample.at_time 5) (length [Sample.dave])
       ∈ access_token <$> reader_invitations (sample_store_with "r1")
  /\ let result :=
       createInvitations (Sample.at_time 5) 1%N 10%N ["B"] (Some "Hi")
         ([Sample.dave] ++ Sample.carol :: [Sample.dave]) 900 None
         (sample_store_with "r1") in
     result.2
     = status_json 500
         (BError "Failed to create invitations"
            (Some ("duplicate key value violates unique constraint "
                   +:+ Pg.quoted "reader_invitations_access_token_key")))
     /\ exists rows attempts,
          reader_invitations result.1
          = reader_invitations (sample_store_with "r1") ++ rows
          /\ mail_log result.1 = mail_log (sample_store_with "r1") ++ attempts
          /\ Forall3 (fun a row rd =>
                        reader_email row = email rd
                        /\ readerEmail a.1 = email rd
                        /\ accessToken a.1 = access_token row
                        /\ a.2 = deliver (Sample.at_time 5) a.1)
               attempts rows [Sample.dave].
Proof.
  assert (exists p, p ∈ projects (sample_store_with "r1")
                    /\ p_project_id p = 10%N /\ p_user_id p = 1%N) as Hown
    by (exists Sample.book; split; [by left|by split]).
  assert (exists u, u ∈ users (sample_store_with "r1") /\ u_user_id u = 1%N) as Huser
    by (exists Sample.author; split; [by left|done]).
  assert (length (filter (fun ri => project_id ri = 10%N
                                    /\ (status ri = pending
                                        \/ status ri = accepted)
                                    /\ (now (Sample.at_time 5)
                                        < expires_at ri)%Z)
                    (reader_invitations (sample_store_with "r1")))
          + length ([Sample.dave] ++ Sample.carol :: [Sample.dave]) <= 15)%nat as Hquota
    by (vm_compute; lia).
  assert (fits (Js.or_else None
                  ("Draft Review - "
                   +:+ toLocaleDateString (Sample.at_time 5)
                         (now (Sample.at_time 5))))) as Hcircle
    by by_evaluation.
  assert (Forall reader_fits [Sample.dave]) as Hpre by by_evaluation.
  assert (reader_fits Sample.carol) as Hr by by_evaluation.
  assert (fresh_tokens (Sample.at_time 5) 0 (length [Sample.dave])
            (sample_store_with "r1")) as Hfresh by by_evaluation.
  assert (fits (randomBytes (Sample.at_time 5) (length [Sample.dave])))
    as Hfit by by_evaluation.
  assert (randomBytes (Sample.at_time 5) (length [Sample.dave])
            ∈ access_token <$> reader_invitations (sample_store_with "r1"))
    as Hdup by by_evaluation.
  split; [exact Hown|]. split; [exact Huser|]. split; [exact Hquota|].
  split; [exact Hpre|]. split; [exact Hr|].
  split; [exact Hfresh|]. split; [exact Hfit|]. split; [exact Hdup|].
  exact (token_collision_keeps_earlier_invitations (Sample.at_time 5) 1%N 10%N
           ["B"] (Some "Hi") [Sample.dave] Sample.carol [Sample.dave] 900 None
           (sample_store_with "r1") Hown Huser Hquota Hcircle Hpre Hr Hfresh
           Hfit Hdup).
Defined.

Lemma invitations_survive_a_gateway_that_cannot_send_witness :
  ([] = @nil EmailSettings \/ Some "Hi" = @None string)
  /\ (exists p, p ∈ projects Sample.store
             /\ p_project_id p = 10%N /\ p_user_id p = 1%N)
  /\ (exists u, u ∈ users Sample.store /\ u_user_id u = 1%N)
  /\ (length (filter (fun ri => project_id ri = 10%N
                                /\ (status ri = pending \/ status ri = accepted)
                                /\ (now (Sample.at_time 5) < expires_at ri)%Z)
                (reader_invitations Sample.store))
      + length [Sample.dave; Sample.carol] <= 15)%nat
  /\ fresh_tokens (Sample.at_time 5) 0 (length [Sample.dave; Sample.carol])
       Sample.store
  /\ Forall reader_fits [Sample.dave; Sample.carol]
  /\ let result :=
       createInvitations
         (with_gateway [] (fun _ _ => None) "undefined" (Sample.at_time 5))
         1%N 10%N ["B"] (Some "Hi") [Sample.dave; Sample.carol] 900 None
         Sample.store in
     exists rows,
       reader_invitations result.1 = reader_invitations Sample.store ++ rows
       /\ Forall2 (fun row rd =>
                     reader_name row = name rd /\ reader_email row = email rd
                     /\ project_id row = 10%N /\ user_id row = 1%N
                     /\ chapters_accessible row = ["B"]
                     /\ status row = pending /\ expires_at row = 900
                     /\ circle_name row = "Draft Review - Nov 2, 2026"
                     /\ invitation_message row = Some "Hi"
                     /\ accepted_at row = None /\ last_activity_at row = None
                     /\ archived row = false)
            rows [Sample.dave; Sample.carol]
       /\ result.2
          = status_json 201
              (BCreated (returning_columns <$> rows)
                 (Some [ {| reader := Some "dave@example.org";
                            error :=
                              "Email settings not configured. Please configure SMTP settings in the Admin panel." |};
                         {| reader := Some "bad@example.org";
                            error :=
                              "Email settings not configured. Please configure SMTP settings in the Admin panel." |} ])
                 (created_message 2 2)).
Proof.
  assert ([] = @nil EmailSettings \/ Some "Hi" = @None string) as Hwhy
    by (left; reflexivity).
  assert (exists p, p ∈ projects Sample.store
                    /\ p_project_id p = 10%N /\ p_user_id p = 1%N) as Hown
    by (exists Sample.book; split; [by left|by split]).
  assert (exists u, u ∈ users Sample.store /\ u_user_id u = 1%N) as Huser
    by (exists Sample.author; split; [by left|done]).
  assert (length (filter (fun ri => project_id ri = 10%N
                                    /\ (status ri = pending
                                        \/ status ri = accepted)
                                    /\ (now (Sample.at_time 5)
                                        < expires_at ri)%Z)
                    (reader_invitations Sample.store))
          + length [Sample.dave; Sample.carol] <= 15)%nat as Hquota
    by (vm_compute; lia).
  assert (fresh_tokens (Sample.at_time 5) 0 (length [Sample.dave; Sample.carol])
            Sample.store) as Hfresh by by_evaluation.
  assert (Forall reader_fits [Sample.dave; Sample.carol]) as Hreaders
    by by_evaluation.
  assert (fits (Js.or_else None
                  ("Draft Review - "
                   +:+ toLocaleDateString (Sample.at_time 5)
                         (now (Sample.at_time 5))))) as Hcircle
    by by_evaluation.
  split; [exact Hwhy|]. split; [exact Hown|]. split; [exact Huser|].
  split; [exact Hquota|]. split; [exact Hfresh|]. split; [exact Hreaders|].
  exact (invitations_survive_a_gateway_that_cannot_send (Sample.at_time 5) []
           (fun _ _ => None) "undefined" 1%N 10%N ["B"] (Some "Hi")
           [Sample.dave; Sample.carol] 900 None Sample.store
           Hwhy Hown Huser Hquota Hfresh Hreaders Hcircle).
Defined.

Lemma overlong_reader_stops_the_loop_witness :
  (exists p, p ∈ projects Sample.store
             /\ p_project_id p = 10%N /\ p_user_id p = 1%N)
  /\ (exists u, u ∈ users Sample.store /\ u_user_id u = 1%N)
  /\ (length (filter (fun ri => project_id ri = 10%N
                                /\ (status ri = pending \/ status ri = accepted)
                                /\ (now (Sample.at_time 5) < expires_at ri)%Z)
                (reader_invitations Sample.store))
      + length ([Sample.dave]
                  ++ {| name := Some long_name; email := Some "eve@example.org" |}
                  :: [Sample.carol]) <= 15)%nat
  /\ Forall reader_fits [Sample.dave]
  /\ String.length long_name = 300%nat
  /\ (overlong (Some long_name) \/ overlong (Some "eve@example.org"))
  /\ fresh_tokens (Sample.at_time 5) 0 (length [Sample.dave]) Sample.store
  /\ let result :=
       createInvitations (Sample.at_time 5) 1%N 10%N ["B"] (Some "Hi")
         ([Sample.dave]
            ++ {| name := Some long_name; email := Some "eve@example.org" |}
            :: [Sample.carol]) 900 None Sample.store in
     result.2
     = status_json 500
         (BError "Failed to create invitations"
            (Some "value too long for type character varying(255)"))
     /\ reader_email <$> reader_invitations result.1
        = (reader_email <$> reader_invitations Sample.store)
            ++ [Some "dave@example.org"].
Proof.
  assert (exists p, p ∈ projects Sample.store
                    /\ p_project_id p = 10%N /\ p_user_id p = 1%N) as Hown
    by (exists Sample.book; split; [by left|by split]).
  assert (exists u, u ∈ users Sample.store /\ u_user_id u = 1%N) as Huser
    by (exists Sample.author; split; [by left|done]).
  assert (length (filter (fun ri => project_id ri = 10%N
                                    /\ (status ri = pending
                                        \/ status ri = accepted)
                                    /\ (now (Sample.at_time 5)
                                        < expires_at ri)%Z)
                    (reader_invitations Sample.store))
          + length ([Sample.dave]
                  ++ {| name := Some long_name; email := Some "eve@example.org" |}
                  :: [Sample.carol]) <= 15)%nat as Hquota
    by (vm_compute; lia).
  assert (fits (Js.or_else None
                  ("Draft Review - "
                   +:+ toLocaleDateString (Sample.at_time 5)
                         (now (Sample.at_time 5))))) as Hcircle
    by by_evaluation.
  assert (Forall reader_fits [Sample.dave]) as Hpre by by_evaluation.
  assert (overlong (Some long_name) \/ overlong (Some "eve@example.org"))
    as Hlong.
  { left. exists long_name, 255%nat, (Ascii.ascii_of_nat 120).
    split; [reflexivity|]. split; [lia|]. split; [vm_compute; reflexivity|].
    vm_compute. discriminate. }
  assert (fresh_tokens (Sample.at_time 5) 0 (length [Sample.dave]) Sample.store)
    as Hfresh by by_evaluation.
  split; [exact Hown|]. split; [exact Huser|]. split; [exact Hquota|].
  split; [exact Hpre|]. split; [vm_compute; reflexivity|].
  split; [exact Hlong|]. split; [exact Hfresh|].
  pose proof (overlong_reader_stops_the_loop (Sample.at_time 5) 1%N 10%N ["B"]
                (Some "Hi") [Sample.dave]
                {| name := Some long_name; email := Some "eve@example.org" |}
                [Sample.carol] 900 None Sample.store
                Hown Huser Hquota Hcircle Hpre Hlong Hfresh) as H.
  cbv zeta in H. destruct H as (Hresponse & rows & attempts & Hrows & _ & Hpre' & _).
  cbv zeta. split; [exact Hresponse|].
  rewrite Hrows, fmap_app. f_equal.
  apply Forall2_cons_inv_r in Hpre' as (row & rest & (_ & Hemail & _) & Hrest & ->).
  apply Forall2_nil_inv_r in Hrest as ->. cbn. by rewrite Hemail.
Defined.

Lemma overlong_circle_name_stores_nothing_witness :
  (exists p, p ∈ projects Sample.store
             /\ p_project_id p = 10%N /\ p_user_id p = 1%N)
  /\ (exists u, u ∈ users Sample.store /\ u_user_id u = 1%N)
  /\ (length (filter (fun ri => project_id ri = 10%N
                                /\ (status ri = pending \/ status ri = accepted)
                                /\ (now (Sample.at_time 5) < expires_at ri)%Z)
                (reader_invitations Sample.store))
      + length [Sample.dave; Sample.carol] <= 15)%nat
  /\ String.length long_name = 300%nat
  /\ overlong (Some long_name)
  /\ createInvitations (Sample.at_time 5) 1%N 10%N ["B"] (Some "Hi")
       [Sample.dave; Sample.carol] 900 (Some long_name) Sample.store
     = (Sample.store,
        status_json 500
          (BError "Failed to create invitations"
             (Some "value too long for type character varying(255)"))).
Proof.
  assert (exists p, p ∈ projects Sample.store
                    /\ p_project_id p = 10%N /\ p_user_id p = 1%N) as Hown
    by (exists Sample.book; split; [by left|by split]).
  assert (exists u, u ∈ users Sample.store /\ u_user_id u = 1%N) as Huser
    by (exists Sample.author; split; [by left|done]).
  assert (length (filter (fun ri => project_id ri = 10%N
                                    /\ (status ri = pending
                                        \/ status ri = accepted)
                                    /\ (now (Sample.at_time 5)
                                        < expires_at ri)%Z)
                    (reader_invitations Sample.store))
          + length [Sample.dave; Sample.carol] <= 15)%nat as Hquota
    by (vm_compute; lia).
  assert (overlong (Some long_name)) as Hlong.
  { exists long_name, 255%nat, (Ascii.ascii_of_nat 120).
    split; [reflexivity|]. split; [lia|]. split; [vm_compute; reflexivity|].
    vm_compute. discriminate. }
  split; [exact Hown|]. split; [exact Huser|]. split; [exact Hquota|].
  split; [vm_compute; reflexivity|]. split; [exact Hlong|].
  exact (overlong_circle_name_stores_nothing (Sample.at_time 5) 1%N 10%N ["B"]
           (Some "Hi") Sample.dave [Sample.carol] 900 (Some long_name)
           Sample.store Hown Huser Hquota Hlong).
Defined.

Lemma login_never_issues_tokens_witness :
  head (Auth.SELECT_users_by_email (Some "ann@example.org") Auth.Demo.store)
  = Some Auth.Demo.ann
  /\ Auth.compare (Auth.Demo.at_time 5 "id-1") (Some "ann")
       (Auth.password_hash Auth.Demo.ann) = Auth.Returns true
  /\ Auth.login (Auth.Demo.at_time 5 "id-1") (Some "ann@example.org")
       (Some "ann") Auth.Demo.store
     = (Auth.Demo.store, Auth.status_json 500 (Auth.error "Server error")).
Proof.
  assert (head (Auth.SELECT_users_by_email (Some "ann@example.org")
                  Auth.Demo.store) = Some Auth.Demo.ann) as Huser
    by reflexivity.
  assert (Auth.compare (Auth.Demo.at_time 5 "id-1") (Some "ann")
            (Auth.password_hash Auth.Demo.ann) = Auth.Returns true) as Hpass
    by reflexivity.
  split; [exact Huser|]. split; [exact Hpass|].
  pose proof (login_never_issues_tokens (Auth.Demo.at_time 5 "id-1")
                (Some "ann@example.org") (Some "ann") Auth.Demo.store) as H.
  cbv zeta in H. destruct H as (Hstore & _ & Hright).
  apply injective_projections; cbn [fst snd];
    [exact Hstore|exact (Hright Auth.Demo.ann Huser Hpass)].
Defined.

Lemma generateRefreshToken_leaves_one_token_witness :
  Auth.Demo.ann ∈ Auth.users Auth.Demo.store
  /\ ("ann-old"
        ∉ Auth.token
            <$> filter (fun r => Auth.rt_user_id r <> Auth.user_id Auth.Demo.ann)
                  (Auth.refresh_tokens Auth.Demo.store))
  /\ let result :=
       Auth.generateRefreshToken (Auth.Demo.at_time 5 "ann-old") Auth.Demo.ann
         Auth.Demo.store in
     result.2 = Auth.Value "ann-old"
     /\ exists row,
          Auth.tokens_of 1%N result.1 = [row]
          /\ Auth.token row = "ann-old"
          /\ Auth.expires_at row = 604800005.
Proof.
  assert (Auth.Demo.ann ∈ Auth.users Auth.Demo.store) as Huser
    by (cbn; rewrite !elem_of_cons; auto).
  assert ("ann-old"
            ∉ Auth.token
                <$> filter (fun r => Auth.rt_user_id r <> Auth.user_id Auth.Demo.ann)
                      (Auth.refresh_tokens Auth.Demo.store)) as Hfresh
    by by_evaluation.
  split; [exact Huser|]. split; [exact Hfresh|].
  pose proof (generateRefreshToken_leaves_one_token
                (Auth.Demo.at_time 5 "ann-old") Auth.Demo.ann Auth.Demo.store
                Huser Hfresh) as H.
  cbv zeta in H. destruct H as (Hret & _ & _ & row & Hrow & Htok & Hexp & _).
  cbv zeta. split; [exact Hret|]. exists row.
  split; [exact Hrow|]. split; [exact Htok|exact Hexp].
Defined.

Lemma generateRefreshToken_failure_drops_old_tokens_witness :
  (Auth.user_id Auth.Demo.ann ∉ Auth.user_id <$> Auth.users Auth.Demo.store
   \/ "bob-token"
        ∈ Auth.token
            <$> filter (fun r => Auth.rt_user_id r <> Auth.user_id Auth.Demo.ann)
                  (Auth.refresh_tokens Auth.Demo.store))
  /\ Auth.tokens_of 1%N Auth.Demo.store <> []
  /\ let result :=
       Auth.generateRefreshToken (Auth.Demo.at_time 5 "bob-token") Auth.Demo.ann
         Auth.Demo.store in
     result.2 = Auth.Thrown "Could not generate refresh token."
     /\ Auth.tokens_of 1%N result.1 = [].
Proof.
  assert (Auth.user_id Auth.Demo.ann ∉ Auth.user_id <$> Auth.users Auth.Demo.store
          \/ "bob-token"
               ∈ Auth.token
                   <$> filter (fun r => Auth.rt_user_id r <> Auth.user_id Auth.Demo.ann)
                         (Auth.refresh_tokens Auth.Demo.store)) as Hwhy
    by (right; by_evaluation).
  split; [exact Hwhy|]. split; [vm_compute; discriminate|].
  pose proof (generateRefreshToken_failure_drops_old_tokens
                (Auth.Demo.at_time 5 "bob-token") Auth.Demo.ann Auth.Demo.store
                Hwhy) as H.
  cbv zeta in H. destruct H as (Hthrown & _ & Hnone & _).
  cbv zeta. split; [exact Hthrown|exact Hnone].
Defined.

Lemma refresh_reads_only_and_needs_a_live_token_witness :
  (Auth.refresh (Auth.Demo.at_time 5 "id-1") (Some "bob-token")
     Auth.Demo.store).2
  = Auth.status_json 200 (Auth.access "jwt:bob@example.org:admin")
  /\ exists tok row user,
       Some "bob-token" = Some tok /\ tok <> ""
       /\ row ∈ Auth.refresh_tokens Auth.Demo.store /\ Auth.token row = tok
       /\ 5 <= Auth.expires_at row
       /\ user ∈ Auth.users Auth.Demo.store
       /\ Auth.user_id user = Auth.rt_user_id row
       /\ Auth.generateAccessToken (Auth.Demo.at_time 5 "id-1") user
          = Auth.Returns "jwt:bob@example.org:admin".
Proof.
  assert ((Auth.refresh (Auth.Demo.at_time 5 "id-1") (Some "bob-token")
             Auth.Demo.store).2
          = Auth.status_json 200 (Auth.access "jwt:bob@example.org:admin")) as Hok
    by reflexivity.
  split; [exact Hok|].
  exact (proj2 (refresh_reads_only_and_needs_a_live_token
                  (Auth.Demo.at_time 5 "id-1") (Some "bob-token")
                  Auth.Demo.store) _ Hok).
Defined.

Lemma logout_withdraws_the_token_witness :
  "bob-token" <> ""
  /\ let result := Auth.logout (Some "bob-token") Auth.Demo.store in
     result.2 = Auth.sendStatus 204
     /\ Auth.refresh (Auth.Demo.at_time 5 "id-1") (Some "bob-token") result.1
        = (result.1, Auth.sendStatus 403)
     /\ forall t', t' <> Some "bob-token" ->
          (Auth.refresh (Auth.Demo.at_time 5 "id-1") t' result.1).2
          = (Auth.refresh (Auth.Demo.at_time 5 "id-1") t' Auth.Demo.store).2.
Proof.
  assert ("bob-token" <> "") as Hne by discriminate.
  split; [exact Hne|].
  exact (logout_withdraws_the_token (Auth.Demo.at_time 5 "id-1") "bob-token"
           Auth.Demo.store Hne).
Defined.

Lemma new_refresh_token_is_accepted_witness :
  head (Auth.SELECT_users_by_id (Auth.user_id Auth.Demo.ann) Auth.Demo.store)
  = Some Auth.Demo.ann
  /\ "id-1" <> ""
  /\ ("id-1"
        ∉ Auth.token
            <$> filter (fun r => Auth.rt_user_id r <> Auth.user_id Auth.Demo.ann)
                  (Auth.refresh_tokens Auth.Demo.store))
  /\ 700 <= Auth.plus_seven_days (Auth.Demo.at_time 5 "id-1") 5
  /\ let s' :=
       (Auth.generateRefreshToken (Auth.Demo.at_time 5 "id-1") Auth.Demo.ann
          Auth.Demo.store).1 in
     Auth.refresh (Auth.Demo.at_time 700 "id-2") (Some "id-1") s'
     = (s', Auth.status_json 200 (Auth.access "jwt:ann@example.org:user")).
Proof.
  assert (head (Auth.SELECT_users_by_id (Auth.user_id Auth.Demo.ann)
                  Auth.Demo.store) = Some Auth.Demo.ann) as Huser
    by reflexivity.
  assert ("id-1" <> "") as Hne by discriminate.
  assert ("id-1"
            ∉ Auth.token
                <$> filter (fun r => Auth.rt_user_id r <> Auth.user_id Auth.Demo.ann)
                      (Auth.refresh_tokens Auth.Demo.store)) as Hfresh
    by by_evaluation.
  assert (Auth.now (Auth.Demo.at_time 700 "id-2")
          <= Auth.plus_seven_days (Auth.Demo.at_time 5 "id-1")
               (Auth.now (Auth.Demo.at_time 5 "id-1"))) as Hlive
    by (cbn; lia).
  split; [exact Huser|]. split; [exact Hne|]. split; [exact Hfresh|].
  split; [exact Hlive|].
  exact (new_refresh_token_is_accepted (Auth.Demo.at_time 5 "id-1")
           (Auth.Demo.at_time 700 "id-2") Auth.Demo.ann Auth.Demo.store
           Huser Hne Hfresh Hlive).
Defined.
